(** * serika-cli-video: the ASCII-art playback core of [src/index.js]

    A shallow embedding of [playVideoAscii] (src/index.js, lines 84-255):
    the frame assembler (the [ffmpeg.stdout] 'data' handler), the bounded
    frame queue, the renderer ([renderFrame]), the scheduler
    ([processNextFrame]), the teardown path ([cleanup], [onKeyPress],
    the [ffmpeg] 'error' and 'close' handlers) and the 'error' event of
    the audio player, which the program leaves without a listener.

    JavaScript numbers are IEEE-754 binary64 values; they are modelled with
    the Standard Library's executable specification [SpecFloat] at
    precision 53, so that [Math.floor(width * (9 / 16) * 0.55)] and
    [Math.floor((brightness / 255) * (chars.length - 1))] round exactly as
    they do in the program.  Loop counters, byte offsets and lengths are
    small exact integers and are kept in [nat].  Property reads on the
    [CHARSETS] object literal see its own properties and those it inherits
    from [Object.prototype].

    The event loop is modelled by a step function: each event runs one
    callback to completion on the session state, which also carries the
    pending [setImmediate] and [setTimeout] callbacks and the log of the
    effects performed. *)

From Stdlib Require Import ZArith QArith Qround.
From Stdlib Require Import Floats.SpecFloat.
From Stdlib Require Import DecimalString.
From stdpp Require Import gmap strings list.

Local Open Scope nat_scope.

(** ** JavaScript numbers *)

Module JS.

Definition prec : Z := 53.
Definition emax : Z := 1024.

Definition number : Type := spec_float.

Definition NaN : number := S754_nan.

(** An integer literal, or an integer-valued variable, as a double
    (round to nearest even; exact below 2^53). *)
Definition of_Z (z : Z) : number := binary_normalize prec emax z 0 false.

Definition add : number -> number -> number := SFadd prec emax.
Definition sub : number -> number -> number := SFsub prec emax.
Definition mul : number -> number -> number := SFmul prec emax.
Definition div : number -> number -> number := SFdiv prec emax.

(** [Math.floor]: the largest integer not above the argument, as a double.
    Doubles with a non-negative exponent are integers already; zeros,
    infinities and NaN are returned unchanged. *)
Definition Math_floor (x : number) : number :=
  match x with
  | S754_finite s m e =>
      if (0 <=? e)%Z then x
      else of_Z (Z.shiftr (cond_Zopp s (Zpos m)) (- e))
  | _ => x
  end.

(** The integer a double denotes, when it denotes one. *)
Definition to_Z (x : number) : option Z :=
  match x with
  | S754_zero _ => Some 0%Z
  | S754_finite s m e =>
      if (0 <=? e)%Z then Some (cond_Zopp s (Zpos m) * 2 ^ e)%Z
      else if (Z.land (Zpos m) (Z.ones (- e)) =? 0)%Z
           then Some (Z.shiftr (cond_Zopp s (Zpos m)) (- e))
           else None
  | _ => None
  end.

(** The literal [0.55]: the double nearest to 55/100. *)
Definition lit_0_55 : number := S754_finite false 4953959590107546 (-53).

(** *** Strings and values *)

(** A JavaScript string is a sequence of UTF-16 code units; [s.length]
    counts them and [s[i]] selects one. *)
Definition char : Type := N.
Definition jsstring : Type := list char.

(** An ASCII literal as a JavaScript string. *)
Definition lit (s : string) : jsstring :=
  map Ascii.N_of_ascii (String.list_ascii_of_string s).

(** The values a property read on [CHARSETS] can produce. *)
Inductive value : Type :=
| VUndefined
| VString (s : jsstring)
| VFunction (arity : Z)   (* a built-in function; [.length] is its arity *)
| VObject.                (* an ordinary object without a [length] *)

(** Truthiness, as [||] tests it. *)
Definition truthy (v : value) : bool :=
  match v with
  | VUndefined => false
  | VString s => negb (Nat.eqb (length s) 0)
  | VFunction _ => true
  | VObject => true
  end.

(** [a || b] *)
Definition or_else (a b : value) : value := if truthy a then a else b.

(** [v.length] as a number ([undefined] becomes NaN in arithmetic). *)
Definition length_of (v : value) : number :=
  match v with
  | VString s => of_Z (Z.of_nat (length s))
  | VFunction n => of_Z n
  | _ => NaN
  end.

(** The array index a number names as a property key, if any:
    [ToString] of an integral non-negative double ([-0] prints as "0"). *)
Definition array_index (i : number) : option nat :=
  match to_Z i with
  | Some z => if (0 <=? z)%Z then Some (Z.to_nat z) else None
  | None => None
  end.

(** [v[i]] for a numeric key: a code unit of a string, [undefined]
    ([None]) otherwise. *)
Definition index (v : value) (i : number) : option char :=
  match v with
  | VString s => match array_index i with
                 | Some n => s !! n
                 | None => None
                 end
  | _ => None
  end.

(** [Object.prototype]: every object literal inherits these properties. *)
Definition Object_prototype : gmap string value :=
  list_to_map
    [ ("constructor", VFunction 1);
      ("__proto__", VObject);
      ("hasOwnProperty", VFunction 1);
      ("isPrototypeOf", VFunction 1);
      ("propertyIsEnumerable", VFunction 1);
      ("toLocaleString", VFunction 0);
      ("toString", VFunction 0);
      ("valueOf", VFunction 0);
      ("__defineGetter__", VFunction 2);
      ("__defineSetter__", VFunction 2);
      ("__lookupGetter__", VFunction 1);
      ("__lookupSetter__", VFunction 1) ].

(** [obj[key]] on an object literal whose own properties are strings:
    the own property if there is one, else the inherited one, else
    [undefined]. *)
Definition get (obj : gmap string jsstring) (key : string) : value :=
  match obj !! key with
  | Some s => VString s
  | None => default VUndefined (Object_prototype !! key)
  end.

(** [Number.prototype.toString] on a non-negative integer: its decimal
    digits, "0" for zero. *)
Definition decimal (n : N) : string := NilZero.string_of_uint (N.to_uint n).

(** Template-literal interpolation of a byte read from a Buffer:
    decimal digits, or the text of [undefined] past the end. *)
Definition tpl_byte (o : option Byte.byte) : jsstring :=
  match o with
  | Some b => lit (decimal (Byte.to_N b))
  | None => lit "undefined"
  end.

(** Template-literal interpolation of [chars[charIndex]]. *)
Definition tpl_char (o : option char) : jsstring :=
  match o with
  | Some c => [c]
  | None => lit "undefined"
  end.

(** A Buffer element in arithmetic. *)
Definition elem_num (o : option Byte.byte) : number :=
  match o with
  | Some b => of_Z (Z.of_N (Byte.to_N b))
  | None => NaN
  end.

End JS.

Import JS.

(** ** Configuration (src/index.js, lines 25-30, 86-89, 122, 131-132) *)

Definition standard : jsstring := lit " .:-=+*#%@".
Definition simple : jsstring := lit " .:+@".
Definition blocks : jsstring := [32; 9617; 9618; 9619; 9608]%N.
Definition solid : jsstring := [9608]%N.

Definition CHARSETS : gmap string jsstring :=
  {[ "standard" := standard; "simple" := simple;
     "blocks" := blocks; "solid" := solid ]}.

(** [const chars = CHARSETS[charsetName] || CHARSETS.standard] *)
Definition select_chars (charsetName : string) : value :=
  or_else (get CHARSETS charsetName) (get CHARSETS "standard").

(** [const height = Math.floor(width * (9 / 16) * 0.55)] *)
Definition derive_height (width : Z) : number :=
  Math_floor (mul (mul (of_Z width) (div (of_Z 9) (of_Z 16))) lit_0_55).

(** [const frameSize = width * height * 3] *)
Definition derive_frameSize (width : Z) : number :=
  mul (mul (of_Z width) (derive_height width)) (of_Z 3).

Record RenderConfig : Type := {
  width : nat;
  height : nat;
  chars : value
}.

Definition frameSize (cfg : RenderConfig) : nat := width cfg * height cfg * 3.

(** [config.get('asciiWidth') || process.stdout.columns || 80] for
    integer values; a missing value and zero are falsy. *)
Definition choose_width (asciiWidth columns : option Z) : Z :=
  let or_else (a : option Z) (b : Z) : Z :=
    match a with
    | Some z => if (z =? 0)%Z then b else z
    | None => b
    end in
  or_else asciiWidth (or_else columns 80%Z).

(** The configuration [playVideoAscii] derives from the settings, for a
    positive width (the terminal check of lines 92-96 passed). *)
Definition playVideoAscii_config (asciiWidth columns : option Z)
    (charsetName : string) : option RenderConfig :=
  let w := choose_width asciiWidth columns in
  match to_Z (derive_height w) with
  | Some h =>
      if (0 <? w)%Z && (0 <=? h)%Z
      then Some {| width := Z.to_nat w;
                   height := Z.to_nat h;
                   chars := select_chars charsetName |}
      else None
  | None => None
  end.

(** ** Escape sequences and the renderer (src/index.js, lines 135-164) *)

Definition frame : Type := list Byte.byte.

Definition ESC : char := 27%N.
Definition LF : char := 10%N.
Definition cursor_home : jsstring := ESC :: lit "[H".
Definition cursor_hide : jsstring := ESC :: lit "[?25l".
Definition cursor_show : jsstring := ESC :: lit "[?25h".
Definition color_reset : jsstring := ESC :: lit "[0m".

(** [(r + g + b) / 3] *)
Definition brightness (r g b : option Byte.byte) : number :=
  div (add (add (elem_num r) (elem_num g)) (elem_num b)) (of_Z 3).

(** [Math.floor((brightness / 255) * (chars.length - 1))] *)
Definition charIndex (chars : value) (r g b : option Byte.byte) : number :=
  Math_floor (mul (div (brightness r g b) (of_Z 255))
                  (sub (length_of chars) (of_Z 1))).

(** The text one pixel appends to [output]: the template literal
    of line 156. *)
Definition cell (chars : value) (r g b : option Byte.byte) : jsstring :=
  ESC :: lit "[38;2;" ++ tpl_byte r ++ lit ";" ++ tpl_byte g ++ lit ";"
      ++ tpl_byte b ++ lit "m" ++ tpl_char (index chars (charIndex chars r g b)).

(** ** Effects and session state *)

Inductive proc : Type := Ffmpeg | AudioPlayer.

Inductive effect : Type :=
| ConsoleClear                 (* console.clear() *)
| StdoutWrite (s : jsstring)   (* process.stdout.write(s) *)
| ReportDecoderMissing         (* the console.log of the ENOENT branch *)
| SetRawMode (on : bool)       (* process.stdin.setRawMode(on) *)
| StdinResume
| StdinPause
| AddKeyListener               (* process.stdin.on('data', onKeyPress) *)
| RemoveKeyListener            (* process.stdin.removeListener('data', onKeyPress) *)
| Spawn (p : proc)
| Kill (p : proc)              (* p.kill() *)
| SetImmediate                 (* setImmediate(processNextFrame) *)
| SetTimeout (ms : nat)        (* setTimeout(() => resolve(), ms) *)
| Resolve                      (* resolve() *)
| Uncaught (p : proc).         (* an 'error' event of p without a listener:
                                  Node throws it and the process ends *)

(** The variables [playVideoAscii] closes over, the pending callbacks of
    the event loop, whether the process has ended on an uncaught
    exception, and the effects performed so far, oldest first.
    [emitted] is a ghost field: every frame handed to [frameQueue.push],
    in order. *)
Record state : Type := {
  buffer : list Byte.byte;
  emitted : list frame;
  frameQueue : list frame;
  isProcessing : bool;
  firstFrame : bool;
  frameCount : nat;
  cleanedUp : bool;
  keyListener : bool;
  ffmpegKilled : bool;
  audioKilled : bool;
  immediates : nat;
  timers : list nat;
  exited : bool;
  log : list effect
}.

Definition set_buffer (v : list Byte.byte) (st : state) : state :=
  {| buffer := v; emitted := emitted st; frameQueue := frameQueue st; isProcessing := isProcessing st; firstFrame := firstFrame st; frameCount := frameCount st; cleanedUp := cleanedUp st; keyListener := keyListener st; ffmpegKilled := ffmpegKilled st; audioKilled := audioKilled st; immediates := immediates st; timers := timers st; exited := exited st; log := log st |}.
Definition set_emitted (v : list frame) (st : state) : state :=
  {| buffer := buffer st; emitted := v; frameQueue := frameQueue st; isProcessing := isProcessing st; firstFrame := firstFrame st; frameCount := frameCount st; cleanedUp := cleanedUp st; keyListener := keyListener st; ffmpegKilled := ffmpegKilled st; audioKilled := audioKilled st; immediates := immediates st; timers := timers st; exited := exited st; log := log st |}.
Definition set_frameQueue (v : list frame) (st : state) : state :=
  {| buffer := buffer st; emitted := emitted st; frameQueue := v; isProcessing := isProcessing st; firstFrame := firstFrame st; frameCount := frameCount st; cleanedUp := cleanedUp st; keyListener := keyListener st; ffmpegKilled := ffmpegKilled st; audioKilled := audioKilled st; immediates := immediates st; timers := timers st; exited := exited st; log := log st |}.
Definition set_isProcessing (v : bool) (st : state) : state :=
  {| buffer := buffer st; emitted := emitted st; frameQueue := frameQueue st; isProcessing := v; firstFrame := firstFrame st; frameCount := frameCount st; cleanedUp := cleanedUp st; keyListener := keyListener st; ffmpegKilled := ffmpegKilled st; audioKilled := audioKilled st; immediates := immediates st; timers := timers st; exited := exited st; log := log st |}.
Definition set_firstFrame (v : bool) (st : state) : state :=
  {| buffer := buffer st; emitted := emitted st; frameQueue := frameQueue st; isProcessing := isProcessing st; firstFrame := v; frameCount := frameCount st; cleanedUp := cleanedUp st; keyListener := keyListener st; ffmpegKilled := ffmpegKilled st; audioKilled := audioKilled st; immediates := immediates st; timers := timers st; exited := exited st; log := log st |}.
Definition set_frameCount (v : nat) (st : state) : state :=
  {| buffer := buffer st; emitted := emitted st; frameQueue := frameQueue st; isProcessing := isProcessing st; firstFrame := firstFrame st; frameCount := v; cleanedUp := cleanedUp st; keyListener := keyListener st; ffmpegKilled := ffmpegKilled st; audioKilled := audioKilled st; immediates := immediates st; timers := timers st; exited := exited st; log := log st |}.
Definition set_cleanedUp (v : bool) (st : state) : state :=
  {| buffer := buffer st; emitted := emitted st; frameQueue := frameQueue st; isProcessing := isProcessing st; firstFrame := firstFrame st; frameCount := frameCount st; cleanedUp := v; keyListener := keyListener st; ffmpegKilled := ffmpegKilled st; audioKilled := audioKilled st; immediates := immediates st; timers := timers st; exited := exited st; log := log st |}.
Definition set_keyListener (v : bool) (st : state) : state :=
  {| buffer := buffer st; emitted := emitted st; frameQueue := frameQueue st; isProcessing := isProcessing st; firstFrame := firstFrame st; frameCount := frameCount st; cleanedUp := cleanedUp st; keyListener := v; ffmpegKilled := ffmpegKilled st; audioKilled := audioKilled st; immediates := immediates st; timers := timers st; exited := exited st; log := log st |}.
Definition set_ffmpegKilled (v : bool) (st : state) : state :=
  {| buffer := buffer st; emitted := emitted st; frameQueue := frameQueue st; isProcessing := isProcessing st; firstFrame := firstFrame st; frameCount := frameCount st; cleanedUp := cleanedUp st; keyListener := keyListener st; ffmpegKilled := v; audioKilled := audioKilled st; immediates := immediates st; timers := timers st; exited := exited st; log := log st |}.
Definition set_audioKilled (v : bool) (st : state) : state :=
  {| buffer := buffer st; emitted := emitted st; frameQueue := frameQueue st; isProcessing := isProcessing st; firstFrame := firstFrame st; frameCount := frameCount st; cleanedUp := cleanedUp st; keyListener := keyListener st; ffmpegKilled := ffmpegKilled st; audioKilled := v; immediates := immediates st; timers := timers st; exited := exited st; log := log st |}.
Definition set_immediates (v : nat) (st : state) : state :=
  {| buffer := buffer st; emitted := emitted st; frameQueue := frameQueue st; isProcessing := isProcessing st; firstFrame := firstFrame st; frameCount := frameCount st; cleanedUp := cleanedUp st; keyListener := keyListener st; ffmpegKilled := ffmpegKilled st; audioKilled := audioKilled st; immediates := v; timers := timers st; exited := exited st; log := log st |}.
Definition set_timers (v : list nat) (st : state) : state :=
  {| buffer := buffer st; emitted := emitted st; frameQueue := frameQueue st; isProcessing := isProcessing st; firstFrame := firstFrame st; frameCount := frameCount st; cleanedUp := cleanedUp st; keyListener := keyListener st; ffmpegKilled := ffmpegKilled st; audioKilled := audioKilled st; immediates := immediates st; timers := v; exited := exited st; log := log st |}.
Definition set_exited (v : bool) (st : state) : state :=
  {| buffer := buffer st; emitted := emitted st; frameQueue := frameQueue st; isProcessing := isProcessing st; firstFrame := firstFrame st; frameCount := frameCount st; cleanedUp := cleanedUp st; keyListener := keyListener st; ffmpegKilled := ffmpegKilled st; audioKilled := audioKilled st; immediates := immediates st; timers := timers st; exited := v; log := log st |}.
Definition set_log (v : list effect) (st : state) : state :=
  {| buffer := buffer st; emitted := emitted st; frameQueue := frameQueue st; isProcessing := isProcessing st; firstFrame := firstFrame st; frameCount := frameCount st; cleanedUp := cleanedUp st; keyListener := keyListener st; ffmpegKilled := ffmpegKilled st; audioKilled := audioKilled st; immediates := immediates st; timers := timers st; exited := exited st; log := v |}.

Definition perform (es : list effect) (st : state) : state :=
  set_log (log st ++ es) st.

(** The events the host delivers to the session's callbacks. *)
Inductive event : Type :=
| Data (chunk : list Byte.byte)   (* ffmpeg.stdout 'data' *)
| Key (key : list Byte.byte)      (* process.stdin 'data' *)
| FfmpegError (enoent : bool)     (* ffmpeg 'error' *)
| FfmpegClose                     (* ffmpeg 'close' *)
| AudioError                      (* audioPlayer 'error' *)
| Immediate                       (* a pending setImmediate callback runs *)
| Timeout.                        (* the oldest pending timer fires *)

(** [key[0] === 0x03] *)
Definition first_byte_is_etx (key : list Byte.byte) : bool :=
  match key !! 0 with
  | Some b => Byte.eqb b Byte.x03
  | None => false
  end.

(** [key.toString().toLowerCase() === 'q']: the buffer is decoded as
    UTF-8, and the only strings that lower-case to "q" are "q" and "Q",
    the decodings of the one-byte buffers 0x71 and 0x51. *)
Definition lower_is_q (key : list Byte.byte) : bool :=
  match key with
  | [b] => Byte.eqb b Byte.x71 || Byte.eqb b Byte.x51
  | _ => false
  end.

(** A queue push followed by the bound check of lines 190-195. *)
Definition enqueue (q : list frame) (f : frame) : list frame :=
  let q' := q ++ [f] in
  if 30 <? length q' then drop 1 q' else q'.

Section Playback.

Variable cfg : RenderConfig.
Variable isTTY : bool.   (* process.stdin.isTTY *)

Definition render_pixel (f : frame) (y x : nat) : jsstring :=
  let offset := (y * width cfg + x) * 3 in
  cell (chars cfg) (f !! offset) (f !! (offset + 1)) (f !! (offset + 2)).

(** The inner [for] loop and the newline of one row. *)
Definition render_row (f : frame) (output : jsstring) (y : nat) : jsstring :=
  foldl (fun output x => output ++ render_pixel f y x) output
        (seq 0 (width cfg))
  ++ [LF].

(** The string [renderFrame] passes to [process.stdout.write]. *)
Definition render_blob (f : frame) : jsstring :=
  foldl (render_row f) cursor_home (seq 0 (height cfg)) ++ color_reset.

Definition renderFrame (f : frame) (st : state) : state :=
  let st1 :=
    if firstFrame st
    then set_firstFrame false (perform [ConsoleClear; StdoutWrite cursor_hide] st)
    else st in
  let st2 := perform [StdoutWrite (render_blob f)] st1 in
  set_frameCount (S (frameCount st2)) st2.

(** src/index.js, lines 167-180 *)
Definition processNextFrame (st : state) : state :=
  if isProcessing st || (length (frameQueue st) =? 0) then st
  else
    match frameQueue st with
    | [] => st
    | f :: rest =>
        let st1 := set_frameQueue rest (set_isProcessing true st) in
        let st2 := renderFrame f st1 in
        let st3 := set_isProcessing false st2 in
        if 0 <? length (frameQueue st3)
        then set_immediates (S (immediates st3)) (perform [SetImmediate] st3)
        else st3
    end.

(** One iteration of the [while] loop of lines 185-196. *)
Definition slice_step (st : state) : state :=
  let f := take (frameSize cfg) (buffer st) in
  let st1 := set_buffer (drop (frameSize cfg) (buffer st)) st in
  set_emitted (emitted st1 ++ [f])
    (set_frameQueue (enqueue (frameQueue st1) f) st1).

(** The [while] loop; [None] when the fuel runs out before the loop
    condition fails. *)
Fixpoint slice_loop (fuel : nat) (st : state) : option state :=
  match fuel with
  | 0 => None
  | S fuel' =>
      if frameSize cfg <=? length (buffer st)
      then slice_loop fuel' (slice_step st)
      else Some st
  end.

(** The 'data' handler of lines 182-202. *)
Definition onData_fuel (fuel : nat) (chunk : list Byte.byte) (st : state)
  : option state :=
  let st1 := set_buffer (buffer st ++ chunk) st in
  match slice_loop fuel st1 with
  | Some st2 => Some (if isProcessing st2 then st2 else processNextFrame st2)
  | None => None
  end.

Definition onData (chunk : list Byte.byte) (st : state) : option state :=
  onData_fuel (S (length (buffer st ++ chunk))) chunk st.

(** src/index.js, lines 206-220 *)
Definition cleanup (st : state) : state :=
  if cleanedUp st then st
  else
    let st1 := set_cleanedUp true st in
    let st2 := if isTTY then perform [SetRawMode false; StdinPause] st1 else st1 in
    let st3 := set_keyListener false (perform [RemoveKeyListener] st2) in
    let st4 := if ffmpegKilled st3 then st3
               else set_ffmpegKilled true (perform [Kill Ffmpeg] st3) in
    let st5 := if audioKilled st4 then st4
               else set_audioKilled true (perform [Kill AudioPlayer] st4) in
    perform [StdoutWrite cursor_show; ConsoleClear] st5.

(** src/index.js, lines 223-230 *)
Definition onKeyPress (key : list Byte.byte) (st : state) : state :=
  if first_byte_is_etx key || lower_is_q key
  then
    let st1 := cleanup st in
    set_timers (timers st1 ++ [100]) (perform [SetTimeout 100] st1)
  else st.

(** src/index.js, lines 239-248 *)
Definition onFfmpegError (enoent : bool) (st : state) : state :=
  let st1 := if enoent then perform [ReportDecoderMissing] st else st in
  perform [Resolve] (cleanup st1).

(** src/index.js, lines 250-253 *)
Definition onFfmpegClose (st : state) : state :=
  perform [Resolve] (cleanup st).

(** The state once the executor of the promise has run: both
    subprocesses spawned, the key listener installed on a TTY. *)
Definition init : state :=
  {| buffer := []; emitted := []; frameQueue := []; isProcessing := false;
     firstFrame := true; frameCount := 0; cleanedUp := false;
     keyListener := isTTY; ffmpegKilled := false; audioKilled := false;
     immediates := 0; timers := []; exited := false;
     log := [Spawn AudioPlayer; Spawn Ffmpeg]
            ++ (if isTTY then [SetRawMode true; StdinResume; AddKeyListener]
                else []) |}.

(** The audio player's 'error' event (its executable is missing, or it
    cannot be killed).  [audioPlayer] is spawned at lines 100-102 and no
    listener is ever attached to it, so the event is thrown as an
    uncaught exception: the process ends where it stands, without
    [cleanup] and without [resolve]. *)
Definition onAudioError (st : state) : state :=
  set_exited true (perform [Uncaught AudioPlayer] st).

(** One callback run to completion; [None] when the host cannot deliver
    the event (the process has ended, no listener, nothing pending) or
    the handler does not return. *)
Definition step (st : state) (ev : event) : option state :=
  if exited st then None
  else
    match ev with
    | Data chunk => onData chunk st
    | Key key => if keyListener st then Some (onKeyPress key st) else None
    | FfmpegError enoent => Some (onFfmpegError enoent st)
    | FfmpegClose => Some (onFfmpegClose st)
    | AudioError => Some (onAudioError st)
    | Immediate =>
        match immediates st with
        | 0 => None
        | S n => Some (processNextFrame (set_immediates n st))
        end
    | Timeout =>
        match timers st with
        | [] => None
        | _ :: ts => Some (perform [Resolve] (set_timers ts st))
        end
    end.

Fixpoint run (st : state) (evs : list event) : option state :=
  match evs with
  | [] => Some st
  | ev :: evs' =>
      match step st ev with
      | Some st' => run st' evs'
      | None => None
      end
  end.

End Playback.

(** ** The specification's formulas, over the rationals *)

(** "height: derived as floor(width * 9/16 * 0.55)" *)
Definition spec_height (width : Z) : Z :=
  Qfloor (inject_Z width * (9 # 16) * (55 # 100)).

(** "brightness as the unweighted mean of R,G,B", then
    "floor(brightness/255 * (rampLength-1))" *)
Definition spec_rampIndex (r g b : Z) (rampLength : Z) : Z :=
  Qfloor (inject_Z (r + g + b) / 3 / 255 * inject_Z (rampLength - 1)).

(** * The command-line shell around the playback core

    The settings store and [settingsMenu] (lines 13-23, 407-483), the
    dispatch between the two players ([playVideo], lines 51-82, and the
    terminal check of [playVideoAscii], lines 92-96), the search filter and
    the handling of a selected video in [main] (lines 525-534, 555-601),
    and the file name, the ffmpeg arguments and the progress handler of
    [downloadVideo] (lines 257-323). *)

(** ** The settings store (src/index.js, lines 13-23) *)

(** The keys of [config] with the types the defaults and the prompts of
    [settingsMenu] give them. *)
Record Settings : Type := {
  asciiMode : bool;
  asciiWidth : number;
  asciiCharset : string;
  downloadDir : jsstring;
  downloadQuality : string;
  autoMergeAudio : bool
}.

Definition defaults : Settings :=
  {| asciiMode := false;
     asciiWidth := of_Z 80;
     asciiCharset := "standard";
     downloadDir := lit ".";
     downloadQuality := "original";
     autoMergeAudio := true |}.

(** [Object.keys(CHARSETS)]: the own keys, in insertion order. *)
Definition CHARSETS_keys : list string :=
  ["standard"; "simple"; "blocks"; "solid"].

(** The values of the choices of the quality prompt (lines 469-474). *)
Definition quality_choices : list string :=
  ["original"; "high"; "medium"; "low"].

(** One pass of the loop of [settingsMenu] that does not choose 'back':
    the setting picked and the answer to its prompt.  A list prompt
    answers with the value of one of its choices, given here by its
    position. *)
Inductive answer : Type :=
| ToggleAsciiMode
| EnterWidth (width : number)
| PickCharset (position : nat)
| EnterDir (dir : jsstring)
| PickQuality (position : nat)
| ToggleAutoMergeAudio.

(** The body of the loop (lines 430-481); [None] when a position names no
    choice of the list prompt. *)
Definition settingsMenu_pass (config : Settings) (a : answer)
  : option Settings :=
  match a with
  | ToggleAsciiMode =>
      Some {| asciiMode := negb (asciiMode config);
              asciiWidth := asciiWidth config;
              asciiCharset := asciiCharset config;
              downloadDir := downloadDir config;
              downloadQuality := downloadQuality config;
              autoMergeAudio := autoMergeAudio config |}
  | EnterWidth width =>
      Some {| asciiMode := asciiMode config;
              asciiWidth := width;
              asciiCharset := asciiCharset config;
              downloadDir := downloadDir config;
              downloadQuality := downloadQuality config;
              autoMergeAudio := autoMergeAudio config |}
  | PickCharset position =>
      match CHARSETS_keys !! position with
      | Some charset =>
          Some {| asciiMode := asciiMode config;
                  asciiWidth := asciiWidth config;
                  asciiCharset := charset;
                  downloadDir := downloadDir config;
                  downloadQuality := downloadQuality config;
                  autoMergeAudio := autoMergeAudio config |}
      | None => None
      end
  | EnterDir dir =>
      Some {| asciiMode := asciiMode config;
              asciiWidth := asciiWidth config;
              asciiCharset := asciiCharset config;
              downloadDir := dir;
              downloadQuality := downloadQuality config;
              autoMergeAudio := autoMergeAudio config |}
  | PickQuality position =>
      match quality_choices !! position with
      | Some quality =>
          Some {| asciiMode := asciiMode config;
                  asciiWidth := asciiWidth config;
                  asciiCharset := asciiCharset config;
                  downloadDir := downloadDir config;
                  downloadQuality := quality;
                  autoMergeAudio := autoMergeAudio config |}
      | None => None
      end
  | ToggleAutoMergeAudio =>
      Some {| asciiMode := asciiMode config;
              asciiWidth := asciiWidth config;
              asciiCharset := asciiCharset config;
              downloadDir := downloadDir config;
              downloadQuality := downloadQuality config;
              autoMergeAudio := negb (autoMergeAudio config) |}
  end.

(** [settingsMenu] for the answers given before 'back'. *)
Fixpoint settingsMenu (answers : list answer) (config : Settings)
  : option Settings :=
  match answers with
  | [] => Some config
  | a :: answers' =>
      match settingsMenu_pass config a with
      | Some config' => settingsMenu answers' config'
      | None => None
      end
  end.

(** ** Player dispatch (src/index.js, lines 51-96) *)

Record Host : Type := {
  isWindows : bool;      (* os.platform() === 'win32' *)
  WT_SESSION : bool;     (* process.env.WT_SESSION is truthy *)
  TERM_PROGRAM : bool    (* process.env.TERM_PROGRAM is truthy *)
}.

Inductive launch_effect : Type :=
| LogPlaying                   (* the console.log calls of lines 56-57 *)
| SpawnFfplay (cmd : string)   (* line 61 *)
| NoticeAsciiUnsupported       (* the console.log calls of lines 93-94 *)
| StartAsciiSession.           (* lines 98-253: the session of [init] *)

(** Who holds the [resolve] of the promise a call returns. *)
Inductive settlement : Type :=
| ByPlayer     (* the 'error' and 'close' handlers of ffplay *)
| BySession    (* the teardown paths of the session *)
| Never.       (* nobody: the executor returned at line 95 *)

Section Dispatch.

Variable host : Host.
Variable config : Settings.

(** The terminal check of line 92. *)
Definition ansi_unsupported : bool :=
  isWindows host && negb (WT_SESSION host) && negb (TERM_PROGRAM host).

Definition playerCommand : string :=
  if isWindows host then "ffplay.exe" else "ffplay".

(** The executor of [playVideoAscii] up to line 96, given what the call
    [playVideo(url)] of line 95 does.  The value the executor returns is
    dropped by the promise constructor. *)
Definition playVideoAscii_executor
    (playVideo_url : option (list launch_effect * settlement))
  : option (list launch_effect * settlement) :=
  if ansi_unsupported
  then match playVideo_url with
       | Some (effects, _) => Some (NoticeAsciiUnsupported :: effects, Never)
       | None => None
       end
  else Some ([StartAsciiSession], BySession).

(** [playVideo]: the effects up to the return of the promise and who
    settles it; [None] when the calls nest deeper than [fuel]. *)
Fixpoint playVideo (fuel : nat) : option (list launch_effect * settlement) :=
  match fuel with
  | 0 => None
  | S fuel' =>
      if asciiMode config
      then playVideoAscii_executor (playVideo fuel')
      else Some ([LogPlaying; SpawnFfplay playerCommand], ByPlayer)
  end.

Definition playVideoAscii (fuel : nat)
  : option (list launch_effect * settlement) :=
  playVideoAscii_executor (playVideo fuel).

End Dispatch.

(** ** Search and selection in [main] (src/index.js, lines 525-601) *)

(** A video of the listing.  Its URL fields and the user name are strings
    or absent ([undefined] or [null]); [isLive] is the truthiness of the
    field. *)
Record video : Type := {
  title : jsstring;
  username : option jsstring;   (* v.userId?.username *)
  videoUrl : option jsstring;
  dashUrl : option jsstring;
  audioUrl : option jsstring;
  isLive : bool
}.

(** A string-or-absent field as a value. *)
Definition field_value (o : option jsstring) : value :=
  match o with
  | Some s => VString s
  | None => VUndefined
  end.

(** [a || b] on such fields. *)
Definition field_or (a b : option jsstring) : option jsstring :=
  if truthy (field_value a) then a else b.

(** [s.startsWith(p)] *)
Fixpoint startsWith (s p : jsstring) : bool :=
  match p, s with
  | [], _ => true
  | c :: p', d :: s' => (c =? d)%N && startsWith s' p'
  | _ :: _, [] => false
  end.

(** [s.includes(q)]: [q] occurs in [s] at some position. *)
Fixpoint includes (s q : jsstring) : bool :=
  startsWith s q
  || match s with
     | [] => false
     | _ :: s' => includes s' q
     end.

Section Search.

(** [String.prototype.toLowerCase], on arbitrary strings. *)
Variable toLowerCase : jsstring -> jsstring.

(** The predicate of the filter of lines 526-529. *)
Definition matches_query (lowerQuery : jsstring) (v : video) : bool :=
  includes (toLowerCase (title v)) lowerQuery
  || includes (toLowerCase (default [] (field_or (username v) (Some []))))
              lowerQuery.

(** [filteredVideos] for a search. *)
Definition search (query : jsstring) (videos : list video) : list video :=
  let lowerQuery := toLowerCase query in
  List.filter (matches_query lowerQuery) videos.

End Search.

Inductive videoAction : Type := ActionPlay | ActionDownload | ActionBack.

(** What [main] does with a selected video. *)
Inductive selection_outcome : Type :=
| NoVideoUrl                   (* line 563 *)
| BackToMenu                   (* line 582 *)
| CannotDownloadLive           (* line 587 *)
| CallDownloadVideo (videoUrl audioUrl : option jsstring) (title : jsstring)
| CallPlayVideo (url : option jsstring).

(** src/index.js, lines 559-601. *)
Definition handle_selection (v : video) (a : videoAction)
  : selection_outcome :=
  let playUrl := field_or (videoUrl v) (dashUrl v) in
  if negb (truthy (field_value playUrl)) then NoVideoUrl
  else
    match a with
    | ActionBack => BackToMenu
    | ActionDownload =>
        if isLive v then CannotDownloadLive
        else CallDownloadVideo (field_or (videoUrl v) (dashUrl v))
                               (field_or (audioUrl v) None)
                               (title v)
    | ActionPlay => CallPlayVideo playUrl
    end.

(** ** [downloadVideo] (src/index.js, lines 257-323) *)

(** The class [[a-z0-9]] under the [i] flag: ASCII letters and digits
    (case folding never maps a code unit above 127 to one below). *)
Definition is_alnum (c : char) : bool :=
  ((97 <=? c) && (c <=? 122) || (65 <=? c) && (c <=? 90)
   || (48 <=? c) && (c <=? 57))%N.

Definition underscore : char := 95%N.

(** [title.replace(/[^a-z0-9]/gi, '_')]: every code unit outside the
    class is replaced. *)
Definition replace_non_alnum (s : jsstring) : jsstring :=
  map (fun c => if is_alnum c then c else underscore) s.

(** [toLowerCase] on a code unit below 128. *)
Definition lower_ascii (c : char) : char :=
  if ((65 <=? c) && (c <=? 90))%N then (c + 32)%N else c.

(** [toLowerCase] on a string of code units below 128, which is what
    [replace_non_alnum] returns. *)
Definition toLowerCase_ascii (s : jsstring) : jsstring := map lower_ascii s.

Definition sanitizedTitle (title : jsstring) : jsstring :=
  toLowerCase_ascii (replace_non_alnum title).

Definition filename (title : jsstring) : jsstring :=
  sanitizedTitle title ++ lit ".mp4".

(** The test of line 278. *)
Definition merges_audio (config : Settings)
    (videoUrl audioUrl : option jsstring) : bool :=
  truthy (field_value audioUrl)
  && negb (bool_decide (audioUrl = videoUrl))
  && autoMergeAudio config.

(** The encoding options of lines 289-297. *)
Definition quality_options (quality : string) : list string :=
  if String.eqb quality "original" then ["-c"; "copy"]
  else if String.eqb quality "high"
  then ["-c:v"; "libx264"; "-crf"; "18"; "-c:a"; "aac"; "-b:a"; "192k"]
  else if String.eqb quality "medium"
  then ["-c:v"; "libx264"; "-crf"; "23"; "-c:a"; "aac"; "-b:a"; "128k"]
  else if String.eqb quality "low"
  then ["-c:v"; "libx264"; "-crf"; "28"; "-c:a"; "aac"; "-b:a"; "96k"]
  else [].

(** [args] as passed to [spawn] at line 301. *)
Definition merge_args (config : Settings) (videoUrl audioUrl : jsstring)
    (downloadPath : jsstring) : list jsstring :=
  [lit "-i"; videoUrl; lit "-i"; audioUrl]
  ++ map lit (quality_options (downloadQuality config))
  ++ [lit "-y"; downloadPath].

(** *** The progress handler (lines 305-323) *)

Definition is_digit (c : char) : bool := ((48 <=? c) && (c <=? 57))%N.

(** The longest run of digits at the head of a string, and the rest:
    a greedy [\d*]. *)
Fixpoint span_digits (s : jsstring) : jsstring * jsstring :=
  match s with
  | c :: s' =>
      if is_digit c
      then let (ds, rest) := span_digits s' in (c :: ds, rest)
      else ([], s)
  | [] => ([], [])
  end.

(** [\d+] followed by something that is not a digit: the greedy run is
    the only one that lets the rest of the pattern match. *)
Definition digits1 (s : jsstring) : option (jsstring * jsstring) :=
  match span_digits s with
  | ([], _) => None
  | (ds, rest) => Some (ds, rest)
  end.

Definition strip_prefix (p s : jsstring) : option jsstring :=
  if startsWith s p then Some (drop (length p) s) else None.

(** [/time=(\d+):(\d+):(\d+)/] anchored at the head of [s]: the three
    captures. *)
Definition match_time_here (s : jsstring)
  : option (jsstring * jsstring * jsstring) :=
  match strip_prefix (lit "time=") s with
  | Some s1 =>
      match digits1 s1 with
      | Some (h, s2) =>
          match strip_prefix (lit ":") s2 with
          | Some s3 =>
              match digits1 s3 with
              | Some (m, s4) =>
                  match strip_prefix (lit ":") s4 with
                  | Some s5 =>
                      match digits1 s5 with
                      | Some (sec, _) => Some (h, m, sec)
                      | None => None
                      end
                  | None => None
                  end
              | None => None
              end
          | None => None
          end
      | None => None
      end
  | None => None
  end.

(** [output.match(/time=(\d+):(\d+):(\d+)/)]: the leftmost match. *)
Fixpoint match_time (output : jsstring)
  : option (jsstring * jsstring * jsstring) :=
  match match_time_here output with
  | Some captures => Some captures
  | None =>
      match output with
      | [] => None
      | _ :: output' => match_time output'
      end
  end.

(** The integer a run of decimal digits writes. *)
Definition digits_value (ds : jsstring) : Z :=
  foldl (fun acc c => (10 * acc + (Z.of_N c - 48))%Z) 0%Z ds.

(** [parseInt] on a run of decimal digits: the double nearest to the
    integer. *)
Definition parseInt (ds : jsstring) : number := of_Z (digits_value ds).

(** [a > b] *)
Definition number_gt (a b : number) : bool := SFltb b a.

(** [lastProgress], and the values of [totalSeconds] for which
    [spinner.text] was set, oldest first. *)
Record progress_state : Type := {
  lastProgress : number;
  reported : list number
}.

Definition progress_init : progress_state :=
  {| lastProgress := of_Z 0; reported := [] |}.

(** The [ffmpeg.stderr] 'data' handler, on the decoded chunk. *)
Definition onStderr (st : progress_state) (output : jsstring)
  : progress_state :=
  match match_time output with
  | Some (h, m, sec) =>
      let hours := parseInt h in
      let minutes := parseInt m in
      let seconds := parseInt sec in
      let totalSeconds :=
        add (add (mul hours (of_Z 3600)) (mul minutes (of_Z 60))) seconds in
      if number_gt totalSeconds (add (lastProgress st) (of_Z 5))
      then {| lastProgress := totalSeconds;
              reported := reported st ++ [totalSeconds] |}
      else st
  | None => st
  end.

(** * Vocabulary of the statements *)

(** Decidable equality, for the exhaustive checks and for counting effects
    in a log. *)
#[local] Instance number_eq_dec : EqDecision number.
Proof. solve_decision. Defined.

#[local] Instance proc_eq_dec : EqDecision proc.
Proof. solve_decision. Defined.

#[local] Instance effect_eq_dec : EqDecision effect.
Proof. solve_decision. Defined.

(** A byte as a natural number below 256. *)
Definition byte_nat (b : Byte.byte) : nat := N.to_nat (Byte.to_N b).

(** A natural number as a double. *)
Definition nz (n : nat) : number := of_Z (Z.of_nat n).

(** [charIndex] for a ramp of [len] characters and a pixel whose bytes
    add up to [s]. *)
Definition index_of_sum (len s : nat) : number :=
  Math_floor (mul (div (div (nz s) (of_Z 3)) (of_Z 255))
                  (sub (nz len) (of_Z 1))).

(** The index the double computation yields, tabulated against the
    rational formula: they differ at one point only. *)
Definition expected_index (len s : nat) : Z :=
  if (len =? 10) && (s =? 425) then 4%Z
  else spec_rampIndex (Z.of_nat s) 0 0 (Z.of_nat len).

(** [expected_index] is what [index_of_sum] yields, for every byte sum. *)
Definition check_index (len : nat) : bool :=
  forallb (fun s =>
    bool_decide (to_Z (index_of_sum len s) = Some (expected_index len s)))
    (seq 0 766).

(** The tabulated index stays within the ramp, never decreases, starts at
    0 and ends at [len - 1]. *)
Definition check_bounds_mono (len : nat) : bool :=
  forallb (fun s =>
    (0 <=? expected_index len s)%Z
    && (expected_index len s <? Z.of_nat len)%Z
    && (expected_index len s <=? expected_index len (S s))%Z)
    (seq 0 765)
  && (expected_index len 0 =? 0)%Z
  && (expected_index len 765 =? Z.of_nat len - 1)%Z.

(** The blob in the words of the specification, code unit by code unit.
    A colour component in decimal, without leading zeros. *)
Definition spec_digits (n : nat) : jsstring :=
  (if 100 <=? n then [N.of_nat (48 + n / 100)] else [])
  ++ (if 10 <=? n then [N.of_nat (48 + n / 10 mod 10)] else [])
  ++ [N.of_nat (48 + n mod 10)].

(** ESC[38;2;R;G;Bm followed by the glyph of the ramp that the pixel
    selects. *)
Definition spec_cell (ramp : jsstring) (r g b : nat) : jsstring :=
  [27; 91; 51; 56; 59; 50; 59]%N
  ++ spec_digits r ++ [59%N] ++ spec_digits g ++ [59%N] ++ spec_digits b
  ++ [109%N]
  ++ [nth (Z.to_nat (expected_index (length ramp) (r + g + b))) ramp 0%N].

(** ESC[H, then row by row the cells of the pixels and a line feed, then
    ESC[0m; the pixel in row [y] and column [x] has its three bytes at
    offset [(y * w + x) * 3] of the frame. *)
Definition spec_blob (w h : nat) (ramp : jsstring) (f : frame) : jsstring :=
  [27; 91; 72]%N
  ++ concat (map (fun y =>
       concat (map (fun x =>
         let component k := byte_nat (nth ((y * w + x) * 3 + k) f Byte.x00) in
         spec_cell ramp (component 0) (component 1) (component 2))
         (seq 0 w))
       ++ [10%N]) (seq 0 h))
  ++ [27; 91; 48; 109]%N.

(** One row of the blob: the cells of its pixels and the newline. *)
Definition row_cells (cfg : RenderConfig) (f : frame) (y : nat) : jsstring :=
  concat (map (render_pixel cfg f y) (seq 0 (width cfg))) ++ [LF].

(** What [renderFrame] performs before the blob. *)
Definition first_frame_effects (st : state) : list effect :=
  if firstFrame st then [ConsoleClear; StdoutWrite cursor_hide] else [].

(** What [processNextFrame] performs after the blob. *)
Definition reschedule (rest : list frame) : list effect :=
  if 0 <? length rest then [SetImmediate] else [].

(** What the first [cleanup] call performs. *)
Definition teardown_effects (isTTY : bool) (st : state) : list effect :=
  (if isTTY then [SetRawMode false; StdinPause] else [])
  ++ [RemoveKeyListener]
  ++ (if ffmpegKilled st then [] else [Kill Ffmpeg])
  ++ (if audioKilled st then [] else [Kill AudioPlayer])
  ++ [StdoutWrite cursor_show; ConsoleClear].

(** Projections of the effect log. *)
Definition is_hide (e : effect) : bool :=
  match e with
  | StdoutWrite s => bool_decide (s = cursor_hide)
  | _ => false
  end.

Definition is_clear (e : effect) : bool :=
  match e with
  | ConsoleClear => true
  | _ => false
  end.

(** The effects only [cleanup] performs. *)
Definition is_teardown (e : effect) : bool :=
  match e with
  | SetRawMode false | StdinPause | RemoveKeyListener | Kill _ => true
  | StdoutWrite s => bool_decide (s = cursor_show)
  | _ => false
  end.

(** The teardown effects of a session, in the order [cleanup] performs
    them. *)
Definition teardown_sequence (isTTY : bool) : list effect :=
  (if isTTY then [SetRawMode false; StdinPause] else [])
  ++ [RemoveKeyListener; Kill Ffmpeg; Kill AudioPlayer;
      StdoutWrite cursor_show].

(** The bytes an event delivers. *)
Definition data_of (ev : event) : list Byte.byte :=
  match ev with
  | Data chunk => chunk
  | _ => []
  end.

(** The bytes the decoder has delivered over a trace. *)
Definition stream (evs : list event) : list Byte.byte :=
  concat (map data_of evs).

(** The [i]-th frame-sized slice of a byte stream. *)
Definition slice (size : nat) (total : list Byte.byte) (i : nat) : frame :=
  take size (drop (i * size) total).

(** The assembler's result for a byte stream [total]: its full slices
    pushed in order, the rest retained. *)
Definition sliced (size : nat) (total : list Byte.byte) (st : state) : Prop :=
  let n := length total / size in
  emitted st = map (slice size total) (seq 0 n)
  /\ Forall (fun f => length f = size) (emitted st)
  /\ length (emitted st) = n
  /\ buffer st = drop (n * size) total
  /\ length (buffer st) = length total mod size
  /\ (length total mod size = 0 -> buffer st = []).

(** What holds between callbacks, relative to the bytes delivered so far. *)
Record core_inv (cfg : RenderConfig) (isTTY : bool)
    (total : list Byte.byte) (st : state) : Prop := {
  ci_stream : concat (emitted st) ++ buffer st = total;
  ci_sized : Forall (fun f => length f = frameSize cfg) (emitted st);
  ci_bound : length (frameQueue st) <= 30;
  ci_fifo : frameQueue st `suffix_of` emitted st;
  ci_idle : isProcessing st = false;
  ci_ffmpeg : ffmpegKilled st = cleanedUp st;
  ci_audio : audioKilled st = cleanedUp st;
  ci_listener : keyListener st = isTTY && negb (cleanedUp st);
  ci_teardown : List.filter is_teardown (log st)
                = if cleanedUp st then teardown_sequence isTTY else [];
  ci_hide : length (List.filter is_hide (log st))
            = if firstFrame st then 0 else 1;
  ci_first : firstFrame st = (frameCount st =? 0);
  ci_clear : length (List.filter is_clear (log st))
             = (if firstFrame st then 0 else 1)
               + (if cleanedUp st then 1 else 0)
}.

(** In addition less than one frame stays buffered. *)
Definition session_inv (cfg : RenderConfig) (isTTY : bool)
    (total : list Byte.byte) (st : state) : Prop :=
  core_inv cfg isTTY total st
  /\ (0 < frameSize cfg -> length (buffer st) < frameSize cfg).

(** Effects that are neither renderer set-up nor teardown. *)
Definition neutral (e : effect) : bool :=
  negb (is_hide e || is_clear e || is_teardown e).

(** A small configuration used to run the definitions: four columns and
    the one row [derive_height] gives them, twelve bytes per frame. *)
Definition cfg4 : RenderConfig :=
  {| width := 4; height := 1; chars := select_chars "standard" |}.

Definition black4 : frame := replicate 12 Byte.x00.

(** Four pixels: (1,20,255), black, (141,142,142) and white. *)
Definition mixed4 : frame :=
  [Byte.x01; Byte.x14; Byte.xff; Byte.x00; Byte.x00; Byte.x00;
   Byte.x8d; Byte.x8e; Byte.x8e; Byte.xff; Byte.xff; Byte.xff].
Definition white4 : frame := replicate 12 Byte.xff.

(** The frames written to the terminal: the arguments of
    [process.stdout.write] other than the two cursor escapes, oldest
    first. *)
Fixpoint blob_writes (l : list effect) : list jsstring :=
  match l with
  | [] => []
  | StdoutWrite s :: l' =>
      if bool_decide (s = cursor_hide) || bool_decide (s = cursor_show)
      then blob_writes l'
      else s :: blob_writes l'
  | _ :: l' => blob_writes l'
  end.

(** The bytes a session retains between callbacks. *)
Definition retained (st : state) : nat :=
  length (buffer st) + length (concat (frameQueue st)).

(** Every [resolve()] in a log comes after the cursor has been shown
    again. *)
Definition resolves_after_show (l : list effect) : Prop :=
  forall l1 l2 : list effect,
    l = l1 ++ Resolve :: l2 -> In (StdoutWrite cursor_show) l1.

(** The code units of a sanitised title: lower-case ASCII letters,
    digits and the underscore. *)
Definition is_filename_char (c : char) : bool :=
  ((97 <=? c) && (c <=? 122) || (48 <=? c) && (c <=? 57) || (c =? 95))%N.

(** A small listing used to run the search. *)
Definition sample_videos : list video :=
  [ {| title := lit "Cat Video"; username := Some (lit "Alice");
       videoUrl := Some (lit "https://v/1.mp4"); dashUrl := None;
       audioUrl := None; isLive := false |};
    {| title := lit "Dog"; username := None;
       videoUrl := None; dashUrl := Some (lit "https://v/2.mpd");
       audioUrl := Some (lit "https://v/2.m4a"); isLive := true |} ].

(** Windows outside Windows Terminal, and the default settings with
    ASCII mode switched on. *)
Definition windows_console : Host :=
  {| isWindows := true; WT_SESSION := false; TERM_PROGRAM := false |}.

Definition ascii_settings : Settings :=
  {| asciiMode := true;
     asciiWidth := asciiWidth defaults;
     asciiCharset := asciiCharset defaults;
     downloadDir := downloadDir defaults;
     downloadQuality := downloadQuality defaults;
     autoMergeAudio := autoMergeAudio defaults |}.

(** What sanitising does to one code unit, as a check that can be run. *)
Definition sanitize_char_ok (c : char) : bool :=
  let x := if is_alnum c then c else underscore in
  let d := lower_ascii x in
  (is_filename_char d
   && (x <? 128) && (lower_ascii (if is_alnum d then d else underscore) =? d)
   && negb (d =? 46) && negb (d =? 47) && negb (d =? 92))%N.

(** Each value exceeds the one before it, and the first exceeds [prev],
    by more than five. *)
Fixpoint spaced (prev : Z) (l : list Z) : Prop :=
  match l with
  | [] => True
  | t :: l' => (prev + 5 < t)%Z /\ spaced t l'
  end.

(** The time stamp of a chunk, if it has one, has fields below 10^9. *)
Definition fields_small (output : jsstring) : bool :=
  match match_time output with
  | Some (h, m, sec) =>
      (digits_value h <? 1000000000)%Z && (digits_value m <? 1000000000)%Z
      && (digits_value sec <? 1000000000)%Z
  | None => true
  end.

(** * Verification *)

(** ** Binary64 arithmetic on integers *)

Section Binary64.

Local Open Scope Z_scope.

(** The number of binary digits of a positive mantissa. *)
Lemma digits_bounds (p : positive) :
  2 ^ (Zpos (digits2_pos p) - 1) <= Zpos p < 2 ^ Zpos (digits2_pos p).
Proof.
  induction p as [p IH | p IH |]; cbn [digits2_pos].
  - rewrite Pos2Z.inj_succ.
    replace (Z.succ (Zpos (digits2_pos p)) - 1) with (Z.succ (Zpos (digits2_pos p) - 1)) by lia.
    rewrite !Z.pow_succ_r by lia. lia.
  - rewrite Pos2Z.inj_succ.
    replace (Z.succ (Zpos (digits2_pos p)) - 1) with (Z.succ (Zpos (digits2_pos p) - 1)) by lia.
    rewrite !Z.pow_succ_r by lia. lia.
  - simpl. lia.
Qed.

Lemma digits_unique (p : positive) (d : Z) :
  2 ^ (d - 1) <= Zpos p < 2 ^ d -> Zpos (digits2_pos p) = d.
Proof.
  intros [Hlo Hhi]. pose proof (digits_bounds p) as [Hlo' Hhi'].
  assert (0 < d).
  { destruct (Z.lt_ge_cases 0 d) as [|Hd]; [assumption |].
    assert (2 ^ d <= 2 ^ 0) by (apply Z.pow_le_mono_r; lia).
    simpl in *. lia. }
  destruct (Z.lt_trichotomy (Zpos (digits2_pos p)) d) as [Hlt | [Heq | Hgt]];
    [| assumption |].
  - assert (2 ^ Zpos (digits2_pos p) <= 2 ^ (d - 1))
      by (apply Z.pow_le_mono_r; lia).
    lia.
  - assert (2 ^ d <= 2 ^ (Zpos (digits2_pos p) - 1))
      by (apply Z.pow_le_mono_r; lia).
    lia.
Qed.

Lemma digits_shift (p q : positive) (k : Z) :
  0 <= k -> Zpos q = Zpos p * 2 ^ k ->
  Zpos (digits2_pos q) = Zpos (digits2_pos p) + k.
Proof.
  intros Hk Hq. apply digits_unique. rewrite Hq.
  pose proof (digits_bounds p) as [Hlo Hhi].
  replace (Zpos (digits2_pos p) + k - 1) with (Zpos (digits2_pos p) - 1 + k) by lia.
  rewrite !Z.pow_add_r by lia.
  assert (0 < 2 ^ k) by (apply Z.pow_pos_nonneg; lia).
  split; nia.
Qed.

(** *** Right shifts *)

Lemma pow2_xO (n : positive) : 2 ^ Zpos n~0 = 2 ^ Zpos n * 2 ^ Zpos n.
Proof. rewrite Pos2Z.inj_xO, <- Z.pow_add_r by lia. f_equal. lia. Qed.

Lemma pow2_xI (n : positive) : 2 ^ Zpos n~1 = 2 * (2 ^ Zpos n * 2 ^ Zpos n).
Proof.
  rewrite Pos2Z.inj_xI, Z.pow_add_r, Z.pow_1_r by lia.
  rewrite <- Pos2Z.inj_xO, pow2_xO. ring.
Qed.

Lemma shr_1_m (r : shr_record) :
  0 <= shr_m r -> shr_m (shr_1 r) = shr_m r / 2 /\ 0 <= shr_m (shr_1 r).
Proof.
  destruct r as [m b s]. cbn [shr_m]. intros Hm.
  destruct m as [| p | p]; [simpl; auto with zarith | | lia].
  destruct p as [p | p |]; cbn [shr_1 shr_m].
  - rewrite Pos2Z.inj_xI. split; [apply Z.div_unique with 1; lia | lia].
  - rewrite Pos2Z.inj_xO. split; [apply Z.div_unique with 0; lia | lia].
  - split; [reflexivity | lia].
Qed.

Lemma iter_shr_1_m (n : positive) : forall r : shr_record,
  0 <= shr_m r ->
  shr_m (SpecFloat.iter_pos shr_1 n r) = shr_m r / 2 ^ Zpos n
  /\ 0 <= shr_m (SpecFloat.iter_pos shr_1 n r).
Proof.
  induction n as [n IH | n IH |]; intros r Hr; cbn [SpecFloat.iter_pos].
  - destruct (shr_1_m r Hr) as [E1 P1].
    destruct (IH _ P1) as [E2 P2]. destruct (IH _ P2) as [E3 P3].
    split; [| assumption].
    rewrite E3, E2, E1, !Z.div_div by (try apply Z.pow_pos_nonneg; lia).
    f_equal. rewrite pow2_xI. ring.
  - destruct (IH _ Hr) as [E2 P2]. destruct (IH _ P2) as [E3 P3].
    split; [| assumption].
    rewrite E3, E2, !Z.div_div by (try apply Z.pow_pos_nonneg; lia).
    f_equal. now rewrite pow2_xO.
  - destruct (shr_1_m r Hr) as [E1 P1]. split; [| assumption].
    now rewrite E1.
Qed.

Lemma shr_1_exact (m : Z) :
  0 <= m ->
  shr_1 (Build_shr_record (2 * m) false false) = Build_shr_record m false false.
Proof.
  intros Hm. destruct m as [| p | p]; [reflexivity | reflexivity | lia].
Qed.

Lemma iter_shr_1_exact (n : positive) : forall m : Z,
  0 <= m ->
  SpecFloat.iter_pos shr_1 n (Build_shr_record (m * 2 ^ Zpos n) false false)
  = Build_shr_record m false false.
Proof.
  induction n as [n IH | n IH |]; intros m Hm; cbn [SpecFloat.iter_pos].
  - replace (m * 2 ^ Zpos n~1) with (2 * ((m * 2 ^ Zpos n) * 2 ^ Zpos n)).
    + assert (0 <= 2 ^ Zpos n) by (apply Z.pow_nonneg; lia).
      rewrite shr_1_exact by nia. rewrite IH by nia. now apply IH.
    + rewrite pow2_xI. ring.
  - replace (m * 2 ^ Zpos n~0) with ((m * 2 ^ Zpos n) * 2 ^ Zpos n).
    + assert (0 <= 2 ^ Zpos n) by (apply Z.pow_nonneg; lia).
      rewrite IH by nia. now apply IH.
    + rewrite pow2_xO. ring.
  - replace (m * 2 ^ 1) with (2 * m) by (simpl; lia). now apply shr_1_exact.
Qed.

Lemma iter_xO (p n : positive) :
  Zpos (Pos.iter xO p n) = Zpos p * 2 ^ Zpos n.
Proof.
  induction n as [| n IH] using Pos.peano_ind.
  - simpl. lia.
  - rewrite Pos.iter_succ, Pos2Z.inj_xO, IH, Pos2Z.inj_succ, Z.pow_succ_r by lia.
    ring.
Qed.

(** *** Rounding a mantissa that needs no rounding *)

(** A mantissa [M = m * 2^k] whose odd part [m] fits in 53 bits and that
    has at least 53 bits itself is brought to 53 bits without loss. *)
Lemma shr_fexp_exact (m M : positive) (k e : Z) :
  0 <= k -> Zpos M = Zpos m * 2 ^ k ->
  Zpos (digits2_pos m) <= 53 -> 53 <= Zpos (digits2_pos m) + k ->
  -1074 <= e + (Zpos (digits2_pos m) + k - 53) ->
  exists m' : positive,
    Zpos m' = Zpos m * 2 ^ (53 - Zpos (digits2_pos m))
    /\ shr_fexp prec emax (Zpos M) e loc_Exact
       = (Build_shr_record (Zpos m') false false,
          e + (Zpos (digits2_pos m) + k - 53)).
Proof.
  intros Hk HM Hd Hdk He.
  set (d := Zpos (digits2_pos m)) in *.
  unfold shr_fexp. cbn [shr_record_of_loc Zdigits2].
  rewrite (digits_shift m M k Hk HM). fold d.
  unfold fexp, emin, prec, emax.
  rewrite Z.max_l by lia.
  replace (d + k + e - 53 - e) with (d + k - 53) by lia.
  destruct (d + k - 53) as [| n | n] eqn:En; [| | lia].
  - exists M. split; [| cbn [shr]; f_equal; lia].
    rewrite HM. f_equal. f_equal. lia.
  - assert (Hpos : 0 < Zpos m * 2 ^ (53 - d)).
    { apply Z.mul_pos_pos; [lia | apply Z.pow_pos_nonneg; lia]. }
    exists (Z.to_pos (Zpos m * 2 ^ (53 - d))).
    rewrite Z2Pos.id by assumption. split; [reflexivity |].
    cbn [shr]. f_equal.
    replace (Zpos M) with ((Zpos m * 2 ^ (53 - d)) * 2 ^ Zpos n).
    + apply iter_shr_1_exact. lia.
    + rewrite HM, <- Z.mul_assoc, <- Z.pow_add_r by lia. do 2 f_equal. lia.
Qed.

Lemma binary_round_aux_exact (m M : positive) (k e : Z) :
  0 <= k -> Zpos M = Zpos m * 2 ^ k ->
  Zpos (digits2_pos m) <= 53 -> 53 <= Zpos (digits2_pos m) + k ->
  -1074 <= e + (Zpos (digits2_pos m) + k - 53) <= 971 ->
  exists m' : positive,
    Zpos m' = Zpos m * 2 ^ (53 - Zpos (digits2_pos m))
    /\ binary_round_aux prec emax false (Zpos M) e loc_Exact
       = S754_finite false m' (e + (Zpos (digits2_pos m) + k - 53)).
Proof.
  intros Hk HM Hd Hdk He.
  destruct (shr_fexp_exact m M k e Hk HM Hd Hdk (proj1 He)) as (m' & Hm' & E1).
  set (d := Zpos (digits2_pos m)) in *.
  assert (Hd' : Zpos (digits2_pos m') = 53).
  { rewrite (digits_shift m m' (53 - d)) by (fold d; lia). fold d. lia. }
  destruct (shr_fexp_exact m' m' 0 (e + (d + k - 53))
              ltac:(lia) ltac:(rewrite Z.pow_0_r; lia) ltac:(rewrite Hd'; lia)
              ltac:(rewrite Hd'; lia) ltac:(rewrite Hd'; lia))
    as (m'' & Hm'' & E2).
  rewrite Hd' in Hm'', E2.
  exists m'. split; [exact Hm' |].
  unfold binary_round_aux. rewrite E1.
  cbn [shr_m loc_of_shr_record round_nearest_even].
  rewrite E2. cbn [shr_m].
  assert (m'' = m') as -> by (rewrite Z.pow_0_r in Hm''; lia).
  replace (e + (d + k - 53) + (53 + 0 - 53)) with (e + (d + k - 53)) by lia.
  unfold emax, prec.
  destruct (Z.leb_spec (e + (d + k - 53)) (1024 - 53)); [reflexivity | lia].
Qed.

(** *** Integers as doubles *)

Lemma digits_le_53 (p : positive) :
  Zpos p < 2 ^ 53 -> Zpos (digits2_pos p) <= 53.
Proof.
  intros Hp. pose proof (digits_bounds p) as [Hlo _].
  destruct (Z.le_gt_cases (Zpos (digits2_pos p)) 53) as [| Hgt]; [assumption |].
  assert (2 ^ 53 <= 2 ^ (Zpos (digits2_pos p) - 1))
    by (apply Z.pow_le_mono_r; lia).
  lia.
Qed.

Lemma of_Z_pos (p : positive) :
  Zpos p < 2 ^ 53 ->
  exists m' : positive,
    Zpos m' = Zpos p * 2 ^ (53 - Zpos (digits2_pos p))
    /\ of_Z (Zpos p) = S754_finite false m' (Zpos (digits2_pos p) - 53).
Proof.
  intros Hp. pose proof (digits_le_53 p Hp) as Hd.
  set (d := Zpos (digits2_pos p)) in *.
  assert (0 < d) by (subst d; lia).
  unfold of_Z, binary_normalize, binary_round.
  fold d. unfold fexp, emin, prec, emax.
  rewrite Z.max_l by lia.
  unfold shl_align.
  destruct (d + 0 - 53 - 0) as [| n | n] eqn:En; [| lia |].
  - destruct (binary_round_aux_exact p p 0 0
                ltac:(lia) ltac:(rewrite Z.pow_0_r; lia) ltac:(fold d; lia)
                ltac:(fold d; lia) ltac:(fold d; lia)) as (m' & Hm' & E).
    fold d in Hm', E.
    exists m'. split; [exact Hm' |].
    unfold prec, emax in E. rewrite E. f_equal; lia.
  - destruct (binary_round_aux_exact p (Pos.iter xO p n) (Zpos n) (d + 0 - 53)
                ltac:(lia) (iter_xO p n) ltac:(fold d; lia)
                ltac:(fold d; lia) ltac:(fold d; lia)) as (m' & Hm' & E).
    fold d in Hm', E.
    exists m'. split; [exact Hm' |].
    unfold prec, emax in E. rewrite E. f_equal; lia.
Qed.

Lemma of_Z_0 : of_Z 0 = S754_zero false.
Proof. reflexivity. Qed.

Lemma digits_mul_ge (a b : positive) :
  Zpos (digits2_pos a) + Zpos (digits2_pos b) - 1
  <= Zpos (digits2_pos (a * b)).
Proof.
  pose proof (digits_bounds a) as [Ha _].
  pose proof (digits_bounds b) as [Hb _].
  pose proof (digits_bounds (a * b)) as [_ Hab].
  set (da := Zpos (digits2_pos a)) in *. set (db := Zpos (digits2_pos b)) in *.
  set (dab := Zpos (digits2_pos (a * b))) in *.
  assert (0 < da) by (subst da; lia). assert (0 < db) by (subst db; lia).
  destruct (Z.le_gt_cases (da + db - 1) dab) as [| Hgt]; [assumption |].
  assert (2 ^ dab <= 2 ^ (da + db - 2)) by (apply Z.pow_le_mono_r; lia).
  replace (da + db - 2) with ((da - 1) + (db - 1)) in * by lia.
  rewrite Z.pow_add_r in * by lia.
  rewrite Pos2Z.inj_mul in Hab.
  nia.
Qed.

(** Products of non-negative integers below 2^53 are exact. *)
Lemma mul_of_Z (a b : Z) :
  0 <= a < 2 ^ 53 -> 0 <= b < 2 ^ 53 -> a * b < 2 ^ 53 ->
  mul (of_Z a) (of_Z b) = of_Z (a * b).
Proof.
  intros [Ha Ha53] [Hb Hb53] Hab.
  destruct a as [| a | a]; [| | lia].
  { rewrite of_Z_0. destruct b as [| b | b]; [reflexivity | | lia].
    destruct (of_Z_pos b Hb53) as (mb & Hmb & ->). reflexivity. }
  destruct b as [| b | b]; [| | lia].
  { rewrite Z.mul_0_r, of_Z_0.
    destruct (of_Z_pos a Ha53) as (ma & Hma & ->). reflexivity. }
  destruct (of_Z_pos a Ha53) as (ma & Hma & ->).
  destruct (of_Z_pos b Hb53) as (mb & Hmb & ->).
  rewrite <- Pos2Z.inj_mul in *.
  destruct (of_Z_pos (a * b) Hab) as (mab & Hmab & ->).
  pose proof (digits_le_53 a Ha53). pose proof (digits_le_53 b Hb53).
  pose proof (digits_le_53 (a * b) Hab). pose proof (digits_mul_ge a b).
  set (da := Zpos (digits2_pos a)) in *. set (db := Zpos (digits2_pos b)) in *.
  set (dab := Zpos (digits2_pos (a * b))) in *.
  assert (0 < da) by (subst da; lia). assert (0 < db) by (subst db; lia).
  unfold mul. cbn [SFmul xorb].
  assert (HM : Zpos (ma * mb) = Zpos (a * b) * 2 ^ (106 - da - db)).
  { rewrite !Pos2Z.inj_mul, Hma, Hmb.
    replace (106 - da - db) with ((53 - da) + (53 - db)) by lia.
    rewrite Z.pow_add_r by lia. ring. }
  destruct (binary_round_aux_exact (a * b) (ma * mb) (106 - da - db)
              (da - 53 + (db - 53))
              ltac:(lia) HM ltac:(fold dab; lia) ltac:(fold dab; lia)
              ltac:(fold dab; lia)) as (m' & Hm' & E).
  fold dab in Hm', E. rewrite E. f_equal; lia.
Qed.

Lemma shl_align_fst (m : positive) (e e' : Z) :
  e' <= e -> Zpos (fst (shl_align m e e')) = Zpos m * 2 ^ (e - e').
Proof.
  intros Hle. unfold shl_align.
  destruct (e' - e) as [| n | n] eqn:En; [| lia |]; cbn [fst].
  - replace (e - e') with 0 by lia. rewrite Z.pow_0_r. lia.
  - rewrite iter_xO. do 2 f_equal. lia.
Qed.

(** Normalizing [m * 2^k] at exponent [-k] gives the double of [m]. *)
Lemma binary_normalize_rescaled (m M : positive) (k : Z) :
  0 <= k <= 1000 -> Zpos M = Zpos m * 2 ^ k -> Zpos m < 2 ^ 53 ->
  binary_normalize prec emax (Zpos M) (- k) false = of_Z (Zpos m).
Proof.
  intros Hk HM Hm. pose proof (digits_le_53 m Hm) as Hd.
  destruct (of_Z_pos m Hm) as (m1 & Hm1 & ->).
  pose proof (digits_shift m M k (proj1 Hk) HM) as HdM.
  set (d := Zpos (digits2_pos m)) in *.
  assert (0 < d) by (subst d; lia).
  cbn [binary_normalize]. unfold binary_round. rewrite HdM.
  unfold fexp, emin, prec, emax. rewrite Z.max_l by lia.
  unfold shl_align.
  destruct (d + k + - k - 53 - - k) as [| n | n] eqn:En.
  - destruct (binary_round_aux_exact m M k (- k)
                (proj1 Hk) HM ltac:(fold d; lia) ltac:(fold d; lia)
                ltac:(fold d; lia)) as (m' & Hm' & E).
    fold d in Hm', E. unfold prec, emax in E. rewrite E.
    f_equal; lia.
  - destruct (binary_round_aux_exact m M k (- k)
                (proj1 Hk) HM ltac:(fold d; lia) ltac:(fold d; lia)
                ltac:(fold d; lia)) as (m' & Hm' & E).
    fold d in Hm', E. unfold prec, emax in E. rewrite E.
    f_equal; lia.
  - assert (HM' : Zpos (Pos.iter xO M n) = Zpos m * 2 ^ (k + Zpos n)).
    { rewrite iter_xO, HM, Z.pow_add_r by lia. ring. }
    destruct (binary_round_aux_exact m (Pos.iter xO M n) (k + Zpos n)
                (d + k + - k - 53)
                ltac:(lia) HM' ltac:(fold d; lia) ltac:(fold d; lia)
                ltac:(fold d; lia)) as (m' & Hm' & E).
    fold d in Hm', E. unfold prec, emax in E. rewrite E.
    f_equal; lia.
Qed.

(** Sums of non-negative integers below 2^53 are exact. *)
Lemma add_of_Z (a b : Z) :
  0 <= a -> 0 <= b -> a + b < 2 ^ 53 ->
  add (of_Z a) (of_Z b) = of_Z (a + b).
Proof.
  intros Ha Hb Hab.
  destruct a as [| a | a]; [| | lia].
  { rewrite of_Z_0. destruct b as [| b | b]; [reflexivity | | lia].
    destruct (of_Z_pos b ltac:(lia)) as (mb & Hmb & E).
    rewrite Z.add_0_l, E. reflexivity. }
  destruct b as [| b | b]; [| | lia].
  { rewrite Z.add_0_r, of_Z_0.
    destruct (of_Z_pos a ltac:(lia)) as (ma & Hma & E). rewrite E. reflexivity. }
  assert (Ha53 : Zpos a < 2 ^ 53) by lia.
  assert (Hb53 : Zpos b < 2 ^ 53) by lia.
  destruct (of_Z_pos a Ha53) as (ma & Hma & ->).
  destruct (of_Z_pos b Hb53) as (mb & Hmb & ->).
  pose proof (digits_le_53 a Ha53). pose proof (digits_le_53 b Hb53).
  set (da := Zpos (digits2_pos a)) in *. set (db := Zpos (digits2_pos b)) in *.
  assert (0 < da) by (subst da; lia). assert (0 < db) by (subst db; lia).
  unfold add. cbn [SFadd cond_Zopp].
  set (ez := Z.min (da - 53) (db - 53)).
  rewrite !shl_align_fst by (subst ez; lia).
  assert (Hez : 0 <= - ez <= 1000) by (subst ez; lia).
  assert (HS : Zpos ma * 2 ^ (da - 53 - ez) + Zpos mb * 2 ^ (db - 53 - ez)
               = Zpos (a + b) * 2 ^ (- ez)).
  { rewrite Pos2Z.inj_add, Hma, Hmb.
    rewrite <- !Z.mul_assoc, <- !Z.pow_add_r by lia.
    replace (53 - da + (da - 53 - ez)) with (- ez) by lia.
    replace (53 - db + (db - 53 - ez)) with (- ez) by lia.
    ring. }
  rewrite HS.
  assert (Hpos : 0 < Zpos (a + b) * 2 ^ (- ez)).
  { apply Z.mul_pos_pos; [lia | apply Z.pow_pos_nonneg; lia]. }
  rewrite <- (Z2Pos.id _ Hpos).
  replace ez with (- (- ez)) at 2 by lia.
  rewrite <- Pos2Z.inj_add.
  apply binary_normalize_rescaled; [exact Hez | | exact Hab].
  now rewrite Z2Pos.id.
Qed.

Lemma to_Z_of_Z (z : Z) : 0 <= z < 2 ^ 53 -> to_Z (of_Z z) = Some z.
Proof.
  intros [Hz Hz53]. destruct z as [| p | p]; [reflexivity | | lia].
  destruct (of_Z_pos p Hz53) as (m & Hm & ->).
  pose proof (digits_le_53 p Hz53) as Hd.
  set (d := Zpos (digits2_pos p)) in *.
  cbn [to_Z cond_Zopp].
  destruct (Z.leb_spec 0 (d - 53)) as [Hle | Hlt].
  - replace (d - 53) with 0 by lia.
    rewrite Hm. replace (53 - d) with 0 by lia.
    rewrite !Z.pow_0_r. f_equal. lia.
  - replace (- (d - 53)) with (53 - d) by lia.
    assert (H2 : 0 < 2 ^ (53 - d)) by (apply Z.pow_pos_nonneg; lia).
    rewrite Z.land_ones, Hm, Z.mod_mul by lia.
    cbn [Z.eqb]. rewrite Z.shiftr_div_pow2, Z.div_mul by lia. reflexivity.
Qed.

(** *** Rounding a mantissa of 53 bits or more *)

Lemma shr_fexp_m (M : positive) (e : Z) (l : location) :
  53 <= Zpos (digits2_pos M) ->
  -1074 <= e + (Zpos (digits2_pos M) - 53) ->
  shr_m (fst (shr_fexp prec emax (Zpos M) e l))
  = Zpos M / 2 ^ (Zpos (digits2_pos M) - 53)
  /\ snd (shr_fexp prec emax (Zpos M) e l) = e + (Zpos (digits2_pos M) - 53).
Proof.
  intros Hd He. set (d := Zpos (digits2_pos M)) in *.
  unfold shr_fexp. cbn [Zdigits2]. fold d.
  unfold fexp, emin, prec, emax. rewrite Z.max_l by lia.
  replace (d + e - 53 - e) with (d - 53) by lia.
  assert (Hm : shr_m (shr_record_of_loc (Zpos M) l) = Zpos M)
    by (destruct l as [| []]; reflexivity).
  destruct (d - 53) as [| n | n] eqn:En; [| | lia]; cbn [shr fst snd].
  - rewrite Hm, Z.pow_0_r, Z.div_1_r. split; [reflexivity | lia].
  - destruct (iter_shr_1_m n (shr_record_of_loc (Zpos M) l)) as [E _];
      [rewrite Hm; lia |].
    rewrite E, Hm. split; reflexivity.
Qed.

Lemma round_nearest_even_cases (m : Z) (l : location) :
  round_nearest_even m l = m \/ round_nearest_even m l = m + 1.
Proof.
  destruct l as [| []]; cbn [round_nearest_even]; auto.
  destruct (Z.even m); auto.
Qed.

(** Rounding [M * 2^e] to 53 bits: the mantissa becomes [M / 2^n] or one
    more, for the [n] bits dropped; when that reaches 2^53 it is halved
    and the exponent goes up by one ([j = 1]). *)
Lemma binary_round_aux_inexact (M : positive) (e : Z) :
  53 <= Zpos (digits2_pos M) ->
  -1074 <= e + (Zpos (digits2_pos M) - 53) <= 970 ->
  exists (q' : positive) (j : Z),
    (j = 0 \/ j = 1)
    /\ binary_round_aux prec emax false (Zpos M) e loc_Exact
       = S754_finite false q' (e + (Zpos (digits2_pos M) - 53) + j)
    /\ (Zpos q' * 2 ^ j = Zpos M / 2 ^ (Zpos (digits2_pos M) - 53)
        \/ Zpos q' * 2 ^ j = Zpos M / 2 ^ (Zpos (digits2_pos M) - 53) + 1).
Proof.
  intros Hd He. set (d := Zpos (digits2_pos M)) in *.
  destruct (shr_fexp_m M e loc_Exact Hd (proj1 He)) as [E1 E1'].
  fold d in E1, E1'.
  pose proof (digits_bounds M) as [Hlo Hhi]. fold d in Hlo, Hhi.
  set (n := d - 53) in *. set (q := Zpos M / 2 ^ n) in *.
  assert (Hn : 0 < 2 ^ n) by (apply Z.pow_pos_nonneg; lia).
  assert (Hq : 2 ^ 52 <= q < 2 ^ 53).
  { subst q. split.
    - apply Z.div_le_lower_bound; [lia |].
      rewrite Z.mul_comm, <- Z.pow_add_r by lia.
      replace (52 + n) with (d - 1) by lia. exact Hlo.
    - apply Z.div_lt_upper_bound; [lia |].
      rewrite <- Z.pow_add_r by lia.
      replace (n + 53) with d by lia. exact Hhi. }
  unfold binary_round_aux.
  destruct (shr_fexp prec emax (Zpos M) e loc_Exact) as [r1 e1].
  cbn [fst snd] in E1, E1'. subst e1. rewrite E1.
  set (q1 := round_nearest_even q (loc_of_shr_record r1)).
  assert (Hq1 : q1 = q \/ q1 = q + 1) by apply round_nearest_even_cases.
  destruct q1 as [| p1 | p1] eqn:Ep1; [lia | | lia].
  destruct (Z.eq_dec (Zpos p1) (2 ^ 53)) as [Htop | Hntop].
  - assert (Hd1 : Zpos (digits2_pos p1) = 54)
      by (apply digits_unique; rewrite Htop; simpl; lia).
    destruct (shr_fexp_m p1 (e + n) loc_Exact) as [E2 E2'];
      [rewrite Hd1; lia | rewrite Hd1; lia |].
    rewrite Hd1 in E2, E2'.
    destruct (shr_fexp prec emax (Zpos p1) (e + n) loc_Exact) as [r2 e2].
    cbn [fst snd] in E2, E2'. subst e2. rewrite E2, Htop.
    change (2 ^ 53 / 2 ^ (54 - 53)) with (Zpos 4503599627370496).
    exists 4503599627370496%positive, 1. split; [auto |]. split.
    + unfold emax, prec.
      destruct (Z.leb_spec (e + n + (54 - 53)) (1024 - 53)); [| lia].
      f_equal; lia.
    + change (Zpos 4503599627370496 * 2 ^ 1) with (2 ^ 53).
      rewrite <- Htop. lia.
  - assert (Hd1 : Zpos (digits2_pos p1) = 53)
      by (apply digits_unique; simpl in *; lia).
    destruct (shr_fexp_m p1 (e + n) loc_Exact) as [E2 E2'];
      [rewrite Hd1; lia | rewrite Hd1; lia |].
    rewrite Hd1 in E2, E2'.
    destruct (shr_fexp prec emax (Zpos p1) (e + n) loc_Exact) as [r2 e2].
    cbn [fst snd] in E2, E2'. subst e2. rewrite E2.
    change (2 ^ (53 - 53)) with 1. rewrite Z.div_1_r.
    exists p1, 0. split; [auto |]. split.
    + unfold emax, prec.
      destruct (Z.leb_spec (e + n + (53 - 53)) (1024 - 53)); [| lia].
      f_equal; lia.
    + rewrite Z.pow_0_r, Z.mul_1_r. lia.
Qed.

(** *** The derived height *)

(** The integer inequalities behind [derive_height_exact]: [B] stands for
    2^53, [P], [X], [Y], [Z2] for powers of two, [Mz] for the product
    mantissa, [q] for its quotient by [Z2] and [q'] for the rounded
    mantissa. *)
Lemma height_arith (B W N P X Y Z2 q q' Mz : Z) :
  0 < B -> 0 < W ->
  320 * N <= 99 * W < 320 * N + 320 ->
  64 <= P -> 9 * W * P < B ->
  0 < X -> Y = 1 \/ Y = 2 -> 0 < Z2 <= B ->
  X * Y * Z2 = 16 * B * P ->
  Z2 * q <= Mz < Z2 * q + Z2 ->
  320 * Mz = (99 * W * (16 * B) + 128 * (9 * W)) * P ->
  q' * Y = q \/ q' * Y = q + 1 ->
  N * X <= q' < (N + 1) * X.
Proof.
  intros HB HW HN HP HWP HX HY HZ Hprod Hq HM Hq'.
  assert (HN0 : 0 <= N) by lia.
  assert (HY0 : 1 <= Y <= 2) by lia.
  assert (HBP : 0 < B * P) by (apply Z.mul_pos_pos; lia).
  assert (HWP0 : 0 <= W * P) by (apply Z.mul_nonneg_nonneg; lia).
  split.
  - destruct (Z.le_gt_cases (N * X) q') as [| Hgt]; [assumption | exfalso].
    assert (H1 : (q' + 1) * Y <= N * X * Y)
      by (apply Z.mul_le_mono_nonneg_r; lia).
    assert (H2 : q + 1 <= N * X * Y) by lia.
    assert (H3 : Z2 * (q + 1) <= Z2 * (N * X * Y))
      by (apply Z.mul_le_mono_nonneg_l; lia).
    assert (H4 : Z2 * (N * X * Y) = N * (16 * B * P))
      by (rewrite <- Hprod; ring).
    assert (H5 : Mz < N * (16 * B * P)) by lia.
    assert (H6 : 320 * N * (16 * (B * P)) <= 99 * W * (16 * (B * P)))
      by (apply Z.mul_le_mono_nonneg_r; lia).
    assert (H7 : 320 * Mz = 99 * W * (16 * (B * P)) + 1152 * (W * P))
      by (rewrite HM; ring).
    assert (H8 : 320 * Mz < 320 * N * (16 * (B * P))).
    { replace (320 * N * (16 * (B * P))) with (320 * (N * (16 * B * P))) by ring.
      lia. }
    lia.
  - destruct (Z.lt_ge_cases q' ((N + 1) * X)) as [| Hge]; [assumption | exfalso].
    assert (H1 : (N + 1) * X * Y <= q' * Y)
      by (apply Z.mul_le_mono_nonneg_r; lia).
    assert (H2 : (N + 1) * X * Y <= q + 1) by lia.
    assert (H3 : Z2 * ((N + 1) * X * Y) <= Z2 * (q + 1))
      by (apply Z.mul_le_mono_nonneg_l; lia).
    assert (H4 : Z2 * ((N + 1) * X * Y) = (N + 1) * (16 * (B * P)))
      by (replace (16 * (B * P)) with (16 * B * P) by ring;
          rewrite <- Hprod; ring).
    assert (H5 : (N + 1) * (16 * (B * P)) <= Mz + B) by lia.
    assert (H6 : (99 * W + 1) * (16 * (B * P)) <= 320 * (N + 1) * (16 * (B * P)))
      by (apply Z.mul_le_mono_nonneg_r; lia).
    assert (H7 : 320 * Mz = 99 * W * (16 * (B * P)) + 1152 * (W * P))
      by (rewrite HM; ring).
    assert (H8 : 320 * (N + 1) * (16 * (B * P)) <= 320 * Mz + 320 * B).
    { replace (320 * (N + 1) * (16 * (B * P)))
        with (320 * ((N + 1) * (16 * (B * P)))) by ring.
      lia. }
    assert (H9 : (99 * W + 1) * (16 * (B * P))
                 = 99 * W * (16 * (B * P)) + 16 * (B * P)) by ring.
    assert (H10 : 64 * B <= P * B) by (apply Z.mul_le_mono_nonneg_r; lia).
    assert (H11 : 9 * (W * P) < B) by lia.
    replace (B * P) with (P * B) in * by ring.
    lia.
Qed.

Lemma spec_height_div (w : Z) : spec_height w = 99 * w / 320.
Proof.
  unfold spec_height, Qfloor. cbn [Qmult inject_Z Qnum Qden].
  change (Zpos (1 * 16 * 100)) with (320 * 5).
  replace (w * 9 * 55) with (99 * w * 5) by ring.
  now rewrite Z.div_mul_cancel_r by lia.
Qed.

Lemma nine_sixteenths :
  div (of_Z 9) (of_Z 16) = S754_finite false 5066549580791808 (-53).
Proof. vm_compute. reflexivity. Qed.

(** [width * (9 / 16)] is exact while [9 * width] fits in 53 bits. *)
Lemma mul_nine_sixteenths (w : positive) :
  Zpos (9 * w) < 2 ^ 53 ->
  exists m1 : positive,
    Zpos m1 = Zpos (9 * w) * 2 ^ (53 - Zpos (digits2_pos (9 * w)))
    /\ mul (of_Z (Zpos w)) (div (of_Z 9) (of_Z 16))
       = S754_finite false m1 (Zpos (digits2_pos (9 * w)) - 57).
Proof.
  intros H9. rewrite nine_sixteenths.
  assert (Hw : Zpos w < 2 ^ 53) by lia.
  destruct (of_Z_pos w Hw) as (mw & Hmw & ->).
  pose proof (digits_le_53 w Hw). pose proof (digits_le_53 (9 * w) H9).
  pose proof (digits_mul_ge 9 w) as Hge. change (Zpos (digits2_pos 9)) with 4 in Hge.
  set (dw := Zpos (digits2_pos w)) in *.
  set (d9 := Zpos (digits2_pos (9 * w))) in *.
  assert (0 < dw) by (subst dw; lia).
  unfold mul. cbn [SFmul xorb].
  assert (HM : Zpos (mw * 5066549580791808) = Zpos (9 * w) * 2 ^ (102 - dw)).
  { rewrite !Pos2Z.inj_mul, Hmw.
    replace (102 - dw) with (53 - dw + 49) by lia.
    rewrite Z.pow_add_r by lia.
    change (Zpos 5066549580791808) with (9 * 2 ^ 49). ring. }
  destruct (binary_round_aux_exact (9 * w) (mw * 5066549580791808) (102 - dw)
              (dw - 53 + -53)
              ltac:(lia) HM ltac:(fold d9; lia) ltac:(fold d9; lia)
              ltac:(fold d9; lia)) as (m1 & Hm1 & E).
  fold d9 in Hm1, E. exists m1. split; [exact Hm1 |].
  rewrite E. f_equal; lia.
Qed.

(** The literal [0.55] is the correctly rounded quotient 55/100; twenty
    times its mantissa exceeds 11 * 2^53 by 8. *)
Lemma lit_0_55_nearest : div (of_Z 55) (of_Z 100) = lit_0_55.
Proof. vm_compute. reflexivity. Qed.

Lemma derive_height_exact (w : Z) :
  1 <= w < 2 ^ 43 -> derive_height w = of_Z (99 * w / 320).
Proof.
  intros [Hw1 Hw43]. destruct w as [| w | w]; [lia | | lia].
  assert (H9 : Zpos (9 * w) < 2 ^ 47) by (rewrite Pos2Z.inj_mul; lia).
  destruct (mul_nine_sixteenths w ltac:(lia)) as (m1 & Hm1 & E1).
  unfold derive_height. rewrite E1. unfold lit_0_55, mul. cbn [SFmul xorb].
  set (mc := 4953959590107546%positive).
  set (d9 := Zpos (digits2_pos (9 * w))) in *.
  assert (Hd9 : 4 <= d9 <= 47).
  { pose proof (digits_mul_ge 9 w) as Hge.
    change (Zpos (digits2_pos 9)) with 4 in Hge. fold d9 in Hge.
    assert (0 < Zpos (digits2_pos w)) by lia. split; [lia |].
    pose proof (digits_bounds (9 * w)) as [Hlo _]. fold d9 in Hlo.
    destruct (Z.le_gt_cases d9 47) as [| Hgt]; [assumption |].
    assert (2 ^ 47 <= 2 ^ (d9 - 1)) by (apply Z.pow_le_mono_r; lia). lia. }
  assert (Hdm1 : Zpos (digits2_pos m1) = 53).
  { rewrite (digits_shift (9 * w) m1 (53 - d9)) by (fold d9; lia).
    fold d9. lia. }
  pose proof (digits_bounds m1) as Hbm1. rewrite Hdm1 in Hbm1.
  assert (HD : 105 <= Zpos (digits2_pos (m1 * mc)) <= 106).
  { pose proof (digits_mul_ge m1 mc) as Hge. rewrite Hdm1 in Hge.
    change (Zpos (digits2_pos mc)) with 53 in Hge. split; [lia |].
    pose proof (digits_bounds (m1 * mc)) as [Hlo _].
    destruct (Z.le_gt_cases (Zpos (digits2_pos (m1 * mc))) 106) as [| Hgt];
      [assumption |].
    assert (2 ^ 106 <= 2 ^ (Zpos (digits2_pos (m1 * mc)) - 1))
      by (apply Z.pow_le_mono_r; lia).
    rewrite Pos2Z.inj_mul in Hlo.
    assert (Zpos mc < 2 ^ 53) by (subst mc; reflexivity).
    change (2 ^ 106) with (2 ^ 53 * 2 ^ 53) in *. nia. }
  set (D := Zpos (digits2_pos (m1 * mc))) in *.
  destruct (binary_round_aux_inexact (m1 * mc) (d9 - 57 + -53)
              ltac:(fold D; lia) ltac:(fold D; lia))
    as (q' & j & Hj & E2 & Hq').
  fold D in E2, Hq'. rewrite E2.
  set (e' := d9 - 57 + -53 + (D - 53) + j) in *.
  assert (He' : e' < 0) by (subst e'; lia).
  cbn [Math_floor cond_Zopp].
  destruct (Z.leb_spec 0 e'); [lia |].
  f_equal. rewrite Z.shiftr_div_pow2 by lia.
  set (T := - e') in *. set (n := D - 53) in *.
  assert (HT : 0 < 2 ^ T) by (apply Z.pow_pos_nonneg; lia).
  assert (HZ : 0 < 2 ^ n) by (apply Z.pow_pos_nonneg; lia).
  assert (Hbounds : 99 * Zpos w / 320 * 2 ^ T <= Zpos q'
                    < (99 * Zpos w / 320 + 1) * 2 ^ T).
  { apply (height_arith (2 ^ 53) (Zpos w) (99 * Zpos w / 320)
             (2 ^ (53 - d9)) (2 ^ T) (2 ^ j) (2 ^ n)
             (Zpos (m1 * mc) / 2 ^ n) (Zpos q') (Zpos (m1 * mc))).
    - reflexivity.
    - lia.
    - split; [apply Z.mul_div_le; lia |].
      pose proof (Z.mul_succ_div_gt (99 * Zpos w) 320 ltac:(lia)). lia.
    - change 64 with (2 ^ 6). apply Z.pow_le_mono_r; lia.
    - rewrite Pos2Z.inj_mul in Hm1. change (Zpos 9) with 9 in Hm1. lia.
    - exact HT.
    - destruct Hj as [-> | ->]; [left | right]; reflexivity.
    - split; [exact HZ | apply Z.pow_le_mono_r; lia].
    - change (16 * 2 ^ 53) with (2 ^ 57).
      rewrite <- !Z.pow_add_r by lia. f_equal. subst T e' n. lia.
    - split; [apply Z.mul_div_le; lia |].
      pose proof (Z.mul_succ_div_gt (Zpos (m1 * mc)) (2 ^ n) HZ). lia.
    - rewrite Pos2Z.inj_mul, Hm1, Pos2Z.inj_mul.
      replace (320 * (Zpos 9 * Zpos w * 2 ^ (53 - d9) * Zpos mc))
        with (16 * (9 * Zpos w) * 2 ^ (53 - d9) * (20 * Zpos mc)) by ring.
      change (20 * Zpos mc) with (11 * 2 ^ 53 + 8). ring.
    - exact Hq'. }
  symmetry. apply Z.div_unique with (Zpos q' - 99 * Zpos w / 320 * 2 ^ T); lia.
Qed.

End Binary64.

(** ** The ramp index, tabulated over the byte sums *)

Lemma forallb_seq_lt (P : nat -> bool) (n : nat) :
  forallb P (seq 0 n) = true -> forall i, i < n -> P i = true.
Proof.
  intros H i Hi. rewrite forallb_forall in H. apply H.
  apply in_seq. lia.
Qed.

Lemma byte_nat_lt (b : Byte.byte) : byte_nat b < 256.
Proof. unfold byte_nat. pose proof (Byte.to_N_bounded b). lia. Qed.

Lemma elem_num_nz (b : Byte.byte) : elem_num (Some b) = nz (byte_nat b).
Proof. unfold elem_num, nz, byte_nat. now rewrite N_nat_Z. Qed.

Lemma add_bytes_exact (i j k : nat) :
  i < 256 -> j < 256 -> k < 256 ->
  add (add (nz i) (nz j)) (nz k) = nz (i + j + k).
Proof.
  intros Hi Hj Hk. unfold nz.
  rewrite add_of_Z by (change (2 ^ 53)%Z with 9007199254740992%Z; lia).
  rewrite add_of_Z by (change (2 ^ 53)%Z with 9007199254740992%Z; lia).
  f_equal. lia.
Qed.

Lemma charIndex_sum (ramp : jsstring) (r g b : Byte.byte) :
  charIndex (VString ramp) (Some r) (Some g) (Some b)
  = index_of_sum (length ramp) (byte_nat r + byte_nat g + byte_nat b).
Proof.
  unfold charIndex, brightness, index_of_sum.
  rewrite !elem_num_nz.
  rewrite add_bytes_exact by apply byte_nat_lt.
  reflexivity.
Qed.

Lemma check_index_ramps :
  check_index 10 && check_index 5 && check_index 1 = true.
Proof. vm_compute. reflexivity. Qed.

Lemma check_index_sound (len : nat) :
  check_index len = true ->
  forall s, s < 766 -> to_Z (index_of_sum len s) = Some (expected_index len s).
Proof.
  unfold check_index. intros H s Hs.
  rewrite forallb_forall in H.
  apply (bool_decide_eq_true_1 _ (H s (proj2 (in_seq 766 0 s) (conj (Nat.le_0_l s) Hs)))).
Qed.

Lemma index_of_sum_table (len s : nat) :
  len = 10 \/ len = 5 \/ len = 1 -> s < 766 ->
  to_Z (index_of_sum len s) = Some (expected_index len s).
Proof.
  intros Hlen Hs.
  pose proof check_index_ramps as H.
  apply andb_true_iff in H as [H H1]. apply andb_true_iff in H as [H10 H5].
  apply check_index_sound; [| exact Hs].
  destruct Hlen as [-> | [-> | ->]]; assumption.
Qed.

Lemma check_bounds_mono_ramps :
  check_bounds_mono 10 && check_bounds_mono 5 && check_bounds_mono 1 = true.
Proof. vm_compute. reflexivity. Qed.

Lemma expected_index_facts (len : nat) :
  len = 10 \/ len = 5 \/ len = 1 ->
  (forall s, s < 765 ->
     (0 <= expected_index len s < Z.of_nat len)%Z
     /\ (expected_index len s <= expected_index len (S s))%Z)
  /\ expected_index len 0 = 0%Z
  /\ expected_index len 765 = (Z.of_nat len - 1)%Z.
Proof.
  intros Hlen.
  pose proof check_bounds_mono_ramps as H.
  assert (Hc : check_bounds_mono len = true).
  { apply andb_true_iff in H as [H H1]. apply andb_true_iff in H as [H10 H5].
    destruct Hlen as [-> | [-> | ->]]; assumption. }
  unfold check_bounds_mono in Hc.
  apply andb_true_iff in Hc as [Hc Hlast].
  apply andb_true_iff in Hc as [Hc Hfirst].
  split; [| split; lia].
  intros s Hs. pose proof (forallb_seq_lt _ _ Hc s Hs) as Hcs. cbv beta in Hcs.
  lia.
Qed.

Lemma expected_index_mono (len : nat) :
  len = 10 \/ len = 5 \/ len = 1 ->
  forall s t, s <= t -> t <= 765 ->
    (expected_index len s <= expected_index len t)%Z.
Proof.
  intros Hlen s t Hst Ht.
  destruct (expected_index_facts len Hlen) as [Hstep _].
  induction Hst as [| t Hst IH].
  - lia.
  - etransitivity; [apply IH; lia |]. apply Hstep. lia.
Qed.

Lemma expected_index_range (len s : nat) :
  len = 10 \/ len = 5 \/ len = 1 -> s <= 765 ->
  (0 <= expected_index len s < Z.of_nat len)%Z.
Proof.
  intros Hlen Hs.
  destruct (expected_index_facts len Hlen) as (Hstep & _ & Hlast).
  destruct (decide (s = 765)) as [-> | Hne].
  - rewrite Hlast. lia.
  - apply Hstep. lia.
Qed.

(** *** The named ramps *)

Lemma CHARSETS_cases (name : string) (ramp : jsstring) :
  CHARSETS !! name = Some ramp ->
  (name = "standard" /\ ramp = standard) \/ (name = "simple" /\ ramp = simple)
  \/ (name = "blocks" /\ ramp = blocks) \/ (name = "solid" /\ ramp = solid).
Proof.
  unfold CHARSETS. intros H.
  repeat (apply lookup_insert_Some in H as [[<- <-] | [_ H]]; [tauto |]).
  apply lookup_singleton_Some in H as [<- <-]. tauto.
Qed.

Lemma CHARSETS_length (name : string) (ramp : jsstring) :
  CHARSETS !! name = Some ramp ->
  length ramp = 10 \/ length ramp = 5 \/ length ramp = 1.
Proof.
  intros H. apply CHARSETS_cases in H.
  destruct H as [[_ ->] | [[_ ->] | [[_ ->] | [_ ->]]]]; vm_compute; tauto.
Qed.

(** ** The renderer's output as rows of cells *)

Lemma foldl_append {A B : Type} (f : list A -> B -> list A) (g : B -> list A)
    (l : list B) (acc : list A) :
  (forall out x, f out x = out ++ g x) ->
  foldl f acc l = acc ++ concat (map g l).
Proof.
  intros Hf. revert acc. induction l as [| x l IH]; intros acc; simpl.
  - now rewrite app_nil_r.
  - rewrite IH, Hf. now rewrite <- app_assoc.
Qed.

Lemma render_row_cells cfg f out y :
  render_row cfg f out y = out ++ row_cells cfg f y.
Proof.
  unfold render_row, row_cells.
  rewrite (foldl_append _ (render_pixel cfg f y)) by reflexivity.
  now rewrite <- app_assoc.
Qed.

Lemma render_blob_rows cfg f :
  render_blob cfg f
  = cursor_home ++ concat (map (row_cells cfg f) (seq 0 (height cfg)))
    ++ color_reset.
Proof.
  unfold render_blob.
  rewrite (foldl_append _ (row_cells cfg f))
    by (intros; apply render_row_cells).
  now rewrite <- app_assoc.
Qed.

Lemma frame_lookup_is_Some cfg (f : frame) y x k :
  length f = frameSize cfg -> y < height cfg -> x < width cfg -> k < 3 ->
  is_Some (f !! ((y * width cfg + x) * 3 + k)).
Proof.
  unfold frameSize. intros Hlen Hy Hx Hk.
  apply lookup_lt_is_Some. rewrite Hlen. nia.
Qed.

(** The digits printed for a byte read back as that byte. *)
Lemma decimal_byte_parse (b : Byte.byte) :
  option_map N.of_uint (NilZero.uint_of_string (decimal (Byte.to_N b)))
  = Some (Byte.to_N b).
Proof. destruct b; vm_compute; reflexivity. Qed.

(** ** The handlers, field by field *)

(** Setter chains are unfolded innermost first. *)
Ltac st_cbv :=
  cbv [perform set_buffer set_emitted set_frameQueue set_isProcessing
       set_firstFrame set_frameCount set_cleanedUp set_keyListener
       set_ffmpegKilled set_audioKilled set_immediates set_timers set_exited
       set_log
       buffer emitted frameQueue isProcessing firstFrame frameCount
       cleanedUp keyListener ffmpegKilled audioKilled immediates timers exited
       log]
    in *.

Section Handlers.

Variable cfg : RenderConfig.
Variable isTTY : bool.

Lemma renderFrame_eq (f : frame) (st : state) :
  renderFrame cfg f st
  = set_frameCount (S (frameCount st))
      (set_firstFrame false
         (perform (first_frame_effects st ++ [StdoutWrite (render_blob cfg f)]) st)).
Proof.
  unfold renderFrame, first_frame_effects.
  destruct st as [? ? ? ? [] ? ? ? ? ? ? ? ? ?]; st_cbv;
    rewrite <- ?app_assoc; reflexivity.
Qed.

Lemma processNextFrame_idle (st : state) :
  isProcessing st = true \/ frameQueue st = [] -> processNextFrame cfg st = st.
Proof.
  unfold processNextFrame. intros [H | H]; rewrite H; simpl.
  - reflexivity.
  - now rewrite orb_true_r.
Qed.

Lemma processNextFrame_pop (st : state) (f : frame) (rest : list frame) :
  isProcessing st = false -> frameQueue st = f :: rest ->
  processNextFrame cfg st
  = {| buffer := buffer st; emitted := emitted st; frameQueue := rest;
       isProcessing := false; firstFrame := false;
       frameCount := S (frameCount st); cleanedUp := cleanedUp st;
       keyListener := keyListener st; ffmpegKilled := ffmpegKilled st;
       audioKilled := audioKilled st;
       immediates := immediates st + length (reschedule rest);
       timers := timers st; exited := exited st;
       log := log st ++ first_frame_effects st
              ++ [StdoutWrite (render_blob cfg f)] ++ reschedule rest |}.
Proof.
  intros Hp Hq. unfold processNextFrame. rewrite Hp, Hq.
  cbn [orb length Nat.eqb]. rewrite renderFrame_eq.
  unfold reschedule, first_frame_effects.
  destruct st as [? ? ? ? ff ? ? ? ? ? ? ? ? ?]; st_cbv.
  destruct (0 <? length rest); cbn [length];
    rewrite <- ?app_assoc, ?app_nil_r, ?Nat.add_0_r, ?Nat.add_1_r; reflexivity.
Qed.

Lemma cleanup_done (st : state) :
  cleanedUp st = true -> cleanup isTTY st = st.
Proof. unfold cleanup. now intros ->. Qed.

Lemma cleanup_first (st : state) :
  cleanedUp st = false ->
  cleanup isTTY st
  = {| buffer := buffer st; emitted := emitted st; frameQueue := frameQueue st;
       isProcessing := isProcessing st; firstFrame := firstFrame st;
       frameCount := frameCount st; cleanedUp := true;
       keyListener := false; ffmpegKilled := true; audioKilled := true;
       immediates := immediates st; timers := timers st; exited := exited st;
       log := log st ++ teardown_effects isTTY st |}.
Proof.
  intros Hc. unfold cleanup, teardown_effects. rewrite Hc.
  destruct st as [? ? ? ? ? ? ? ? fk ak ? ? ? ?].
  destruct isTTY, fk, ak; st_cbv; cbn [app];
    rewrite <- ?app_assoc; reflexivity.
Qed.

Lemma slice_step_eq (st : state) :
  slice_step cfg st
  = {| buffer := drop (frameSize cfg) (buffer st);
       emitted := emitted st ++ [take (frameSize cfg) (buffer st)];
       frameQueue := enqueue (frameQueue st) (take (frameSize cfg) (buffer st));
       isProcessing := isProcessing st; firstFrame := firstFrame st;
       frameCount := frameCount st; cleanedUp := cleanedUp st;
       keyListener := keyListener st; ffmpegKilled := ffmpegKilled st;
       audioKilled := audioKilled st; immediates := immediates st;
       timers := timers st; exited := exited st; log := log st |}.
Proof. reflexivity. Qed.

(** The loop preserves whatever each iteration preserves, and stops with
    less than one frame buffered. *)
Lemma slice_loop_inv (P : state -> Prop) :
  (forall st, frameSize cfg <= length (buffer st) -> P st -> P (slice_step cfg st)) ->
  forall fuel st st',
    slice_loop cfg fuel st = Some st' -> P st ->
    P st' /\ length (buffer st') < frameSize cfg.
Proof.
  intros Hstep. induction fuel as [| fuel IH]; intros st st' Hrun HP;
    simpl in Hrun; [discriminate |].
  destruct (frameSize cfg <=? length (buffer st)) eqn:Hle.
  - apply Nat.leb_le in Hle. eapply IH; eauto.
  - apply Nat.leb_gt in Hle. injection Hrun as <-. auto.
Qed.

(** With a positive frame size the loop ends: fuel beyond the buffered
    length is never used up. *)
Lemma slice_loop_terminates :
  0 < frameSize cfg ->
  forall fuel st, length (buffer st) < fuel ->
    is_Some (slice_loop cfg fuel st).
Proof.
  intros Hpos. induction fuel as [| fuel IH]; intros st Hlen; [lia |].
  simpl. destruct (frameSize cfg <=? length (buffer st)) eqn:Hle; [| eauto].
  apply Nat.leb_le in Hle. apply IH.
  rewrite slice_step_eq; simpl. rewrite length_drop. lia.
Qed.

(** With a frame size of zero the loop condition never fails. *)
Lemma slice_loop_diverges :
  frameSize cfg = 0 -> forall fuel st, slice_loop cfg fuel st = None.
Proof.
  intros H0. induction fuel as [| fuel IH]; intros st; simpl; [reflexivity |].
  rewrite H0. simpl. apply IH.
Qed.

End Handlers.

Lemma render_blob_head cfg f :
  exists tl, render_blob cfg f = 27%N :: 91%N :: 72%N :: tl.
Proof. rewrite render_blob_rows. eexists. reflexivity. Qed.

Lemma blob_not_hide cfg f : bool_decide (render_blob cfg f = cursor_hide) = false.
Proof.
  apply bool_decide_eq_false. destruct (render_blob_head cfg f) as [tl ->].
  discriminate.
Qed.

Lemma blob_not_show cfg f : bool_decide (render_blob cfg f = cursor_show) = false.
Proof.
  apply bool_decide_eq_false. destruct (render_blob_head cfg f) as [tl ->].
  discriminate.
Qed.

(** ** Pure list facts about slicing *)

Lemma sliced_unique (size : nat) (frames : list frame) (rem total : list Byte.byte) :
  0 < size ->
  concat frames ++ rem = total ->
  Forall (fun f => length f = size) frames ->
  length rem < size ->
  frames = map (slice size total) (seq 0 (length total / size))
  /\ rem = drop (length total / size * size) total
  /\ length frames = length total / size
  /\ length rem = length total mod size.
Proof.
  intros Hpos. revert total.
  induction frames as [| f frames IH]; intros total Hcat Hall Hrem.
  - simpl in Hcat. subst total.
    rewrite Nat.div_small, Nat.mod_small by lia. simpl. now rewrite drop_0.
  - apply Forall_cons in Hall as [Hf Hall].
    simpl in Hcat. rewrite <- app_assoc in Hcat.
    specialize (IH (concat frames ++ rem) eq_refl Hall Hrem).
    destruct IH as (IH1 & IH2 & IH3 & IH4).
    set (rest := concat frames ++ rem) in *.
    assert (Hlen : length total = size + length rest)
      by (subst total; rewrite length_app; lia).
    assert (Hdiv : length total / size = S (length rest / size)).
    { rewrite Hlen. replace (size + length rest) with (length rest + 1 * size) by lia.
      rewrite Nat.div_add by lia. lia. }
    assert (Hmod : length total mod size = length rest mod size).
    { rewrite Hlen. replace (size + length rest) with (length rest + 1 * size) by lia.
      now rewrite Nat.Div0.mod_add. }
    assert (Hdrop : forall k, drop (k + size) total = drop k rest).
    { intros k. subst total. rewrite Nat.add_comm, <- drop_drop.
      f_equal. rewrite drop_app_length'; auto. }
    rewrite Hdiv, Hmod. repeat split.
    + cbn [seq map]. f_equal.
      * unfold slice. rewrite Nat.mul_0_l, drop_0. subst total.
        now rewrite take_app_length'.
      * rewrite IH1 at 1. rewrite <- seq_shift, map_map.
        apply map_ext. intros i. unfold slice.
        replace (S i * size) with (i * size + size) by lia.
        now rewrite Hdrop.
    + rewrite IH2 at 1.
      replace (S (length rest / size) * size)
        with (length rest / size * size + size) by lia.
      now rewrite Hdrop.
    + simpl. now rewrite IH3.
    + exact IH4.
Qed.

(** ** The bounded queue *)

Lemma enqueue_length (q : list frame) (f : frame) :
  length q <= 30 -> length (enqueue q f) <= 30.
Proof.
  intros H. unfold enqueue.
  destruct (30 <? length (q ++ [f])) eqn:E.
  - rewrite length_drop, length_app. simpl. lia.
  - apply Nat.ltb_ge in E. exact E.
Qed.

Lemma enqueue_below (q : list frame) (f : frame) :
  length q < 30 -> enqueue q f = q ++ [f].
Proof.
  intros H. unfold enqueue.
  destruct (30 <? length (q ++ [f])) eqn:E; [| reflexivity].
  apply Nat.ltb_lt in E. rewrite length_app in E. simpl in E. lia.
Qed.

Lemma enqueue_full (q : list frame) (f : frame) :
  length q = 30 -> enqueue q f = drop 1 q ++ [f].
Proof.
  intros H. unfold enqueue.
  destruct (30 <? length (q ++ [f])) eqn:E.
  - destruct q; [discriminate | reflexivity].
  - apply Nat.ltb_ge in E. rewrite length_app in E. simpl in E. lia.
Qed.

Lemma enqueue_suffix (q em : list frame) (f : frame) :
  q `suffix_of` em -> enqueue q f `suffix_of` em ++ [f].
Proof.
  intros H. unfold enqueue.
  pose proof (suffix_snoc _ _ f H) as Hs.
  destruct (30 <? length (q ++ [f])); [| exact Hs].
  etransitivity; [| exact Hs]. apply suffix_drop.
Qed.

(** ** Session invariants *)

Lemma hide_is_hide : bool_decide (cursor_hide = cursor_hide) = true.
Proof. reflexivity. Qed.

Lemma show_is_show : bool_decide (cursor_show = cursor_show) = true.
Proof. reflexivity. Qed.

Lemma hide_not_show : bool_decide (cursor_hide = cursor_show) = false.
Proof. reflexivity. Qed.

Lemma show_not_hide : bool_decide (cursor_show = cursor_hide) = false.
Proof. reflexivity. Qed.

Ltac log_simpl :=
  rewrite ?List.filter_app, ?length_app;
  cbn [List.filter is_hide is_clear is_teardown length app];
  rewrite ?blob_not_hide, ?blob_not_show, ?hide_is_hide, ?show_is_show,
    ?hide_not_show, ?show_not_hide;
  cbn [List.filter is_hide is_clear is_teardown length app].

Section Invariants.

Variable cfg : RenderConfig.
Variable isTTY : bool.

Lemma core_inv_init : core_inv cfg isTTY [] (init isTTY).
Proof.
  split; cbn [init buffer emitted frameQueue isProcessing firstFrame
              frameCount cleanedUp keyListener ffmpegKilled audioKilled log];
    try reflexivity.
  - constructor.
  - cbn [length]. lia.
  - now destruct isTTY.
  - now destruct isTTY.
  - now destruct isTTY.
  - now destruct isTTY.
Qed.

Lemma core_inv_append total chunk st :
  core_inv cfg isTTY total st ->
  core_inv cfg isTTY (total ++ chunk) (set_buffer (buffer st ++ chunk) st).
Proof.
  intros [].
  split; try assumption.
  cbn [set_buffer emitted buffer]. rewrite app_assoc. now f_equal.
Qed.

Lemma core_inv_slice_step total st :
  frameSize cfg <= length (buffer st) ->
  core_inv cfg isTTY total st ->
  core_inv cfg isTTY total (slice_step cfg st).
Proof.
  intros Hle []. rewrite slice_step_eq.
  split; cbn [buffer emitted frameQueue isProcessing firstFrame frameCount
              cleanedUp keyListener ffmpegKilled audioKilled log];
    try assumption.
  - rewrite concat_app. simpl. rewrite app_nil_r, <- app_assoc, take_drop.
    assumption.
  - apply Forall_app. split; [assumption |].
    constructor; [| constructor]. rewrite length_take. lia.
  - now apply enqueue_length.
  - now apply enqueue_suffix.
Qed.

Lemma processNextFrame_buffer st :
  buffer (processNextFrame cfg st) = buffer st.
Proof.
  destruct (isProcessing st) eqn:Hp;
    [now rewrite processNextFrame_idle by auto |].
  destruct (frameQueue st) as [| f rest] eqn:Hq;
    [now rewrite processNextFrame_idle by auto |].
  now rewrite (processNextFrame_pop cfg st f rest).
Qed.

Lemma core_inv_processNextFrame total st :
  core_inv cfg isTTY total st ->
  core_inv cfg isTTY total (processNextFrame cfg st).
Proof.
  intros H.
  destruct (frameQueue st) as [| f rest] eqn:Hq;
    [now rewrite processNextFrame_idle by auto |].
  destruct H as [Hstream Hsized Hbound Hfifo Hidle Hffmpeg Haudio Hlistener Hteardown Hhide Hfirst Hclear].
  rewrite (processNextFrame_pop cfg st f rest) by assumption.
  rewrite Hq in *. unfold first_frame_effects, reschedule.
  split; cbn [buffer emitted frameQueue isProcessing firstFrame frameCount
              cleanedUp keyListener ffmpegKilled audioKilled log];
    try assumption; try reflexivity.
  - simpl in Hbound. lia.
  - eapply suffix_cons_l; eassumption.
  - destruct (firstFrame st), (0 <? length rest); log_simpl;
      rewrite ?app_nil_r; assumption.
  - destruct (firstFrame st), (0 <? length rest); log_simpl; lia.
  - destruct (firstFrame st), (0 <? length rest); log_simpl; lia.
Qed.

Lemma cleanup_buffer st : buffer (cleanup isTTY st) = buffer st.
Proof.
  destruct (cleanedUp st) eqn:Hc.
  - now rewrite cleanup_done.
  - now rewrite cleanup_first.
Qed.

Lemma core_inv_cleanup total st :
  core_inv cfg isTTY total st ->
  core_inv cfg isTTY total (cleanup isTTY st)
  /\ cleanedUp (cleanup isTTY st) = true.
Proof.
  intros H.
  destruct (cleanedUp st) eqn:Hc; [now rewrite cleanup_done |].
  destruct H as [Hstream Hsized Hbound Hfifo Hidle Hffmpeg Haudio Hlistener Hteardown Hhide Hfirst Hclear].
  rewrite cleanup_first by assumption.
  rewrite Hc in *. unfold teardown_effects, teardown_sequence.
  rewrite Hffmpeg, Haudio.
  split; [| reflexivity].
  split; cbn [buffer emitted frameQueue isProcessing firstFrame frameCount
              cleanedUp keyListener ffmpegKilled audioKilled log];
    try assumption; try reflexivity.
  - now rewrite andb_false_r.
  - destruct isTTY; log_simpl; rewrite Hteardown; reflexivity.
  - destruct isTTY; log_simpl; lia.
  - destruct isTTY; log_simpl; lia.
Qed.

Lemma filter_neutral (p : effect -> bool) (es : list effect) :
  forallb (fun e => negb (p e)) es = true -> List.filter p es = [].
Proof.
  induction es as [| e es IH]; simpl; [reflexivity |].
  intros H. apply andb_true_iff in H as [He Hes].
  apply negb_true_iff in He. rewrite He. auto.
Qed.

Lemma core_inv_perform total es st :
  forallb neutral es = true ->
  core_inv cfg isTTY total st ->
  core_inv cfg isTTY total (perform es st).
Proof.
  intros Hes [].
  assert (Hh : List.filter is_hide es = []).
  { apply filter_neutral. rewrite forallb_forall in *. intros e He.
    specialize (Hes e He). unfold neutral in Hes.
    rewrite !negb_orb in Hes. now destruct (is_hide e). }
  assert (Hc : List.filter is_clear es = []).
  { apply filter_neutral. rewrite forallb_forall in *. intros e He.
    specialize (Hes e He). unfold neutral in Hes.
    rewrite !negb_orb in Hes. destruct (is_clear e); [| reflexivity].
    now rewrite andb_false_r in Hes. }
  assert (Ht : List.filter is_teardown es = []).
  { apply filter_neutral. rewrite forallb_forall in *. intros e He.
    specialize (Hes e He). unfold neutral in Hes.
    rewrite !negb_orb in Hes. destruct (is_teardown e); [| reflexivity].
    now rewrite andb_false_r in Hes. }
  split; cbn [perform set_log buffer emitted frameQueue isProcessing firstFrame
              frameCount cleanedUp keyListener ffmpegKilled audioKilled log];
    try assumption.
  - now rewrite List.filter_app, Ht, app_nil_r.
  - now rewrite List.filter_app, Hh, app_nil_r.
  - now rewrite List.filter_app, Hc, app_nil_r.
Qed.

Lemma core_inv_set_timers total ts st :
  core_inv cfg isTTY total st -> core_inv cfg isTTY total (set_timers ts st).
Proof. intros []. split; assumption. Qed.

Lemma core_inv_set_immediates total n st :
  core_inv cfg isTTY total st -> core_inv cfg isTTY total (set_immediates n st).
Proof. intros []. split; assumption. Qed.

Lemma core_inv_onKeyPress total key st :
  core_inv cfg isTTY total st ->
  core_inv cfg isTTY total (onKeyPress isTTY key st).
Proof.
  intros H. unfold onKeyPress.
  destruct (first_byte_is_etx key || lower_is_q key); [| assumption].
  apply core_inv_set_timers, core_inv_perform; [reflexivity |].
  now apply core_inv_cleanup.
Qed.

Lemma core_inv_onFfmpegError total enoent st :
  core_inv cfg isTTY total st ->
  core_inv cfg isTTY total (onFfmpegError isTTY enoent st).
Proof.
  intros H. unfold onFfmpegError.
  apply core_inv_perform; [reflexivity |]. apply core_inv_cleanup.
  destruct enoent; [| assumption].
  now apply core_inv_perform.
Qed.

Lemma core_inv_onFfmpegClose total st :
  core_inv cfg isTTY total st ->
  core_inv cfg isTTY total (onFfmpegClose isTTY st).
Proof.
  intros H. unfold onFfmpegClose.
  apply core_inv_perform; [reflexivity |]. now apply core_inv_cleanup.
Qed.

Lemma onKeyPress_buffer key st : buffer (onKeyPress isTTY key st) = buffer st.
Proof.
  unfold onKeyPress. destruct (_ || _); [| reflexivity].
  cbn [set_timers perform set_log buffer]. apply cleanup_buffer.
Qed.

Lemma onFfmpegError_buffer enoent st :
  buffer (onFfmpegError isTTY enoent st) = buffer st.
Proof.
  unfold onFfmpegError. cbn [perform set_log buffer]. rewrite cleanup_buffer.
  now destruct enoent.
Qed.

Lemma onFfmpegClose_buffer st : buffer (onFfmpegClose isTTY st) = buffer st.
Proof.
  unfold onFfmpegClose. cbn [perform set_log buffer]. apply cleanup_buffer.
Qed.

Lemma session_inv_onData total chunk st st' :
  session_inv cfg isTTY total st ->
  onData cfg chunk st = Some st' ->
  session_inv cfg isTTY (total ++ chunk) st'.
Proof.
  intros [Hc _] Hrun. unfold onData, onData_fuel in Hrun.
  destruct (slice_loop cfg _ _) as [st2 |] eqn:Hloop; [| discriminate].
  injection Hrun as <-.
  apply (slice_loop_inv cfg (core_inv cfg isTTY (total ++ chunk))) in Hloop
    as [Hc2 Hlen].
  - rewrite (ci_idle _ _ _ _ Hc2). split.
    + now apply core_inv_processNextFrame.
    + intros _. now rewrite processNextFrame_buffer.
  - intros s Hs Hi. now apply core_inv_slice_step.
  - now apply core_inv_append.
Qed.

Lemma core_inv_onAudioError total st :
  core_inv cfg isTTY total st -> core_inv cfg isTTY total (onAudioError st).
Proof.
  intros H. unfold onAudioError.
  apply (core_inv_perform total [Uncaught AudioPlayer] st eq_refl) in H.
  destruct H. now split.
Qed.

Lemma session_inv_step total st ev st' :
  session_inv cfg isTTY total st ->
  step cfg isTTY st ev = Some st' ->
  session_inv cfg isTTY (total ++ data_of ev) st'.
Proof.
  intros Hinv Hstep. unfold step in Hstep.
  destruct (exited st); [discriminate |].
  destruct ev as [chunk | key | enoent | | | |]; simpl in Hstep.
  - eapply session_inv_onData; eassumption.
  - simpl. rewrite app_nil_r. destruct Hinv as [Hc Hb].
    destruct (keyListener st); [| discriminate]. injection Hstep as <-.
    split; [now apply core_inv_onKeyPress | now rewrite onKeyPress_buffer].
  - simpl. rewrite app_nil_r. destruct Hinv as [Hc Hb]. injection Hstep as <-.
    split; [now apply core_inv_onFfmpegError | now rewrite onFfmpegError_buffer].
  - simpl. rewrite app_nil_r. destruct Hinv as [Hc Hb]. injection Hstep as <-.
    split; [now apply core_inv_onFfmpegClose | now rewrite onFfmpegClose_buffer].
  - simpl. rewrite app_nil_r. destruct Hinv as [Hc Hb]. injection Hstep as <-.
    split; [now apply core_inv_onAudioError | exact Hb].
  - simpl. rewrite app_nil_r. destruct Hinv as [Hc Hb].
    destruct (immediates st) as [| n]; [discriminate |]. injection Hstep as <-.
    split.
    + now apply core_inv_processNextFrame, core_inv_set_immediates.
    + now rewrite processNextFrame_buffer.
  - simpl. rewrite app_nil_r. destruct Hinv as [Hc Hb].
    destruct (timers st) as [| t ts]; [discriminate |]. injection Hstep as <-.
    split.
    + apply core_inv_perform; [reflexivity |]. now apply core_inv_set_timers.
    + exact Hb.
Qed.

Lemma session_inv_run evs : forall total st st',
  session_inv cfg isTTY total st ->
  run cfg isTTY st evs = Some st' ->
  session_inv cfg isTTY (total ++ stream evs) st'.
Proof.
  induction evs as [| ev evs IH]; intros total st st' Hinv Hrun; simpl in Hrun.
  - injection Hrun as <-. unfold stream. simpl. now rewrite app_nil_r.
  - destruct (step cfg isTTY st ev) as [st1 |] eqn:Hstep; [| discriminate].
    unfold stream. simpl. rewrite app_assoc.
    eapply IH; [| eassumption]. eapply session_inv_step; eassumption.
Qed.

Lemma session_inv_init : session_inv cfg isTTY [] (init isTTY).
Proof. split; [apply core_inv_init | simpl; lia]. Qed.

Lemma reachable_inv evs st :
  run cfg isTTY (init isTTY) evs = Some st ->
  session_inv cfg isTTY (stream evs) st.
Proof.
  intros H. apply (session_inv_run evs [] _ _ session_inv_init H).
Qed.

(** The 'data' handler leaves the process running. *)
Lemma processNextFrame_exited st :
  exited (processNextFrame cfg st) = exited st.
Proof.
  destruct (isProcessing st) eqn:Hp;
    [now rewrite processNextFrame_idle by auto |].
  destruct (frameQueue st) as [| f rest] eqn:Hq;
    [now rewrite processNextFrame_idle by auto |].
  now rewrite (processNextFrame_pop cfg st f rest).
Qed.

Lemma onData_exited fuel chunk st st' :
  onData_fuel cfg fuel chunk st = Some st' -> exited st' = exited st.
Proof.
  unfold onData_fuel. intros H.
  destruct (slice_loop cfg _ _) as [st2 |] eqn:Hloop; [| discriminate].
  injection H as <-.
  destruct (slice_loop_inv cfg (fun s => exited s = exited st)
              ltac:(intros s _ Hs; exact Hs) _ _ _ Hloop eq_refl) as [He _].
  destruct (isProcessing st2); [exact He |].
  now rewrite processNextFrame_exited.
Qed.

(** A trace of decoder output alone always runs to completion when the
    frame size is positive. *)
Lemma run_data_total chunks : forall st,
  0 < frameSize cfg ->
  exited st = false ->
  is_Some (run cfg isTTY st (map Data chunks)).
Proof.
  induction chunks as [| c chunks IH]; intros st Hpos Hlive; simpl; [eauto |].
  unfold step. rewrite Hlive. unfold onData.
  destruct (onData_fuel cfg (S (length (buffer st ++ c))) c st)
    as [st1 |] eqn:Hd.
  - apply IH; [exact Hpos |].
    rewrite (onData_exited _ _ _ _ Hd). exact Hlive.
  - exfalso. unfold onData_fuel in Hd.
    destruct (slice_loop_terminates cfg Hpos (S (length (buffer st ++ c)))
                (set_buffer (buffer st ++ c) st)) as [st2 E].
    + simpl. lia.
    + rewrite E in Hd. discriminate.
Qed.

End Invariants.

(** ** C2: the frame assembler *)

Lemma stream_data (chunks : list (list Byte.byte)) :
  stream (map Data chunks) = concat chunks.
Proof.
  unfold stream. rewrite map_map. simpl. now rewrite map_id.
Qed.



(** ** C4: the bounded queue *)

(** C4. Between callbacks the queue holds at most 30 frames and is a
    suffix of the sequence of pushed frames (so it keeps their order);
    a push onto 30 queued frames drops the oldest and appends the new one,
    leaving 30; a push onto fewer appends; and [processNextFrame] renders
    the head of the queue and leaves the rest. *)
Theorem C4_bounded_queue (cfg : RenderConfig) (isTTY : bool) :
  (forall (evs : list event) (st : state),
     run cfg isTTY (init isTTY) evs = Some st ->
     length (frameQueue st) <= 30 /\ frameQueue st `suffix_of` emitted st)
  /\ (forall (q : list frame) (f : frame),
        length q = 30 ->
        enqueue q f = drop 1 q ++ [f] /\ length (enqueue q f) = 30)
  /\ (forall (q : list frame) (f : frame),
        length q < 30 -> enqueue q f = q ++ [f])
  /\ (forall (st : state),
        frameQueue (slice_step cfg st)
        = enqueue (frameQueue st) (take (frameSize cfg) (buffer st)))
  /\ (forall (st : state) (f : frame) (rest : list frame),
        isProcessing st = false -> frameQueue st = f :: rest ->
        frameQueue (processNextFrame cfg st) = rest
        /\ log (processNextFrame cfg st)
           = log st ++ first_frame_effects st
             ++ [StdoutWrite (render_blob cfg f)] ++ reschedule rest).
Proof.
  repeat split.
  - apply reachable_inv in H as [Hc _]. exact (ci_bound _ _ _ _ Hc).
  - apply reachable_inv in H as [Hc _]. exact (ci_fifo _ _ _ _ Hc).
  - now apply enqueue_full.
  - rewrite enqueue_full by assumption.
    rewrite length_app, length_drop. simpl. lia.
  - intros q f. apply enqueue_below.
  - now rewrite (processNextFrame_pop cfg st f rest).
  - now rewrite (processNextFrame_pop cfg st f rest).
Qed.

Lemma C4_bounded_queue_witness :
  length (replicate 30 black4) = 30
  /\ enqueue (replicate 30 black4) white4 = replicate 29 black4 ++ [white4].
Proof.
  assert (H : length (replicate 30 black4) = 30) by reflexivity.
  split; [exact H |].
  apply (proj1 (proj1 (proj2 (C4_bounded_queue cfg4 true))
                  (replicate 30 black4) white4 H)).
Defined.

(** ** C7: teardown *)

Lemma count_occ_filter (p : effect -> bool) (x : effect) (l : list effect) :
  p x = true ->
  count_occ effect_eq_dec (List.filter p l) x = count_occ effect_eq_dec l x.
Proof.
  intros Hp. induction l as [| e l IH]; [reflexivity |].
  cbn [List.filter]. destruct (p e) eqn:He.
  - cbn [count_occ]. destruct (effect_eq_dec e x); now rewrite IH.
  - cbn [count_occ]. destruct (effect_eq_dec e x) as [-> | _]; [congruence |].
    exact IH.
Qed.

Lemma cleanup_cleanedUp (isTTY : bool) (st : state) :
  cleanedUp (cleanup isTTY st) = true.
Proof.
  destruct (cleanedUp st) eqn:Hc.
  - now rewrite cleanup_done.
  - now rewrite cleanup_first.
Qed.

(** A [cleanup] call with the guard set changes nothing; [cleanup]
    always leaves the guard set, and the first call performs the teardown
    effects.  After any sequence of events the teardown effects in the log
    are the teardown sequence exactly once if the guard is set and none
    otherwise, so each subprocess has been killed once or not at all. *)
Lemma teardown_once (cfg : RenderConfig) (isTTY : bool) :
  (forall st : state, cleanedUp st = true -> cleanup isTTY st = st)
  /\ (forall st : state, cleanedUp (cleanup isTTY st) = true)
  /\ (forall st : state,
        cleanedUp st = false ->
        log (cleanup isTTY st) = log st ++ teardown_effects isTTY st)
  /\ (forall (evs : list event) (st : state),
        run cfg isTTY (init isTTY) evs = Some st ->
        List.filter is_teardown (log st)
        = (if cleanedUp st then teardown_sequence isTTY else [])
        /\ count_occ effect_eq_dec (log st) (Kill Ffmpeg)
           = (if cleanedUp st then 1 else 0)
        /\ count_occ effect_eq_dec (log st) (Kill AudioPlayer)
           = (if cleanedUp st then 1 else 0)).
Proof.
  split; [| split; [| split; [| ]]].
  - apply cleanup_done.
  - apply cleanup_cleanedUp.
  - intros st Hc. now rewrite cleanup_first.
  - intros evs st Hrun.
    apply reachable_inv in Hrun as [Hc _].
    pose proof (ci_teardown _ _ _ _ Hc) as Ht.
    split; [exact Ht |]. split.
    + rewrite <- (count_occ_filter is_teardown) by reflexivity. rewrite Ht.
      destruct (cleanedUp st), isTTY; reflexivity.
    + rewrite <- (count_occ_filter is_teardown) by reflexivity. rewrite Ht.
      destruct (cleanedUp st), isTTY; reflexivity.
Qed.

(** While the process runs, the decoder's 'error' and 'close' handlers
    return, leave the guard set, and end by calling [resolve]. *)
Lemma decoder_end_resolves (cfg : RenderConfig) (isTTY : bool) (st : state) :
  exited st = false ->
  (forall enoent : bool,
     exists st', step cfg isTTY st (FfmpegError enoent) = Some st'
                 /\ cleanedUp st' = true
                 /\ last (log st') = Some Resolve)
  /\ (exists st', step cfg isTTY st FfmpegClose = Some st'
                  /\ cleanedUp st' = true
                  /\ last (log st') = Some Resolve).
Proof.
  intros Hlive. unfold step. rewrite Hlive. split.
  - intros enoent. eexists. split; [reflexivity |].
    unfold onFfmpegError. cbn [perform set_log cleanedUp log].
    split; [apply cleanup_cleanedUp | apply last_snoc].
  - eexists. split; [reflexivity |].
    unfold onFfmpegClose. cbn [perform set_log cleanedUp log].
    split; [apply cleanup_cleanedUp | apply last_snoc].
Qed.

(** Once the process has ended no callback runs. *)
Lemma step_exited (cfg : RenderConfig) (isTTY : bool) (st : state)
    (ev : event) :
  exited st = true -> step cfg isTTY st ev = None.
Proof. intros H. unfold step. now rewrite H. Qed.

Lemma run_exited (cfg : RenderConfig) (isTTY : bool) (st st' : state)
    (evs : list event) :
  exited st = true -> run cfg isTTY st evs = Some st' -> evs = [].
Proof.
  intros H. destruct evs as [| ev evs]; [reflexivity |].
  simpl. now rewrite step_exited.
Qed.

(** C7.  The claim fails on the code where the audio player cannot be
    started: [audioPlayer] has no 'error' listener, so its 'error' event is
    thrown and ends the process.  On a host with neither ffmpeg nor ffplay
    both spawns fail and the audio player's event comes first: the process
    ends with the terminal in raw mode, no teardown effect performed and
    [resolve] never called, and the decoder's 'error' handler, which would
    have reported the missing decoder, torn down and resolved, never runs.
    The same holds whenever the event arrives: the trace ends there. *)
Theorem C7_audio_error_uncaught :
  run cfg4 true (init true) [AudioError] = Some (onAudioError (init true))
  /\ log (onAudioError (init true))
     = [Spawn AudioPlayer; Spawn Ffmpeg; SetRawMode true; StdinResume;
        AddKeyListener; Uncaught AudioPlayer]
  /\ cleanedUp (onAudioError (init true)) = false
  /\ run cfg4 true (init true) [AudioError; FfmpegError true] = None
  /\ (exists st : state,
        run cfg4 true (init true) [FfmpegError true] = Some st
        /\ last (log st) = Some Resolve)
  /\ (forall (cfg : RenderConfig) (isTTY : bool) (evs : list event)
             (st : state),
        run cfg isTTY (init isTTY) (AudioError :: evs) = Some st ->
        evs = []
        /\ st = onAudioError (init isTTY)
        /\ ~ In Resolve (log st)
        /\ List.filter is_teardown (log st) = []
        /\ cleanedUp st = false)
  /\ (forall (cfg : RenderConfig) (isTTY : bool) (before after : list event)
             (st : state),
        run cfg isTTY (init isTTY) (before ++ AudioError :: after) = Some st ->
        after = []
        /\ exited st = true
        /\ last (log st) = Some (Uncaught AudioPlayer)
        /\ forall ev : event, step cfg isTTY st ev = None).
Proof.
  split; [reflexivity |]. split; [reflexivity |]. split; [reflexivity |].
  split; [reflexivity |].
  split; [eexists; split; [reflexivity | vm_compute; reflexivity] |].
  split.
  - intros cfg isTTY evs st Hrun. cbn [run] in Hrun.
    change (step cfg isTTY (init isTTY) AudioError)
      with (Some (onAudioError (init isTTY))) in Hrun.
    cbv iota beta in Hrun.
    pose proof (run_exited cfg isTTY (onAudioError (init isTTY)) _ _
                  eq_refl Hrun) as ->.
    injection Hrun as <-.
    split; [reflexivity |]. split; [reflexivity |].
    destruct isTTY; (split; [| split; reflexivity]);
      simpl; intuition discriminate.
  - intros cfg isTTY before. induction before as [| ev before IH] using rev_ind.
    + intros after st Hrun. cbn [app run] in Hrun.
      change (step cfg isTTY (init isTTY) AudioError)
        with (Some (onAudioError (init isTTY))) in Hrun.
      cbv iota beta in Hrun.
      pose proof (run_exited cfg isTTY (onAudioError (init isTTY)) _ _
                    eq_refl Hrun) as ->.
      injection Hrun as <-.
      split; [reflexivity |]. split; [reflexivity |].
      split; [apply last_snoc |]. intros ev. reflexivity.
    + clear IH. intros after st Hrun.
      assert (Hsplit : forall (l1 l2 : list event) (s s' : state),
                run cfg isTTY s (l1 ++ l2) = Some s' ->
                exists m, run cfg isTTY s l1 = Some m
                          /\ run cfg isTTY m l2 = Some s').
      { induction l1 as [| e l1 IHl]; intros l2 s s' H; [eauto |].
        cbn [app run] in *.
        destruct (step cfg isTTY s e) as [m |]; [| discriminate].
        now apply IHl. }
      apply Hsplit in Hrun as (m & _ & Hrun). cbn [run] in Hrun.
      destruct (step cfg isTTY m AudioError) as [m' |] eqn:Hs;
        [| discriminate].
      unfold step in Hs. destruct (exited m); [discriminate |].
      injection Hs as <-.
      pose proof (run_exited cfg isTTY (onAudioError m) _ _ eq_refl Hrun)
        as ->.
      injection Hrun as <-.
      split; [reflexivity |]. split; [reflexivity |].
      split; [apply last_snoc |]. intros e. reflexivity.
Qed.

(** ** C8: first-frame set-up *)

Lemma render_all_log (cfg : RenderConfig) (frames : list frame) : forall st,
  log (foldl (fun s f => renderFrame cfg f s) st frames)
  = log st
    ++ match frames with [] => [] | _ :: _ => first_frame_effects st end
    ++ map (fun f => StdoutWrite (render_blob cfg f)) frames.
Proof.
  induction frames as [| f frames IH]; intros st.
  - simpl. now rewrite app_nil_r.
  - cbn [foldl map]. rewrite IH, renderFrame_eq.
    cbn [set_frameCount set_firstFrame perform set_log log].
    replace (match frames with [] => [] | _ :: _ => _ end) with (@nil effect)
      by (destruct frames; reflexivity).
    cbn [app]. rewrite <- !app_assoc. reflexivity.
Qed.

(** C8. A [renderFrame] call appends, when [firstFrame] is set, the screen
    clear and the cursor-hide write, and then in every case the write of
    the frame's blob, and clears [firstFrame].  So rendering any frames
    [f :: frames] in a fresh session performs the clear and the hide once,
    before the first blob, and one blob write per frame.  After any
    sequence of events the log holds the cursor-hide write once if a frame
    has been rendered and not at all otherwise, and the screen clears in
    it are that one plus the one of teardown. *)
Theorem C8_first_frame_setup (cfg : RenderConfig) (isTTY : bool) :
  (forall (f : frame) (st : state),
     log (renderFrame cfg f st)
     = log st
       ++ (if firstFrame st then [ConsoleClear; StdoutWrite cursor_hide] else [])
       ++ [StdoutWrite (render_blob cfg f)]
     /\ firstFrame (renderFrame cfg f st) = false
     /\ frameCount (renderFrame cfg f st) = S (frameCount st))
  /\ (forall (f : frame) (frames : list frame) (st : state),
        firstFrame st = true ->
        log (foldl (fun s f => renderFrame cfg f s) st (f :: frames))
        = log st ++ [ConsoleClear; StdoutWrite cursor_hide]
          ++ map (fun f => StdoutWrite (render_blob cfg f)) (f :: frames))
  /\ (forall (evs : list event) (st : state),
        run cfg isTTY (init isTTY) evs = Some st ->
        length (List.filter is_hide (log st))
        = (if frameCount st =? 0 then 0 else 1)
        /\ length (List.filter is_clear (log st))
           = (if frameCount st =? 0 then 0 else 1)
             + (if cleanedUp st then 1 else 0)).
Proof.
  split; [| split].
  - intros f st. rewrite renderFrame_eq.
    cbn [set_frameCount set_firstFrame perform set_log log firstFrame frameCount].
    unfold first_frame_effects. auto.
  - intros f frames st Hff. rewrite render_all_log.
    unfold first_frame_effects. now rewrite Hff.
  - intros evs st Hrun. apply reachable_inv in Hrun as [Hc _].
    rewrite <- (ci_first _ _ _ _ Hc).
    split; [exact (ci_hide _ _ _ _ Hc) | exact (ci_clear _ _ _ _ Hc)].
Qed.

Lemma C8_first_frame_setup_witness :
  firstFrame (init true) = true
  /\ log (foldl (fun s f => renderFrame cfg4 f s) (init true) [black4; white4])
     = log (init true) ++ [ConsoleClear; StdoutWrite cursor_hide]
       ++ [StdoutWrite (render_blob cfg4 black4);
           StdoutWrite (render_blob cfg4 white4)].
Proof.
  assert (H : firstFrame (init true) = true) by reflexivity.
  split; [exact H |].
  exact (proj1 (proj2 (C8_first_frame_setup cfg4 true))
           black4 [white4] (init true) H).
Defined.

(** ** C1: cancellation *)

(** C1 (the code at two failing inputs). Four columns, the standard ramp.
    First trace: a chunk holding two frames arrives, the first is rendered
    and the second stays queued behind a pending [setImmediate]; the key
    'Q' runs the teardown and arms the 100 ms timer; the pending callback
    runs next and writes the second frame after the teardown.  Second
    trace: the key 'Q' comes first, and a chunk the decoder had already
    written is delivered afterwards: the 'data' handler renders it, with
    the screen clear and cursor hide of a first frame, after the
    teardown. *)
Theorem C1_frame_rendered_after_cancel :
  playVideoAscii_config (Some 4%Z) None "standard" = Some cfg4
  /\ (exists st,
        run cfg4 true (init true)
            [Data (black4 ++ white4); Key [Byte.x51]; Immediate] = Some st
        /\ log st
           = log (init true)
             ++ [ConsoleClear; StdoutWrite cursor_hide;
                 StdoutWrite (render_blob cfg4 black4); SetImmediate;
                 SetRawMode false; StdinPause; RemoveKeyListener;
                 Kill Ffmpeg; Kill AudioPlayer;
                 StdoutWrite cursor_show; ConsoleClear;
                 SetTimeout 100;
                 StdoutWrite (render_blob cfg4 white4)]
        /\ cleanedUp st = true
        /\ frameCount st = 2
        /\ timers st = [100])
  /\ (exists st,
        run cfg4 true (init true) [Key [Byte.x51]; Data black4] = Some st
        /\ log st
           = log (init true)
             ++ [SetRawMode false; StdinPause; RemoveKeyListener;
                 Kill Ffmpeg; Kill AudioPlayer;
                 StdoutWrite cursor_show; ConsoleClear;
                 SetTimeout 100;
                 ConsoleClear; StdoutWrite cursor_hide;
                 StdoutWrite (render_blob cfg4 black4)]
        /\ cleanedUp st = true
        /\ frameCount st = 1).
Proof.
  split; [vm_compute; reflexivity |]. split.
  - eexists. split; [vm_compute; reflexivity |].
    repeat split; vm_compute; reflexivity.
  - eexists. split; [vm_compute; reflexivity |].
    repeat split; vm_compute; reflexivity.
Qed.

(** What the cancel key does establish: from any reachable state in which
    the process runs and the listener is installed, the keys 0x03, 'q'
    and 'Q' run the teardown,
    both subprocesses are killed, and the 100 ms timer that resolves the
    promise is armed. *)
Lemma cancel_key_teardown (cfg : RenderConfig) (isTTY : bool)
    (evs : list event) (st : state) (key : list Byte.byte) :
  run cfg isTTY (init isTTY) evs = Some st ->
  exited st = false ->
  keyListener st = true ->
  first_byte_is_etx key || lower_is_q key = true ->
  exists st',
    step cfg isTTY st (Key key) = Some st'
    /\ cleanedUp st' = true
    /\ log st' = log st ++ teardown_effects isTTY st ++ [SetTimeout 100]
    /\ In (Kill Ffmpeg) (teardown_effects isTTY st)
    /\ In (Kill AudioPlayer) (teardown_effects isTTY st)
    /\ timers st' = timers st ++ [100].
Proof.
  intros Hrun Hlive Hk Hkey. apply reachable_inv in Hrun as [Hc _].
  assert (Hcu : cleanedUp st = false).
  { pose proof (ci_listener _ _ _ _ Hc) as Hl. rewrite Hk in Hl.
    destruct (cleanedUp st); [| reflexivity].
    now rewrite andb_false_r in Hl. }
  eexists. split; [unfold step; rewrite Hlive, Hk; reflexivity |].
  unfold onKeyPress. rewrite Hkey, cleanup_first by assumption.
  cbn [set_timers perform set_log cleanedUp log timers].
  rewrite <- app_assoc. repeat split.
  - unfold teardown_effects. rewrite (ci_ffmpeg _ _ _ _ Hc), Hcu.
    destruct isTTY; simpl; tauto.
  - unfold teardown_effects.
    rewrite (ci_ffmpeg _ _ _ _ Hc), (ci_audio _ _ _ _ Hc), Hcu.
    destruct isTTY; simpl; tauto.
Qed.

(** ** C10: the charset fallback *)

(** C10 (the code at the failing input). The name "constructor" is not a
    named ramp, yet [CHARSETS["constructor"]] is the inherited [Object]
    function, which is truthy: no fallback happens, no index selects a
    character of it, and every cell ends with the text "undefined". *)
Theorem C10_inherited_name_not_fallback :
  CHARSETS !! "constructor" = None
  /\ select_chars "constructor" = VFunction 1
  /\ select_chars "constructor" <> VString standard
  /\ (forall r g b : option Byte.byte,
        index (select_chars "constructor")
              (charIndex (select_chars "constructor") r g b) = None)
  /\ cell (select_chars "constructor")
          (Some Byte.x00) (Some Byte.x00) (Some Byte.x00)
     = ESC :: lit "[38;2;0;0;0mundefined".
Proof.
  split; [vm_compute; reflexivity |].
  assert (H : select_chars "constructor" = VFunction 1)
    by (vm_compute; reflexivity).
  split; [exact H |]. rewrite H.
  split; [discriminate |]. split; [reflexivity |].
  vm_compute. reflexivity.
Qed.

(** Names that are neither own nor inherited properties do fall back. *)
Lemma select_chars_fallback (name : string) :
  CHARSETS !! name = None -> Object_prototype !! name = None ->
  select_chars name = VString standard.
Proof.
  intros Ho Hp. unfold select_chars, get. rewrite Ho, Hp. reflexivity.
Qed.

Lemma select_chars_named (name : string) (ramp : jsstring) :
  CHARSETS !! name = Some ramp -> select_chars name = VString ramp.
Proof.
  intros H. unfold select_chars, get. rewrite H.
  apply CHARSETS_length in H. unfold or_else, truthy.
  destruct (length ramp) eqn:E; [lia | reflexivity].
Qed.

(** ** C3 and C5: brightness to ramp index *)

Lemma spec_rampIndex_sum (r g b : nat) (len : nat) :
  spec_rampIndex (Z.of_nat (r + g + b)) 0 0 (Z.of_nat len)
  = spec_rampIndex (Z.of_nat r) (Z.of_nat g) (Z.of_nat b) (Z.of_nat len).
Proof.
  unfold spec_rampIndex. do 5 f_equal. lia.
Qed.

Lemma expected_index_bytes (len : nat) (r g b : Byte.byte) :
  expected_index len (byte_nat r + byte_nat g + byte_nat b)
  = if (len =? 10) && (byte_nat r + byte_nat g + byte_nat b =? 425)
    then 4%Z
    else spec_rampIndex (Z.of_nat (byte_nat r)) (Z.of_nat (byte_nat g))
                        (Z.of_nat (byte_nat b)) (Z.of_nat len).
Proof.
  unfold expected_index. now rewrite spec_rampIndex_sum.
Qed.

Lemma byte_sum_le (r g b : Byte.byte) :
  byte_nat r + byte_nat g + byte_nat b <= 765.
Proof.
  pose proof (byte_nat_lt r). pose proof (byte_nat_lt g).
  pose proof (byte_nat_lt b). lia.
Qed.

Lemma charIndex_named (name : string) (ramp : jsstring) (r g b : Byte.byte) :
  CHARSETS !! name = Some ramp ->
  to_Z (charIndex (VString ramp) (Some r) (Some g) (Some b))
  = Some (expected_index (length ramp) (byte_nat r + byte_nat g + byte_nat b)).
Proof.
  intros H. rewrite charIndex_sum.
  apply index_of_sum_table; [eapply CHARSETS_length; eassumption |].
  pose proof (byte_sum_le r g b). lia.
Qed.

Lemma index_at (ramp : jsstring) (x : number) (z : Z) :
  to_Z x = Some z -> (0 <= z)%Z ->
  array_index x = Some (Z.to_nat z)
  /\ index (VString ramp) x = ramp !! Z.to_nat z.
Proof.
  intros Hx Hz. unfold index, array_index. rewrite Hx.
  destruct (0 <=? z)%Z eqn:E; [auto | lia].
Qed.

(** C3 (amended). For every named ramp and every pixel, the brightness
    is the double nearest to (r+g+b)/3, and the index the renderer
    computes in double precision, as floor(brightness/255*(rampLength-1)),
    is the floor of that product over the rationals, except when
    r+g+b = 425 with a ramp of 10 characters, where it is 4.  A black
    pixel selects the first character of the ramp, a white pixel the last,
    and the index does not decrease when r+g+b grows. *)
Theorem C3_ramp_index (name : string) (ramp : jsstring) :
  CHARSETS !! name = Some ramp ->
  (forall r g b : Byte.byte,
     brightness (Some r) (Some g) (Some b)
     = div (of_Z (Z.of_nat (byte_nat r + byte_nat g + byte_nat b))) (of_Z 3))
  /\ (forall r g b : Byte.byte,
     to_Z (charIndex (VString ramp) (Some r) (Some g) (Some b))
     = Some (if (length ramp =? 10)
                && (byte_nat r + byte_nat g + byte_nat b =? 425)
             then 4%Z
             else spec_rampIndex (Z.of_nat (byte_nat r)) (Z.of_nat (byte_nat g))
                                 (Z.of_nat (byte_nat b))
                                 (Z.of_nat (length ramp))))
  /\ index (VString ramp)
           (charIndex (VString ramp)
                      (Some Byte.x00) (Some Byte.x00) (Some Byte.x00))
     = ramp !! 0
  /\ is_Some (ramp !! 0)
  /\ index (VString ramp)
           (charIndex (VString ramp)
                      (Some Byte.xff) (Some Byte.xff) (Some Byte.xff))
     = ramp !! (length ramp - 1)
  /\ is_Some (ramp !! (length ramp - 1))
  /\ (forall r g b r' g' b' : Byte.byte,
        byte_nat r + byte_nat g + byte_nat b
        <= byte_nat r' + byte_nat g' + byte_nat b' ->
        exists i j : Z,
          to_Z (charIndex (VString ramp) (Some r) (Some g) (Some b)) = Some i
          /\ to_Z (charIndex (VString ramp) (Some r') (Some g') (Some b')) = Some j
          /\ (i <= j)%Z).
Proof.
  intros Hname.
  pose proof (CHARSETS_length _ _ Hname) as Hlen.
  destruct (expected_index_facts _ Hlen) as (_ & Hfirst & Hlast).
  split; [| split; [| split; [| split; [| split; [| split]]]]].
  - intros r g b. unfold brightness. rewrite !elem_num_nz.
    now rewrite add_bytes_exact by apply byte_nat_lt.
  - intros r g b. rewrite (charIndex_named name) by assumption.
    now rewrite expected_index_bytes.
  - pose proof (charIndex_named name ramp Byte.x00 Byte.x00 Byte.x00 Hname) as H.
    change (byte_nat Byte.x00 + byte_nat Byte.x00 + byte_nat Byte.x00)
      with 0 in H.
    rewrite Hfirst in H. now apply (index_at ramp) in H as [_ ->].
  - apply lookup_lt_is_Some. lia.
  - pose proof (charIndex_named name ramp Byte.xff Byte.xff Byte.xff Hname) as H.
    change (byte_nat Byte.xff + byte_nat Byte.xff + byte_nat Byte.xff)
      with 765 in H.
    rewrite Hlast in H. apply (index_at ramp) in H as [_ ->]; [| lia].
    f_equal. lia.
  - apply lookup_lt_is_Some. lia.
  - intros r g b r' g' b' Hle.
    exists (expected_index (length ramp) (byte_nat r + byte_nat g + byte_nat b)),
      (expected_index (length ramp) (byte_nat r' + byte_nat g' + byte_nat b')).
    split; [now apply (charIndex_named name) |].
    split; [now apply (charIndex_named name) |].
    apply expected_index_mono; [assumption | assumption | apply byte_sum_le].
Qed.

Lemma C3_ramp_index_witness :
  CHARSETS !! "standard" = Some standard
  /\ to_Z (charIndex (VString standard)
                     (Some Byte.x8d) (Some Byte.x8e) (Some Byte.x8e))
     = Some 4%Z.
Proof.
  assert (H : CHARSETS !! "standard" = Some standard) by reflexivity.
  split; [exact H |].
  exact (proj1 (proj2 (C3_ramp_index "standard" standard H))
           Byte.x8d Byte.x8e Byte.x8e).
Defined.

(** C3 as stated fails for the pixel (141, 142, 142) on the standard ramp:
    the rational formula gives 5, the program selects index 4. *)
Lemma C3_counterexample :
  CHARSETS !! "standard" = Some standard
  /\ spec_rampIndex 141 142 142 (Z.of_nat (length standard)) = 5%Z
  /\ to_Z (charIndex (VString standard)
                     (Some Byte.x8d) (Some Byte.x8e) (Some Byte.x8e))
     = Some 4%Z
  /\ to_Z (charIndex (VString standard)
                     (Some Byte.x8d) (Some Byte.x8e) (Some Byte.x8e))
     <> Some (spec_rampIndex 141 142 142 (Z.of_nat (length standard))).
Proof.
  split; [reflexivity |]. split; [vm_compute; reflexivity |].
  split; [vm_compute; reflexivity |]. vm_compute. discriminate.
Qed.

(** C5 (amended). Every named ramp has at least one character, it is the
    ramp the renderer uses under that name, and for every pixel the
    computed index is an array index below the ramp's length, so
    [chars[charIndex]] is a character of the ramp. *)
Theorem C5_ramp_bounds (name : string) (ramp : jsstring) :
  CHARSETS !! name = Some ramp ->
  1 <= length ramp
  /\ select_chars name = VString ramp
  /\ forall r g b : Byte.byte,
       exists (i : nat) (c : char),
         array_index (charIndex (VString ramp) (Some r) (Some g) (Some b))
         = Some i
         /\ i < length ramp
         /\ ramp !! i = Some c
         /\ index (VString ramp)
                  (charIndex (VString ramp) (Some r) (Some g) (Some b))
            = Some c.
Proof.
  intros Hname.
  pose proof (CHARSETS_length _ _ Hname) as Hlen.
  split; [lia |]. split; [now apply select_chars_named |].
  intros r g b.
  pose proof (charIndex_named name ramp r g b Hname) as H.
  pose proof (expected_index_range (length ramp) _ Hlen (byte_sum_le r g b))
    as Hrange.
  apply (index_at ramp) in H as [Ha Hi]; [| lia].
  set (i := Z.to_nat (expected_index (length ramp)
                        (byte_nat r + byte_nat g + byte_nat b))) in *.
  assert (Hlt : i < length ramp) by lia.
  destruct (lookup_lt_is_Some_2 ramp i Hlt) as [c Hc].
  exists i, c. rewrite Hi. auto.
Qed.

Lemma C5_ramp_bounds_witness :
  CHARSETS !! "solid" = Some solid /\ 1 <= length solid.
Proof.
  assert (H : CHARSETS !! "solid" = Some solid) by reflexivity.
  split; [exact H |].
  exact (proj1 (C5_ramp_bounds "solid" solid H)).
Defined.

(** C5 as stated fails: the ramp named "solid" has one character. *)
Lemma C5_counterexample :
  CHARSETS !! "solid" = Some solid
  /\ length solid = 1
  /\ ~ (forall (name : string) (ramp : jsstring),
          CHARSETS !! name = Some ramp -> 2 <= length ramp).
Proof.
  split; [reflexivity |]. split; [reflexivity |].
  intros H. specialize (H "solid" solid eq_refl). simpl in H. lia.
Qed.

(** ** C9: derived geometry *)

Lemma derive_frameSize_exact (w : Z) :
  (1 <= w <= 67108864)%Z ->
  derive_frameSize w = of_Z (w * (99 * w / 320) * 3).
Proof.
  intros Hw. unfold derive_frameSize.
  rewrite derive_height_exact by (change (2 ^ 43)%Z with 8796093022208%Z; lia).
  set (h := (99 * w / 320)%Z).
  assert (Hh : (0 <= h <= 33554432)%Z).
  { subst h. split; [apply Z.div_pos; lia |].
    apply Z.div_le_upper_bound; lia. }
  assert (Hwh : (0 <= w * h <= 67108864 * 33554432)%Z).
  { split; [apply Z.mul_nonneg_nonneg; lia |].
    apply Z.mul_le_mono_nonneg; lia. }
  rewrite mul_of_Z
    by (change (2 ^ 53)%Z with 9007199254740992%Z; lia).
  rewrite mul_of_Z
    by (change (2 ^ 53)%Z with 9007199254740992%Z; lia).
  reflexivity.
Qed.

(** C9 (amended). For every width from 1 to 2^26 = 67108864 the height the
    program computes in double precision is floor(width * 9/16 * 0.55)
    over the rationals, the frame size is width * height * 3, and these are
    the dimensions of the session's configuration; the height alone is
    that floor for every width below 2^43.  Width 80 gives height 24 and
    5760 bytes per frame. *)
Theorem C9_derived_geometry :
  (forall w : Z,
     (1 <= w <= 67108864)%Z ->
     to_Z (derive_height w) = Some (spec_height w)
     /\ to_Z (derive_frameSize w) = Some (w * spec_height w * 3)%Z
     /\ forall (columns : option Z) (name : string),
          playVideoAscii_config (Some w) columns name
          = Some {| width := Z.to_nat w;
                    height := Z.to_nat (spec_height w);
                    chars := select_chars name |})
  /\ (forall w : Z,
        (1 <= w < 2 ^ 43)%Z ->
        to_Z (derive_height w) = Some (spec_height w))
  /\ spec_height 80 = 24%Z
  /\ to_Z (derive_height 80) = Some 24%Z
  /\ to_Z (derive_frameSize 80) = Some 5760%Z
  /\ (forall (columns : option Z) (name : string),
        option_map frameSize (playVideoAscii_config (Some 80%Z) columns name)
        = Some 5760)
  /\ (forall name : string,
        option_map frameSize (playVideoAscii_config None None name)
        = Some 5760).
Proof.
  assert (Hheight : forall w : Z, (1 <= w < 2 ^ 43)%Z ->
            to_Z (derive_height w) = Some (spec_height w)
            /\ (0 <= spec_height w < 2 ^ 53)%Z).
  { intros w Hw. rewrite derive_height_exact, spec_height_div by assumption.
    assert (H : (0 <= 99 * w / 320 < 2 ^ 53)%Z).
    { change (2 ^ 43)%Z with 8796093022208%Z in Hw.
      change (2 ^ 53)%Z with 9007199254740992%Z.
      split; [apply Z.div_pos; lia |].
      apply Z.div_lt_upper_bound; lia. }
    split; [now apply to_Z_of_Z | exact H]. }
  assert (H80 : to_Z (derive_height 80) = Some 24%Z)
    by (vm_compute; reflexivity).
  split; [| split; [| split; [| split; [| split; [| split]]]]].
  - intros w Hw.
    assert (Hw' : (1 <= w < 2 ^ 43)%Z)
      by (change (2 ^ 43)%Z with 8796093022208%Z; lia).
    destruct (Hheight w Hw') as [H1 Hrange].
    split; [exact H1 |]. split.
    + rewrite derive_frameSize_exact, spec_height_div by assumption.
      apply to_Z_of_Z.
      assert (Hh : (0 <= 99 * w / 320 <= 33554432)%Z).
      { split; [apply Z.div_pos; lia |].
        apply Z.div_le_upper_bound; lia. }
      assert (Hwh : (0 <= w * (99 * w / 320) <= 67108864 * 33554432)%Z).
      { split; [apply Z.mul_nonneg_nonneg; lia |].
        apply Z.mul_le_mono_nonneg; lia. }
      change (2 ^ 53)%Z with 9007199254740992%Z. lia.
    + intros columns name. unfold playVideoAscii_config, choose_width.
      destruct (Z.eqb_spec w 0) as [| _]; [lia |].
      cbv zeta. rewrite H1.
      destruct (0 <? w)%Z eqn:E1; [| lia].
      destruct (0 <=? spec_height w)%Z eqn:E2; [| lia].
      reflexivity.
  - intros w Hw. apply Hheight, Hw.
  - vm_compute. reflexivity.
  - exact H80.
  - vm_compute. reflexivity.
  - intros columns name. unfold playVideoAscii_config, choose_width.
    cbn [Z.eqb]. cbv zeta. rewrite H80. reflexivity.
  - intros name. unfold playVideoAscii_config, choose_width.
    cbv zeta. rewrite H80. reflexivity.
Qed.

Lemma C9_derived_geometry_witness :
  (1 <= 132 <= 67108864)%Z
  /\ to_Z (derive_height 132) = Some (spec_height 132).
Proof.
  assert (H : (1 <= 132 <= 67108864)%Z) by lia.
  split; [exact H |].
  exact (proj1 (proj1 C9_derived_geometry 132%Z H)).
Defined.

(** C9 as stated fails at width 2^46 + 117: the rational formula gives
    21770330230000, the program computes 21770330230001. *)
Lemma C9_counterexample :
  (0 < 70368744177781)%Z
  /\ spec_height 70368744177781 = 21770330230000%Z
  /\ to_Z (derive_height 70368744177781) = Some 21770330230001%Z
  /\ to_Z (derive_height 70368744177781)
     <> Some (spec_height 70368744177781).
Proof.
  split; [reflexivity |]. split; [vm_compute; reflexivity |].
  split; [vm_compute; reflexivity |]. vm_compute. discriminate.
Qed.

(** ** C6: the rendered text *)

Lemma map_seq_const {A : Type} (g : nat -> A) (c : A) (n : nat) :
  (forall i, i < n -> g i = c) -> map g (seq 0 n) = replicate n c.
Proof.
  induction n as [| n IH]; intros Hg; [reflexivity |].
  rewrite seq_S, map_app, IH by (intros; apply Hg; lia).
  simpl. rewrite Hg by lia.
  now rewrite replicate_S_end || (change (replicate (S n) c) with (c :: replicate n c); now rewrite replicate_cons_app).
Qed.

Lemma map_seq_ext {A : Type} (g h : nat -> A) (n : nat) :
  (forall i, i < n -> g i = h i) -> map g (seq 0 n) = map h (seq 0 n).
Proof.
  intros H. apply map_ext_in. intros i Hi. apply in_seq in Hi. apply H. lia.
Qed.

Lemma black_cell :
  cell (VString standard) (Some Byte.x00) (Some Byte.x00) (Some Byte.x00)
  = [27; 91; 51; 56; 59; 50; 59; 48; 59; 48; 59; 48; 109; 32]%N.
Proof. vm_compute. reflexivity. Qed.

(** The digits the template literal prints for a byte. *)
Lemma tpl_byte_digits (b : Byte.byte) :
  tpl_byte (Some b) = spec_digits (byte_nat b).
Proof. destruct b; vm_compute; reflexivity. Qed.

(** A cell of a named ramp, code unit by code unit. *)
Lemma cell_named (name : string) (ramp : jsstring) (r g b : Byte.byte) :
  CHARSETS !! name = Some ramp ->
  exists glyph : char,
    ramp !! Z.to_nat (expected_index (length ramp)
                        (byte_nat r + byte_nat g + byte_nat b))
    = Some glyph
    /\ cell (VString ramp) (Some r) (Some g) (Some b)
       = [27; 91; 51; 56; 59; 50; 59]%N
         ++ spec_digits (byte_nat r) ++ [59%N]
         ++ spec_digits (byte_nat g) ++ [59%N]
         ++ spec_digits (byte_nat b) ++ [109%N; glyph]
    /\ cell (VString ramp) (Some r) (Some g) (Some b)
       = spec_cell ramp (byte_nat r) (byte_nat g) (byte_nat b).
Proof.
  intros Hname.
  pose proof (CHARSETS_length _ _ Hname) as Hlen.
  pose proof (charIndex_named name ramp r g b Hname) as H.
  pose proof (expected_index_range (length ramp) _ Hlen (byte_sum_le r g b))
    as Hrange.
  apply (index_at ramp) in H as [_ Hi]; [| lia].
  set (i := Z.to_nat (expected_index (length ramp)
                        (byte_nat r + byte_nat g + byte_nat b))) in *.
  assert (Hlt : i < length ramp) by lia.
  destruct (lookup_lt_is_Some_2 ramp i Hlt) as [glyph Hg].
  exists glyph. split; [exact Hg |].
  assert (E : cell (VString ramp) (Some r) (Some g) (Some b)
              = [27; 91; 51; 56; 59; 50; 59]%N
                ++ spec_digits (byte_nat r) ++ [59%N]
                ++ spec_digits (byte_nat g) ++ [59%N]
                ++ spec_digits (byte_nat b) ++ [109%N; glyph]).
  { unfold cell. rewrite Hi. unfold jsstring, char in *. rewrite Hg, !tpl_byte_digits. reflexivity. }
  split; [exact E |].
  rewrite E. unfold spec_cell. fold i.
  rewrite (nth_lookup_Some ramp i 0%N glyph Hg). reflexivity.
Qed.

(** C6. The blob is the cursor-home escape, then for each of the [height]
    rows the cells of its [width] pixels followed by a newline, then the
    colour-reset escape; these are the code units 27 91 72, 10 and
    27 91 48 109.  For a named ramp and a frame of [frameSize] bytes the
    blob is, code unit by code unit, the text the specification
    describes: every pixel has its three bytes, and its cell is
    ESC[38;2;R;G;Bm with these bytes in decimal without leading zeros,
    followed by the one glyph of the ramp that the pixel selects.  An
    all-black frame with the standard ramp renders every cell as
    ESC[38;2;0;0;0m followed by the ramp's first character, a space. *)
Theorem C6_blob_structure (cfg : RenderConfig) (f : frame) :
  render_blob cfg f
  = cursor_home
    ++ concat (map (fun y =>
         concat (map (fun x =>
           let offset := (y * width cfg + x) * 3 in
           cell (chars cfg) (f !! offset) (f !! (offset + 1)) (f !! (offset + 2)))
           (seq 0 (width cfg)))
         ++ [LF]) (seq 0 (height cfg)))
    ++ color_reset
  /\ cursor_home = [27; 91; 72]%N
  /\ color_reset = [27; 91; 48; 109]%N
  /\ LF = 10%N
  /\ (forall (name : string) (ramp : jsstring),
        CHARSETS !! name = Some ramp ->
        chars cfg = select_chars name ->
        length f = frameSize cfg ->
        render_blob cfg f = spec_blob (width cfg) (height cfg) ramp f
        /\ forall y x : nat,
             y < height cfg -> x < width cfg ->
             exists (r g b : Byte.byte) (glyph : char),
               f !! ((y * width cfg + x) * 3) = Some r
               /\ f !! ((y * width cfg + x) * 3 + 1) = Some g
               /\ f !! ((y * width cfg + x) * 3 + 2) = Some b
               /\ ramp !! Z.to_nat (expected_index (length ramp)
                                      (byte_nat r + byte_nat g + byte_nat b))
                  = Some glyph
               /\ render_pixel cfg f y x
                  = [27; 91; 51; 56; 59; 50; 59]%N
                    ++ spec_digits (byte_nat r) ++ [59%N]
                    ++ spec_digits (byte_nat g) ++ [59%N]
                    ++ spec_digits (byte_nat b) ++ [109%N; glyph])
  /\ (forall w h : nat,
        render_blob {| width := w; height := h; chars := VString standard |}
                    (replicate (w * h * 3) Byte.x00)
        = [27; 91; 72]%N
          ++ concat (replicate h
               (concat (replicate w
                  [27; 91; 51; 56; 59; 50; 59; 48; 59; 48; 59; 48; 109; 32]%N)
                ++ [10%N]))
          ++ [27; 91; 48; 109]%N)
  /\ standard !! 0 = Some 32%N.
Proof.
  split; [apply render_blob_rows |].
  split; [reflexivity |]. split; [reflexivity |]. split; [reflexivity |].
  split; [| split; [| reflexivity]].
  - intros name ramp Hname Hchars Hlen.
    rewrite (select_chars_named name ramp Hname) in Hchars.
    assert (Hpix : forall y x k, y < height cfg -> x < width cfg -> k < 3 ->
              f !! ((y * width cfg + x) * 3 + k)
              = Some (nth ((y * width cfg + x) * 3 + k) f Byte.x00)).
    { intros y x k Hy Hx Hk.
      destruct (frame_lookup_is_Some cfg f y x k Hlen Hy Hx Hk) as [v Hv].
      rewrite Hv. f_equal. symmetry. now apply nth_lookup_Some. }
    split.
    + rewrite render_blob_rows. unfold spec_blob.
      change cursor_home with [27; 91; 72]%N.
      change color_reset with [27; 91; 48; 109]%N.
      do 3 f_equal. apply map_seq_ext. intros y Hy.
      unfold row_cells. change [LF] with [10%N]. do 2 f_equal.
      apply map_seq_ext. intros x Hx. cbv zeta.
      unfold render_pixel. rewrite Hchars.
      rewrite <- (Nat.add_0_r ((y * width cfg + x) * 3)) at 1.
      rewrite !Hpix by lia.
      destruct (cell_named name ramp
                  (nth ((y * width cfg + x) * 3 + 0) f Byte.x00)
                  (nth ((y * width cfg + x) * 3 + 1) f Byte.x00)
                  (nth ((y * width cfg + x) * 3 + 2) f Byte.x00) Hname)
        as (_ & _ & _ & E).
      exact E.
    + intros y x Hy Hx.
      pose proof (Hpix y x 0 Hy Hx ltac:(lia)) as H0.
      rewrite Nat.add_0_r in H0.
      pose proof (Hpix y x 1 Hy Hx ltac:(lia)) as H1.
      pose proof (Hpix y x 2 Hy Hx ltac:(lia)) as H2.
      destruct (cell_named name ramp
                  (nth ((y * width cfg + x) * 3) f Byte.x00)
                  (nth ((y * width cfg + x) * 3 + 1) f Byte.x00)
                  (nth ((y * width cfg + x) * 3 + 2) f Byte.x00) Hname)
        as (glyph & Hg & E & _).
      eexists _, _, _, glyph.
      split; [exact H0 |]. split; [exact H1 |]. split; [exact H2 |].
      split; [exact Hg |].
      unfold render_pixel. rewrite Hchars, H0, H1, H2. exact E.
  - intros w h. rewrite render_blob_rows.
    change cursor_home with [27; 91; 72]%N.
    change color_reset with [27; 91; 48; 109]%N.
    do 3 f_equal.
    cbn [width height]. apply map_seq_const. intros y Hy.
    unfold row_cells. cbn [width]. change [LF] with [10%N]. f_equal. f_equal.
    apply map_seq_const. intros x Hx.
    unfold render_pixel. cbn [width chars].
    assert (Hl : forall k, k < 3 ->
              replicate (w * h * 3) Byte.x00 !! ((y * w + x) * 3 + k)
              = Some Byte.x00).
    { intros k Hk. apply lookup_replicate_2. nia. }
    rewrite <- (Nat.add_0_r ((y * w + x) * 3)) at 1.
    rewrite !Hl by lia. apply black_cell.
Qed.

Lemma C6_blob_structure_witness :
  CHARSETS !! "standard" = Some standard
  /\ chars cfg4 = select_chars "standard"
  /\ length mixed4 = frameSize cfg4
  /\ render_blob cfg4 mixed4 = spec_blob (width cfg4) (height cfg4) standard mixed4.
Proof.
  assert (H1 : CHARSETS !! "standard" = Some standard) by reflexivity.
  assert (H2 : chars cfg4 = select_chars "standard") by reflexivity.
  assert (H3 : length mixed4 = frameSize cfg4) by reflexivity.
  split; [exact H1 |]. split; [exact H2 |]. split; [exact H3 |].
  exact (proj1 (proj1 (proj2 (proj2 (proj2 (proj2
           (C6_blob_structure cfg4 mixed4)))))
           "standard" standard H1 H2 H3)).
Defined.

(** * Further properties of the playback session *)

Lemma blob_writes_app (l1 l2 : list effect) :
  blob_writes (l1 ++ l2) = blob_writes l1 ++ blob_writes l2.
Proof.
  induction l1 as [| e l1 IH]; [reflexivity |].
  destruct e; simpl; auto.
  destruct (bool_decide _ || bool_decide _); simpl; congruence.
Qed.

Lemma blob_writes_first_frame (st : state) :
  blob_writes (first_frame_effects st) = [].
Proof. unfold first_frame_effects. destruct (firstFrame st); reflexivity. Qed.

Lemma blob_writes_blob cfg (f : frame) :
  blob_writes [StdoutWrite (render_blob cfg f)] = [render_blob cfg f].
Proof. simpl. now rewrite blob_not_hide, blob_not_show. Qed.

Lemma blob_writes_reschedule (rest : list frame) :
  blob_writes (reschedule rest) = [].
Proof. unfold reschedule. destruct (0 <? length rest); reflexivity. Qed.

Lemma blob_writes_teardown (isTTY : bool) (st : state) :
  blob_writes (teardown_effects isTTY st) = [].
Proof.
  unfold teardown_effects.
  destruct isTTY, (ffmpegKilled st), (audioKilled st); reflexivity.
Qed.

Section Reachable.

Variable cfg : RenderConfig.
Variable isTTY : bool.

(** An invariant [P] of the states between callbacks, with [Q] holding
    while a callback is at work on the queue. *)
Lemma run_invariant (P Q : state -> Prop) :
  P (init isTTY) ->
  (forall st chunk, P st -> Q (set_buffer (buffer st ++ chunk) st)) ->
  (forall st, Q st -> isProcessing st = false ->
              frameSize cfg <= length (buffer st) -> Q (slice_step cfg st)) ->
  (forall st, Q st -> isProcessing st = false ->
              P (processNextFrame cfg st)) ->
  (forall st n, P st -> immediates st = S n -> Q (set_immediates n st)) ->
  (forall st, P st ->
     P (set_timers (timers (cleanup isTTY st) ++ [100])
          (perform [SetTimeout 100] (cleanup isTTY st)))) ->
  (forall st, P st -> P (perform [ReportDecoderMissing] st)) ->
  (forall st, P st -> P (perform [Resolve] (cleanup isTTY st))) ->
  (forall st, P st -> P (onAudioError st)) ->
  (forall st t ts, P st -> timers st = t :: ts ->
     P (perform [Resolve] (set_timers ts st))) ->
  forall evs st, run cfg isTTY (init isTTY) evs = Some st -> P st.
Proof.
  intros Hinit Hbuf Hslice Hnext Himm Hkey Hreport Hclose Haudio Htimeout.
  assert (Hstep : forall total st ev st',
            session_inv cfg isTTY total st -> P st ->
            step cfg isTTY st ev = Some st' -> P st').
  { intros total st ev st' [Hc _] HP Hs.
    pose proof (ci_idle _ _ _ _ Hc) as Hidle.
    unfold step in Hs. destruct (exited st); [discriminate |].
    destruct ev as [chunk | key | enoent | | | |]; simpl in Hs.
    - unfold onData, onData_fuel in Hs.
      destruct (slice_loop cfg _ _) as [st2 |] eqn:Hloop; [| discriminate].
      injection Hs as <-.
      destruct (slice_loop_inv cfg
                  (fun s => Q s /\ isProcessing s = false)
                  ltac:(intros s Hle [HQ Hi]; split;
                        [now apply Hslice | exact Hi])
                  _ _ _ Hloop
                  (conj (Hbuf st chunk HP) Hidle)) as [[HQ Hi] _].
      rewrite Hi. now apply Hnext.
    - destruct (keyListener st); [| discriminate]. injection Hs as <-.
      unfold onKeyPress.
      destruct (first_byte_is_etx key || lower_is_q key); auto.
    - injection Hs as <-. unfold onFfmpegError.
      destruct enoent; auto.
    - injection Hs as <-. now apply Hclose.
    - injection Hs as <-. now apply Haudio.
    - destruct (immediates st) as [| n] eqn:E; [discriminate |].
      injection Hs as <-. apply Hnext; [now apply (Himm st n) |].
      exact Hidle.
    - destruct (timers st) as [| t ts] eqn:E; [discriminate |].
      injection Hs as <-. now apply (Htimeout st t ts). }
  assert (Hrun : forall evs total st st',
            session_inv cfg isTTY total st -> P st ->
            run cfg isTTY st evs = Some st' -> P st').
  { induction evs as [| ev evs IH]; intros total st st' Hinv HP Hr;
      simpl in Hr.
    - now injection Hr as <-.
    - destruct (step cfg isTTY st ev) as [st1 |] eqn:Hs; [| discriminate].
      eapply IH; [| | eassumption].
      + eapply session_inv_step; eassumption.
      + eapply Hstep; eassumption. }
  intros evs st Hr.
  exact (Hrun evs [] _ _ (session_inv_init cfg isTTY) Hinit Hr).
Qed.

End Reachable.

(** ** What the handlers leave alone *)

Section Frames.

Variable cfg : RenderConfig.
Variable isTTY : bool.

(** [cleanup] touches the teardown flags and the log only, and writes no
    frame and settles nothing. *)
Lemma cleanup_frame (st : state) :
  exists es : list effect,
    log (cleanup isTTY st) = log st ++ es
    /\ blob_writes es = []
    /\ ~ In Resolve es
    /\ (cleanedUp st = false -> In (StdoutWrite cursor_show) es)
    /\ buffer (cleanup isTTY st) = buffer st
    /\ emitted (cleanup isTTY st) = emitted st
    /\ frameQueue (cleanup isTTY st) = frameQueue st
    /\ frameCount (cleanup isTTY st) = frameCount st
    /\ immediates (cleanup isTTY st) = immediates st
    /\ timers (cleanup isTTY st) = timers st
    /\ cleanedUp (cleanup isTTY st) = true.
Proof.
  destruct (cleanedUp st) eqn:E.
  - exists []. rewrite (cleanup_done isTTY st E), app_nil_r.
    repeat split; auto. discriminate.
  - exists (teardown_effects isTTY st). rewrite (cleanup_first isTTY st E).
    cbn [log buffer emitted frameQueue frameCount immediates timers cleanedUp].
    rewrite blob_writes_teardown.
    repeat split; auto.
    + unfold teardown_effects.
      destruct isTTY, (ffmpegKilled st), (audioKilled st); simpl;
        intuition discriminate.
    + intros _. unfold teardown_effects.
      rewrite !in_app_iff. do 4 right. now left.
Qed.

(** [processNextFrame], when idle, writes the head of the queue and
    nothing else. *)
Lemma processNextFrame_frame (st : state) :
  isProcessing st = false ->
  exists es : list effect,
    log (processNextFrame cfg st) = log st ++ es
    /\ blob_writes es = map (render_blob cfg) (take 1 (frameQueue st))
    /\ ~ In Resolve es
    /\ frameQueue (processNextFrame cfg st) = drop 1 (frameQueue st)
    /\ frameCount (processNextFrame cfg st)
       = frameCount st + length (take 1 (frameQueue st))
    /\ immediates (processNextFrame cfg st)
       = immediates st + length (reschedule (drop 1 (frameQueue st)))
    /\ emitted (processNextFrame cfg st) = emitted st
    /\ buffer (processNextFrame cfg st) = buffer st
    /\ timers (processNextFrame cfg st) = timers st
    /\ cleanedUp (processNextFrame cfg st) = cleanedUp st
    /\ isProcessing (processNextFrame cfg st) = false.
Proof.
  intros Hidle. destruct (frameQueue st) as [| f rest] eqn:Hq.
  - exists []. rewrite processNextFrame_idle by auto.
    rewrite Hq, app_nil_r. simpl. repeat split; auto; lia.
  - exists (first_frame_effects st ++ [StdoutWrite (render_blob cfg f)]
            ++ reschedule rest).
    rewrite (processNextFrame_pop cfg st f rest Hidle Hq).
    cbn [log buffer emitted frameQueue frameCount immediates timers cleanedUp
         isProcessing take drop map length].
    rewrite !blob_writes_app, blob_writes_first_frame, blob_writes_blob,
      blob_writes_reschedule.
    rewrite take_0.
    repeat split; auto; try (simpl; lia).
    unfold first_frame_effects, reschedule.
    destruct (firstFrame st), (0 <? length rest); simpl;
      intuition discriminate.
Qed.

End Frames.

(** ** The scheduler *)

Section Scheduler.

Variable cfg : RenderConfig.
Variable isTTY : bool.

Lemma queue_has_immediate (evs : list event) (st : state) :
  run cfg isTTY (init isTTY) evs = Some st ->
  frameQueue st <> [] -> 0 < immediates st.
Proof.
  revert evs st.
  apply (run_invariant cfg isTTY
           (fun st => frameQueue st <> [] -> 0 < immediates st)
           (fun _ => True)); auto.
  - simpl. congruence.
  - intros st _ Hidle.
    destruct (processNextFrame_frame cfg st Hidle)
      as (es & _ & _ & _ & Hq & _ & Hi & _).
    rewrite Hq, Hi. unfold reschedule.
    destruct (drop 1 (frameQueue st)); [congruence | simpl; lia].
  - intros st H.
    destruct (cleanup_frame isTTY st)
      as (es & _ & _ & _ & _ & _ & _ & Hq & _ & Hi & _).
    cbn [frameQueue immediates set_timers perform set_log]. now rewrite Hq, Hi.
  - intros st H.
    destruct (cleanup_frame isTTY st)
      as (es & _ & _ & _ & _ & _ & _ & Hq & _ & Hi & _).
    cbn [frameQueue immediates perform set_log]. now rewrite Hq, Hi.
Qed.

(** Running the pending callbacks empties the queue, oldest frame
    first. *)
Lemma drain (q : list frame) : forall st : state,
  exited st = false ->
  isProcessing st = false ->
  frameQueue st = q ->
  (q <> [] -> 0 < immediates st) ->
  exists st' : state,
    run cfg isTTY st (replicate (length q) Immediate) = Some st'
    /\ frameQueue st' = []
    /\ frameCount st' = frameCount st + length q
    /\ blob_writes (log st')
       = blob_writes (log st) ++ map (render_blob cfg) q.
Proof.
  induction q as [| f rest IH]; intros st Hlive Hidle Hq Himm.
  - exists st. simpl. rewrite app_nil_r. repeat split; auto.
  - specialize (Himm ltac:(discriminate)).
    destruct (immediates st) as [| n] eqn:En; [lia |].
    cbn [length replicate run]. unfold step at 1. rewrite Hlive, En.
    set (st0 := set_immediates n st).
    assert (Hidle0 : isProcessing st0 = false) by exact Hidle.
    destruct (processNextFrame_frame cfg st0 Hidle0)
      as (es & Hlog & Hblob & _ & Hq1 & Hc1 & Hi1 & _ & _ & _ & _ & Hp1).
    change (frameQueue st0) with (frameQueue st) in *.
    change (frameCount st0) with (frameCount st) in *.
    change (log st0) with (log st) in *.
    change (immediates st0) with n in *.
    rewrite Hq in Hblob, Hq1, Hc1, Hi1. simpl in Hblob, Hq1, Hc1, Hi1.
    destruct (IH (processNextFrame cfg st0)
                ltac:(rewrite processNextFrame_exited; exact Hlive) Hp1 Hq1)
      as (st' & Hr & Hq' & Hc' & Hb').
    + intros Hne. rewrite Hi1. unfold reschedule.
      destruct rest; [congruence | simpl; lia].
    + exists st'. split; [exact Hr |]. split; [exact Hq' |].
      split; [rewrite Hc', Hc1; simpl; lia |].
      rewrite Hb', Hlog, blob_writes_app, Hblob, <- app_assoc. reflexivity.
Qed.

End Scheduler.

(** X1. In every reachable state a non-empty queue has a pending
    [setImmediate] callback; and while the process runs, running one such
    callback per queued frame succeeds, empties the queue and writes
    exactly the queued frames, oldest first. *)
Theorem queued_frames_are_rendered (cfg : RenderConfig) (isTTY : bool)
    (evs : list event) (st : state) :
  run cfg isTTY (init isTTY) evs = Some st ->
  (frameQueue st <> [] -> 0 < immediates st)
  /\ (exited st = false ->
      exists st' : state,
        run cfg isTTY st (replicate (length (frameQueue st)) Immediate)
        = Some st'
        /\ frameQueue st' = []
        /\ frameCount st' = frameCount st + length (frameQueue st)
        /\ blob_writes (log st')
           = blob_writes (log st) ++ map (render_blob cfg) (frameQueue st)).
Proof.
  intros Hrun.
  pose proof (queue_has_immediate cfg isTTY evs st Hrun) as Himm.
  split; [exact Himm |]. intros Hlive.
  apply reachable_inv in Hrun as [Hc _].
  apply drain;
    [exact Hlive | exact (ci_idle _ _ _ _ Hc) | reflexivity | exact Himm].
Qed.

Lemma queued_frames_are_rendered_witness :
  exists st : state,
    run cfg4 true (init true) [Data (black4 ++ white4 ++ black4)] = Some st
    /\ length (frameQueue st) = 2
    /\ exited st = false
    /\ exists st' : state,
         run cfg4 true st (replicate (length (frameQueue st)) Immediate)
         = Some st'
         /\ frameQueue st' = [].
Proof.
  destruct (run cfg4 true (init true) [Data (black4 ++ white4 ++ black4)])
    as [st |] eqn:H; [| vm_compute in H; discriminate].
  assert (Hq : length (frameQueue st) = 2 /\ exited st = false).
  { pose proof H as H'. vm_compute in H'. injection H' as <-.
    split; reflexivity. }
  exists st. split; [reflexivity |].
  split; [exact (proj1 Hq) |]. split; [exact (proj2 Hq) |].
  destruct (proj2 (queued_frames_are_rendered cfg4 true _ st H) (proj2 Hq))
    as (st' & Hr & Hq' & _).
  exists st'. split; [exact Hr | exact Hq'].
Defined.

(** ** Rendering order *)

Lemma enqueue_sublist (rendered q em : list frame) (f : frame) :
  (rendered ++ q) `sublist_of` em ->
  (rendered ++ enqueue q f) `sublist_of` (em ++ [f]).
Proof.
  intros H. unfold enqueue.
  transitivity (rendered ++ q ++ [f]).
  - apply sublist_app; [reflexivity |].
    destruct (30 <? length (q ++ [f])); [apply sublist_drop | reflexivity].
  - rewrite app_assoc. now apply sublist_app.
Qed.

(** X2. In every reachable state the frames written to the terminal are
    the blobs of [frameCount] of the frames sliced from the decoder's
    output, and these frames followed by the queued ones appear in the
    order they were sliced: no frame is rendered twice or out of order. *)
Theorem rendered_in_stream_order (cfg : RenderConfig) (isTTY : bool)
    (evs : list event) (st : state) :
  run cfg isTTY (init isTTY) evs = Some st ->
  exists rendered : list frame,
    blob_writes (log st) = map (render_blob cfg) rendered
    /\ length rendered = frameCount st
    /\ (rendered ++ frameQueue st) `sublist_of` emitted st.
Proof.
  revert evs st.
  set (P := fun st : state =>
    exists rendered : list frame,
      blob_writes (log st) = map (render_blob cfg) rendered
      /\ length rendered = frameCount st
      /\ (rendered ++ frameQueue st) `sublist_of` emitted st).
  apply (run_invariant cfg isTTY P P); subst P; cbv beta.
  - exists []. destruct isTTY; repeat split; simpl; auto; constructor.
  - intros st chunk H. exact H.
  - intros st (r & Hb & Hl & Hs) _ _. exists r. rewrite slice_step_eq.
    cbn [log frameCount frameQueue emitted].
    repeat split; auto. now apply enqueue_sublist.
  - intros st (r & Hb & Hl & Hs) Hidle.
    destruct (processNextFrame_frame cfg st Hidle)
      as (es & Hlog & Hblob & _ & Hq & Hc & _ & He & _).
    exists (r ++ take 1 (frameQueue st)).
    rewrite Hlog, blob_writes_app, Hblob, Hb, map_app, length_app, Hq, Hc, He,
      Hl, <- app_assoc, take_drop.
    auto.
  - intros st n H _. exact H.
  - intros st (r & Hb & Hl & Hs).
    destruct (cleanup_frame isTTY st)
      as (es & Hlog & Hblob & _ & _ & _ & He & Hq & Hc & _).
    exists r.
    cbn [log frameCount frameQueue emitted set_timers perform set_log].
    rewrite Hlog, !blob_writes_app, Hblob, He, Hq, Hc, !app_nil_r. auto.
  - intros st (r & Hb & Hl & Hs). exists r.
    cbn [log frameCount frameQueue emitted perform set_log].
    rewrite blob_writes_app, app_nil_r. auto.
  - intros st (r & Hb & Hl & Hs).
    destruct (cleanup_frame isTTY st)
      as (es & Hlog & Hblob & _ & _ & _ & He & Hq & Hc & _).
    exists r.
    cbn [log frameCount frameQueue emitted perform set_log].
    rewrite Hlog, !blob_writes_app, Hblob, He, Hq, Hc, !app_nil_r. auto.
  - intros st (r & Hb & Hl & Hs). exists r. unfold onAudioError.
    cbn [log frameCount frameQueue emitted perform set_log set_exited].
    rewrite blob_writes_app, app_nil_r. auto.
  - intros st t ts (r & Hb & Hl & Hs) _. exists r.
    cbn [log frameCount frameQueue emitted perform set_log set_timers].
    rewrite blob_writes_app, app_nil_r. auto.
Qed.

Lemma rendered_in_stream_order_witness :
  exists st : state,
    run cfg4 true (init true) [Data (black4 ++ white4); Immediate] = Some st
    /\ exists rendered : list frame,
         blob_writes (log st) = map (render_blob cfg4) rendered
         /\ length rendered = frameCount st
         /\ (rendered ++ frameQueue st) `sublist_of` emitted st.
Proof.
  destruct (run cfg4 true (init true) [Data (black4 ++ white4); Immediate])
    as [st |] eqn:H; [| vm_compute in H; discriminate].
  exists st. split; [reflexivity |].
  exact (rendered_in_stream_order cfg4 true _ st H).
Defined.

(** ** Settling the promise *)

Lemma resolves_after_show_app (l es : list effect) :
  resolves_after_show l -> ~ In Resolve es -> resolves_after_show (l ++ es).
Proof.
  intros Hl Hes l1 l2 E.
  apply app_eq_app in E as [k [[E1 E2] | [E1 E2]]].
  - destruct k as [| e k].
    + simpl in E2. rewrite <- E2 in Hes. exfalso. apply Hes. now left.
    + injection E2 as <- E2. apply (Hl l1 k). exact E1.
  - exfalso. apply Hes. rewrite E2. apply in_or_app. right. now left.
Qed.

Lemma resolves_after_show_resolve (l : list effect) :
  resolves_after_show l -> In (StdoutWrite cursor_show) l ->
  resolves_after_show (l ++ [Resolve]).
Proof.
  intros Hl Hs l1 l2 E.
  apply app_eq_app in E as [k [[E1 E2] | [E1 E2]]].
  - destruct k as [| e k].
    + rewrite app_nil_r in E1. now subst l1.
    + injection E2 as <- E2. apply (Hl l1 k). exact E1.
  - rewrite E1. apply in_or_app. now left.
Qed.

Section Settling.

Variable cfg : RenderConfig.
Variable isTTY : bool.

Lemma settle_inv (evs : list event) (st : state) :
  run cfg isTTY (init isTTY) evs = Some st ->
  (cleanedUp st = true -> In (StdoutWrite cursor_show) (log st))
  /\ (timers st <> [] -> cleanedUp st = true)
  /\ resolves_after_show (log st).
Proof.
  revert evs st.
  set (P := fun st : state =>
    (cleanedUp st = true -> In (StdoutWrite cursor_show) (log st))
    /\ (timers st <> [] -> cleanedUp st = true)
    /\ resolves_after_show (log st)).
  assert (Hcleanup : forall st, P st ->
            P (cleanup isTTY st) /\ cleanedUp (cleanup isTTY st) = true).
  { intros st (H1 & H2 & H3).
    destruct (cleanup_frame isTTY st)
      as (es & Hlog & _ & Hres & Hshow & _ & _ & _ & _ & _ & Ht & Hc).
    split; [| exact Hc]. unfold P. rewrite Hlog, Ht, Hc.
    split; [| split; [auto | now apply resolves_after_show_app]].
    intros _. apply in_or_app.
    destruct (cleanedUp st) eqn:E; [left; auto | right; auto]. }
  apply (run_invariant cfg isTTY P P); subst P; cbv beta.
  - split; [discriminate |]. split; [simpl; congruence |].
    intros l1 l2 E. exfalso.
    assert (Hin : In Resolve (log (init isTTY)))
      by (rewrite E; apply in_or_app; right; now left).
    destruct isTTY; simpl in Hin; intuition discriminate.
  - intros st chunk H. exact H.
  - intros st H _ _. rewrite slice_step_eq. exact H.
  - intros st (H1 & H2 & H3) Hidle.
    destruct (processNextFrame_frame cfg st Hidle)
      as (es & Hlog & _ & Hres & _ & _ & _ & _ & _ & Ht & Hc & _).
    rewrite Hlog, Ht, Hc.
    split; [| split; [exact H2 | now apply resolves_after_show_app]].
    intros Hcu. apply in_or_app. left. auto.
  - intros st n H _. exact H.
  - intros st H. destruct (Hcleanup st H) as [(H1 & H2 & H3) Hc].
    cbn [cleanedUp timers log set_timers perform set_log].
    split; [| split; [auto |]].
    + intros _. apply in_or_app. left. auto.
    + apply resolves_after_show_app; [exact H3 |].
      simpl. intuition discriminate.
  - intros st (H1 & H2 & H3).
    cbn [cleanedUp timers log perform set_log].
    split; [| split; [exact H2 |]].
    + intros Hcu. apply in_or_app. left. auto.
    + apply resolves_after_show_app; [exact H3 |].
      simpl. intuition discriminate.
  - intros st H. destruct (Hcleanup st H) as [(H1 & H2 & H3) Hc].
    cbn [cleanedUp timers log perform set_log].
    split; [| split; [exact H2 |]].
    + intros _. apply in_or_app. left. auto.
    + apply resolves_after_show_resolve; auto.
  - intros st (H1 & H2 & H3). unfold onAudioError.
    cbn [cleanedUp timers log perform set_log set_exited].
    split; [| split; [exact H2 |]].
    + intros Hcu. apply in_or_app. left. auto.
    + apply resolves_after_show_app; [exact H3 |].
      simpl. intuition discriminate.
  - intros st t ts (H1 & H2 & H3) Et.
    assert (Hcu : cleanedUp st = true) by (apply H2; rewrite Et; discriminate).
    cbn [cleanedUp timers log perform set_log set_timers].
    split; [| split; [auto |]].
    + intros _. apply in_or_app. left. auto.
    + apply resolves_after_show_resolve; auto.
Qed.

End Settling.

(** X3. In every reachable state, each [resolve()] performed so far
    comes after the teardown has shown the cursor again, and a timer that
    will call [resolve()] is pending only once the teardown has run: the
    playback promise is never settled while the terminal is still in
    playback state. *)
Theorem resolve_only_after_teardown (cfg : RenderConfig) (isTTY : bool)
    (evs : list event) (st : state) :
  run cfg isTTY (init isTTY) evs = Some st ->
  (forall l1 l2 : list effect,
     log st = l1 ++ Resolve :: l2 -> In (StdoutWrite cursor_show) l1)
  /\ (timers st <> [] -> cleanedUp st = true)
  /\ (In Resolve (log st) -> cleanedUp st = true).
Proof.
  intros Hrun.
  destruct (settle_inv cfg isTTY evs st Hrun) as (H1 & H2 & H3).
  split; [exact H3 |]. split; [exact H2 |].
  intros Hin. apply in_split in Hin as (l1 & l2 & E).
  pose proof (H3 l1 l2 E) as Hshow.
  apply reachable_inv in Hrun as [Hc _].
  pose proof (ci_teardown _ _ _ _ Hc) as Ht.
  destruct (cleanedUp st); [reflexivity | exfalso].
  assert (Hf : In (StdoutWrite cursor_show) (List.filter is_teardown (log st))).
  { apply filter_In. split.
    - rewrite E. apply in_or_app. now left.
    - simpl. apply show_is_show. }
  rewrite Ht in Hf. exact Hf.
Qed.

Lemma resolve_only_after_teardown_witness :
  exists st : state,
    run cfg4 true (init true) [Key [Byte.x71]; Timeout; FfmpegClose] = Some st
    /\ In Resolve (log st)
    /\ cleanedUp st = true.
Proof.
  destruct (run cfg4 true (init true) [Key [Byte.x71]; Timeout; FfmpegClose])
    as [st |] eqn:H; [| vm_compute in H; discriminate].
  assert (Hin : In Resolve (log st)).
  { pose proof H as H'. vm_compute in H'. injection H' as <-.
    simpl. tauto. }
  exists st. split; [reflexivity |]. split; [exact Hin |].
  exact (proj2 (proj2 (resolve_only_after_teardown cfg4 true _ st H)) Hin).
Defined.

(** ** One frame per callback *)

Section Pace.

Variable cfg : RenderConfig.
Variable isTTY : bool.

(** The slicing loop neither writes nor counts. *)
Lemma slice_loop_quiet (fuel : nat) (st st' : state) :
  slice_loop cfg fuel st = Some st' ->
  log st' = log st /\ frameCount st' = frameCount st
  /\ isProcessing st' = isProcessing st.
Proof.
  intros H.
  destruct (slice_loop_inv cfg
              (fun s => log s = log st /\ frameCount s = frameCount st
                        /\ isProcessing s = isProcessing st)
              ltac:(intros s _ Hs; rewrite slice_step_eq; exact Hs)
              _ _ _ H (conj eq_refl (conj eq_refl eq_refl))) as [Hs _].
  exact Hs.
Qed.

Lemma step_pace (st st' : state) (ev : event) :
  isProcessing st = false ->
  step cfg isTTY st ev = Some st' ->
  exists es : list effect,
    log st' = log st ++ es
    /\ frameCount st' = frameCount st + length (blob_writes es)
    /\ length (blob_writes es) <= 1
    /\ (length (blob_writes es) = 1 ->
        ev = Immediate \/ exists chunk, ev = Data chunk).
Proof.
  intros Hidle Hs. unfold step in Hs.
  destruct (exited st); [discriminate |].
  assert (Hnext : forall s : state,
            isProcessing s = false -> log s = log st ->
            frameCount s = frameCount st ->
            exists es : list effect,
              log (processNextFrame cfg s) = log st ++ es
              /\ frameCount (processNextFrame cfg s)
                 = frameCount st + length (blob_writes es)
              /\ length (blob_writes es) <= 1).
  { intros s Hi Hl Hc.
    destruct (processNextFrame_frame cfg s Hi)
      as (es & Hlog & Hblob & _ & _ & Hcount & _).
    exists es. rewrite Hlog, Hl, Hcount, Hc, Hblob, length_map.
    repeat split. destruct (frameQueue s); simpl; lia. }
  destruct ev as [chunk | key | enoent | | | |]; simpl in Hs.
  - unfold onData, onData_fuel in Hs.
    destruct (slice_loop cfg _ _) as [st2 |] eqn:Hloop; [| discriminate].
    injection Hs as <-.
    destruct (slice_loop_quiet _ _ _ Hloop) as (Hl & Hc & Hi).
    cbn [log frameCount isProcessing set_buffer] in Hl, Hc, Hi.
    rewrite Hi, Hidle.
    destruct (Hnext st2 ltac:(congruence) Hl Hc) as (es & H1 & H2 & H3).
    exists es. repeat split; eauto.
  - destruct (keyListener st); [| discriminate]. injection Hs as <-.
    unfold onKeyPress.
    destruct (first_byte_is_etx key || lower_is_q key).
    + destruct (cleanup_frame isTTY st)
        as (es & Hlog & Hblob & _ & _ & _ & _ & _ & Hc & _).
      exists (es ++ [SetTimeout 100]).
      cbn [log frameCount set_timers perform set_log].
      rewrite Hlog, Hc, blob_writes_app, Hblob, <- app_assoc. simpl.
      repeat split; try lia; try discriminate.
    + exists []. rewrite app_nil_r. simpl. repeat split; try lia; try discriminate.
  - injection Hs as <-. unfold onFfmpegError.
    set (st1 := if enoent then perform [ReportDecoderMissing] st else st).
    destruct (cleanup_frame isTTY st1)
      as (es & Hlog & Hblob & _ & _ & _ & _ & _ & Hc & _).
    exists ((if enoent then [ReportDecoderMissing] else []) ++ es ++ [Resolve]).
    cbn [log frameCount perform set_log].
    rewrite Hlog, Hc, !blob_writes_app, Hblob.
    subst st1. destruct enoent; cbn [log frameCount perform set_log];
      rewrite <- ?app_assoc; simpl; repeat split; try lia; try discriminate.
  - injection Hs as <-. unfold onFfmpegClose.
    destruct (cleanup_frame isTTY st)
      as (es & Hlog & Hblob & _ & _ & _ & _ & _ & Hc & _).
    exists (es ++ [Resolve]).
    cbn [log frameCount perform set_log].
    rewrite Hlog, Hc, blob_writes_app, Hblob, <- app_assoc. simpl.
    repeat split; try lia; try discriminate.
  - injection Hs as <-. exists [Uncaught AudioPlayer]. simpl.
    repeat split; try lia; try discriminate.
  - destruct (immediates st) as [| n]; [discriminate |]. injection Hs as <-.
    destruct (Hnext (set_immediates n st) Hidle eq_refl eq_refl)
      as (es & H1 & H2 & H3).
    exists es. repeat split; eauto.
  - destruct (timers st) as [| t ts]; [discriminate |]. injection Hs as <-.
    exists [Resolve]. simpl. repeat split; try lia; try discriminate.
Qed.

End Pace.

(** X4. From a reachable state every callback renders at most one frame:
    it only appends to the log, the appended effects contain at most one
    frame write, [frameCount] grows by exactly that number, and only the
    'data' handler and a [setImmediate] callback write a frame. *)
Theorem one_frame_per_callback (cfg : RenderConfig) (isTTY : bool)
    (evs : list event) (st st' : state) (ev : event) :
  run cfg isTTY (init isTTY) evs = Some st ->
  step cfg isTTY st ev = Some st' ->
  exists es : list effect,
    log st' = log st ++ es
    /\ frameCount st' = frameCount st + length (blob_writes es)
    /\ length (blob_writes es) <= 1
    /\ (length (blob_writes es) = 1 ->
        ev = Immediate \/ exists chunk, ev = Data chunk).
Proof.
  intros Hrun Hs. apply reachable_inv in Hrun as [Hc _].
  exact (step_pace cfg isTTY st st' ev (ci_idle _ _ _ _ Hc) Hs).
Qed.

Lemma one_frame_per_callback_witness :
  exists st st' : state,
    run cfg4 true (init true) [Data black4] = Some st
    /\ step cfg4 true st (Data (white4 ++ black4 ++ white4)) = Some st'
    /\ exists es : list effect,
         log st' = log st ++ es
         /\ frameCount st' = frameCount st + length (blob_writes es)
         /\ length (blob_writes es) <= 1.
Proof.
  destruct (run cfg4 true (init true) [Data black4]) as [st |] eqn:H;
    [| vm_compute in H; discriminate].
  destruct (step cfg4 true st (Data (white4 ++ black4 ++ white4)))
    as [st' |] eqn:Hs.
  - exists st, st'. split; [reflexivity |]. split; [exact Hs |].
    destruct (one_frame_per_callback cfg4 true _ st st' _ H Hs)
      as (es & Hl & Hc & Hle & _).
    exists es. split; [exact Hl |]. split; [exact Hc | exact Hle].
  - exfalso. pose proof H as H'. vm_compute in H'. injection H' as <-.
    vm_compute in Hs. discriminate.
Defined.

(** ** Memory *)

Lemma length_concat_sized {A : Type} (n : nat) (l : list (list A)) :
  Forall (fun x => length x = n) l -> length (concat l) = length l * n.
Proof.
  induction 1 as [| x l Hx _ IH]; [reflexivity |].
  simpl. rewrite length_app, IH, Hx. lia.
Qed.

(** X5. With a positive frame size, in every reachable state each queued
    frame has [frameSize] bytes and the session retains less than 31
    frames' worth of decoder output (at most 30 queued frames and less
    than one frame in the buffer), however much the decoder has sent. *)
Theorem retained_bytes_bounded (cfg : RenderConfig) (isTTY : bool)
    (evs : list event) (st : state) :
  0 < frameSize cfg ->
  run cfg isTTY (init isTTY) evs = Some st ->
  Forall (fun f => length f = frameSize cfg) (frameQueue st)
  /\ retained st < 31 * frameSize cfg.
Proof.
  intros Hpos Hrun. apply reachable_inv in Hrun as [Hc Hb].
  specialize (Hb Hpos).
  assert (Hq : Forall (fun f => length f = frameSize cfg) (frameQueue st)).
  { destruct (ci_fifo _ _ _ _ Hc) as [k Hk].
    pose proof (ci_sized _ _ _ _ Hc) as Hs. rewrite Hk in Hs.
    now apply Forall_app in Hs as [_ Hs]. }
  split; [exact Hq |]. unfold retained.
  rewrite (length_concat_sized _ _ Hq).
  pose proof (ci_bound _ _ _ _ Hc) as Hlen.
  assert (length (frameQueue st) * frameSize cfg <= 30 * frameSize cfg)
    by (apply Nat.mul_le_mono_r; exact Hlen).
  unfold frame in *. lia.
Qed.

Lemma retained_bytes_bounded_witness :
  0 < frameSize cfg4
  /\ exists st : state,
       run cfg4 true (init true)
           [Data (concat (replicate 40 white4) ++ [Byte.x01])] = Some st
       /\ retained st < 31 * frameSize cfg4.
Proof.
  assert (Hpos : 0 < frameSize cfg4) by (vm_compute; lia).
  split; [exact Hpos |].
  destruct (run cfg4 true (init true)
              [Data (concat (replicate 40 white4) ++ [Byte.x01])])
    as [st |] eqn:H; [| vm_compute in H; discriminate].
  exists st. split; [reflexivity |].
  exact (proj2 (retained_bytes_bounded cfg4 true _ st Hpos H)).
Defined.

(** ** Widths for which the 'data' handler returns *)

(** The configuration of a session, for widths up to 2^26. *)
Lemma playVideoAscii_config_dims (asciiWidth columns : option Z)
    (name : string) (cfg : RenderConfig) :
  (1 <= choose_width asciiWidth columns <= 67108864)%Z ->
  playVideoAscii_config asciiWidth columns name = Some cfg ->
  width cfg = Z.to_nat (choose_width asciiWidth columns)
  /\ height cfg = Z.to_nat (99 * choose_width asciiWidth columns / 320).
Proof.
  intros Hw. unfold playVideoAscii_config. cbv zeta.
  set (w := choose_width asciiWidth columns) in *.
  rewrite derive_height_exact
    by (change (2 ^ 43)%Z with 8796093022208%Z; lia).
  assert (Hh : (0 <= 99 * w / 320 <= 67108864)%Z).
  { split; [apply Z.div_pos; lia |]. apply Z.div_le_upper_bound; lia. }
  rewrite to_Z_of_Z by (change (2 ^ 53)%Z with 9007199254740992%Z; lia).
  destruct ((0 <? w)%Z && (0 <=? 99 * w / 320)%Z); [| discriminate].
  intros H. injection H as <-. split; reflexivity.
Qed.

(** X6. For a width from 1 to 2^26 the frame size of the session is
    zero exactly for the widths 1, 2 and 3 (their height is 0).  For
    these the loop of the 'data' handler never exits: the handler does
    not return on any chunk, whatever the fuel.  From width 4 on the
    frame size is positive and the handler returns on every chunk from
    every state. *)
Theorem data_handler_returns_from_width_4 (asciiWidth columns : option Z)
    (name : string) (cfg : RenderConfig) :
  (1 <= choose_width asciiWidth columns <= 67108864)%Z ->
  playVideoAscii_config asciiWidth columns name = Some cfg ->
  ((choose_width asciiWidth columns <= 3)%Z ->
   frameSize cfg = 0
   /\ forall (fuel : nat) (chunk : list Byte.byte) (st : state),
        onData_fuel cfg fuel chunk st = None)
  /\ ((4 <= choose_width asciiWidth columns)%Z ->
      0 < frameSize cfg
      /\ forall (chunk : list Byte.byte) (st : state),
           is_Some (onData cfg chunk st)).
Proof.
  intros Hw Hcfg.
  destruct (playVideoAscii_config_dims _ _ _ _ Hw Hcfg) as [Ewidth Eheight].
  set (w := choose_width asciiWidth columns) in *.
  split.
  - intros Hsmall.
    assert (H0 : frameSize cfg = 0).
    { unfold frameSize. rewrite Eheight.
      replace (99 * w / 320)%Z with 0%Z; [simpl; lia |].
      symmetry. apply Z.div_small. lia. }
    split; [exact H0 |]. intros fuel chunk st.
    unfold onData_fuel. now rewrite slice_loop_diverges.
  - intros Hbig.
    assert (Hpos : 0 < frameSize cfg).
    { unfold frameSize. rewrite Ewidth, Eheight.
      assert (1 <= 99 * w / 320)%Z by (apply Z.div_le_lower_bound; lia).
      assert (0 < Z.to_nat w) by lia.
      assert (0 < Z.to_nat (99 * w / 320)) by lia.
      nia. }
    split; [exact Hpos |]. intros chunk st.
    unfold onData, onData_fuel.
    destruct (slice_loop_terminates cfg Hpos (S (length (buffer st ++ chunk)))
                (set_buffer (buffer st ++ chunk) st)) as [st2 ->];
      [simpl; lia | eauto].
Qed.

Lemma data_handler_returns_from_width_4_witness :
  (1 <= choose_width (Some 3%Z) None <= 67108864)%Z
  /\ playVideoAscii_config (Some 3%Z) None "standard"
     = Some {| width := 3; height := 0; chars := VString standard |}
  /\ (choose_width (Some 3%Z) None <= 3)%Z
  /\ onData_fuel {| width := 3; height := 0; chars := VString standard |}
       1000 [] (init true) = None.
Proof.
  assert (H1 : (1 <= choose_width (Some 3%Z) None <= 67108864)%Z)
    by (vm_compute; split; discriminate).
  assert (H2 : playVideoAscii_config (Some 3%Z) None "standard"
               = Some {| width := 3; height := 0; chars := VString standard |})
    by (vm_compute; reflexivity).
  assert (H3 : (choose_width (Some 3%Z) None <= 3)%Z)
    by (vm_compute; discriminate).
  split; [exact H1 |]. split; [exact H2 |]. split; [exact H3 |].
  exact (proj2 (proj1 (data_handler_returns_from_width_4 _ _ _ _ H1 H2) H3)
           1000 [] (init true)).
Defined.

(** * The command-line shell *)

(** ** Player dispatch *)

Lemma playVideo_unsupported (host : Host) (config : Settings) (fuel : nat) :
  asciiMode config = true -> ansi_unsupported host = true ->
  playVideo host config fuel = None.
Proof.
  intros Ha Hu. induction fuel as [| fuel IH]; [reflexivity |].
  simpl. rewrite Ha. unfold playVideoAscii_executor. now rewrite Hu, IH.
Qed.



(** ** The settings menu *)

Lemma CHARSETS_keys_own (name : string) :
  In name CHARSETS_keys <-> is_Some (CHARSETS !! name).
Proof.
  split.
  - intros H. simpl in H.
    destruct H as [<- | [<- | [<- | [<- | []]]]]; eexists; reflexivity.
  - intros [ramp H]. apply CHARSETS_cases in H. simpl.
    destruct H as [[-> _] | [[-> _] | [[-> _] | [-> _]]]]; tauto.
Qed.

Lemma quality_options_choice (quality : string) :
  In quality quality_choices -> quality_options quality <> [].
Proof.
  simpl. intros [<- | [<- | [<- | [<- | []]]]]; discriminate.
Qed.

Lemma settingsMenu_pass_choices (config config' : Settings) (a : answer) :
  In (asciiCharset config) CHARSETS_keys ->
  In (downloadQuality config) quality_choices ->
  settingsMenu_pass config a = Some config' ->
  In (asciiCharset config') CHARSETS_keys
  /\ In (downloadQuality config') quality_choices.
Proof.
  intros Hc Hq H. destruct a as [| w | i | d | i |]; simpl in H.
  - injection H as <-. auto.
  - injection H as <-. auto.
  - destruct (CHARSETS_keys !! i) as [charset |] eqn:E; [| discriminate].
    injection H as <-. split; [| exact Hq]. cbn [asciiCharset].
    apply list_elem_of_In. eapply list_elem_of_lookup_2. exact E.
  - injection H as <-. auto.
  - destruct (quality_choices !! i) as [quality |] eqn:E; [| discriminate].
    injection H as <-. split; [exact Hc |]. cbn [downloadQuality].
    apply list_elem_of_In. eapply list_elem_of_lookup_2. exact E.
  - injection H as <-. auto.
Qed.

(** X8. The settings menu stores as charset only own keys of [CHARSETS]
    and as quality only one of the four offered values: if the settings
    hold such values (as the defaults do), they still do after any
    sequence of answers.  For such settings the renderer's ramp is the
    named ramp itself, never an inherited property and never the
    fallback, and a merged download always passes encoding options to
    ffmpeg, after the two inputs and before the output path, which comes
    last. *)
Theorem settingsMenu_keeps_choices (answers : list answer)
    (config config' : Settings) :
  In (asciiCharset config) CHARSETS_keys ->
  In (downloadQuality config) quality_choices ->
  settingsMenu answers config = Some config' ->
  In (asciiCharset config') CHARSETS_keys
  /\ In (downloadQuality config') quality_choices
  /\ (exists ramp : jsstring,
        CHARSETS !! asciiCharset config' = Some ramp
        /\ select_chars (asciiCharset config') = VString ramp)
  /\ quality_options (downloadQuality config') <> []
  /\ (forall video audio path : jsstring,
        8 <= length (merge_args config' video audio path)
        /\ take 4 (merge_args config' video audio path)
           = [lit "-i"; video; lit "-i"; audio]
        /\ last (merge_args config' video audio path) = Some path).
Proof.
  revert config. induction answers as [| a answers IH]; intros config Hc Hq H.
  - simpl in H. injection H as <-.
    split; [exact Hc |]. split; [exact Hq |]. split; [| split].
    + apply CHARSETS_keys_own in Hc as [ramp Hr]. exists ramp.
      split; [exact Hr | now apply select_chars_named].
    + now apply quality_options_choice.
    + intros video audio path. unfold merge_args.
      simpl in Hq.
      destruct Hq as [<- | [<- | [<- | [<- | []]]]];
        (split; [simpl; lia | split; reflexivity]).
  - simpl in H.
    destruct (settingsMenu_pass config a) as [config1 |] eqn:E;
      [| discriminate].
    destruct (settingsMenu_pass_choices _ _ _ Hc Hq E) as [Hc1 Hq1].
    exact (IH config1 Hc1 Hq1 H).
Qed.

Lemma settingsMenu_keeps_choices_witness :
  In (asciiCharset defaults) CHARSETS_keys
  /\ In (downloadQuality defaults) quality_choices
  /\ settingsMenu [PickCharset 3; ToggleAsciiMode; PickQuality 2;
                   EnterWidth (of_Z 120)] defaults
     = Some {| asciiMode := true; asciiWidth := of_Z 120;
               asciiCharset := "solid"; downloadDir := lit ".";
               downloadQuality := "medium"; autoMergeAudio := true |}
  /\ In "solid" CHARSETS_keys.
Proof.
  assert (H1 : In (asciiCharset defaults) CHARSETS_keys) by (simpl; tauto).
  assert (H2 : In (downloadQuality defaults) quality_choices)
    by (simpl; tauto).
  assert (H3 : settingsMenu [PickCharset 3; ToggleAsciiMode; PickQuality 2;
                             EnterWidth (of_Z 120)] defaults
               = Some {| asciiMode := true; asciiWidth := of_Z 120;
                         asciiCharset := "solid"; downloadDir := lit ".";
                         downloadQuality := "medium";
                         autoMergeAudio := true |}) by reflexivity.
  split; [exact H1 |]. split; [exact H2 |]. split; [exact H3 |].
  exact (proj1 (settingsMenu_keeps_choices _ defaults _ H1 H2 H3)).
Defined.

(** ** Search *)

Lemma startsWith_prefix (p : jsstring) : forall s : jsstring,
  startsWith s p = true <-> exists l, s = p ++ l.
Proof.
  induction p as [| c p IH]; intros s.
  - split; [intros _; exists s; reflexivity | intros _; now destruct s].
  - destruct s as [| d s]; simpl.
    + split; [discriminate | intros [l H]; discriminate].
    + rewrite andb_true_iff, N.eqb_eq, IH. split.
      * intros [-> [l ->]]. now exists l.
      * intros [l H]. injection H as -> ->. eauto.
Qed.

Lemma includes_infix (q : jsstring) : forall s : jsstring,
  includes s q = true <-> exists l1 l2, s = l1 ++ q ++ l2.
Proof.
  induction s as [| d s IH]; cbn [includes];
    rewrite orb_true_iff, startsWith_prefix.
  - split.
    + intros [[l H] | H]; [| discriminate]. exists [], l. exact H.
    + intros (l1 & l2 & H). left.
      destruct l1; [| discriminate]. now exists l2.
  - rewrite IH. split.
    + intros [[l H] | (l1 & l2 & H)].
      * exists [], l. exact H.
      * exists (d :: l1), l2. now rewrite H.
    + intros (l1 & l2 & H). destruct l1 as [| e l1].
      * left. now exists l2.
      * right. injection H as -> ->. eauto.
Qed.

Lemma includes_empty (s : jsstring) : includes s [] = true.
Proof. apply includes_infix. exists [], s. reflexivity. Qed.

Lemma includes_trans (s q2 q1 : jsstring) :
  includes s q2 = true -> includes q2 q1 = true -> includes s q1 = true.
Proof.
  rewrite !includes_infix. intros (a & b & ->) (c & d & ->).
  exists (a ++ c), (d ++ b). now rewrite <- !app_assoc.
Qed.

Lemma filter_all {A : Type} (p : A -> bool) (l : list A) :
  (forall x, p x = true) -> List.filter p l = l.
Proof.
  intros H. induction l as [| x l IH]; [reflexivity |].
  simpl. now rewrite H, IH.
Qed.

Lemma filter_sublist {A : Type} (p : A -> bool) (l : list A) :
  List.filter p l `sublist_of` l.
Proof.
  induction l as [| x l IH]; simpl; [constructor |].
  destruct (p x); now constructor.
Qed.

Lemma filter_sublist_impl {A : Type} (p1 p2 : A -> bool) (l : list A) :
  (forall x, p2 x = true -> p1 x = true) ->
  List.filter p2 l `sublist_of` List.filter p1 l.
Proof.
  intros H. induction l as [| x l IH]; simpl; [constructor |].
  destruct (p2 x) eqn:E2.
  - rewrite (H x E2). now constructor.
  - destruct (p1 x); [now constructor | exact IH].
Qed.

(** X9. The search keeps the order of the listing and drops videos only.
    An empty query keeps every video, so "no videos found" then means an
    empty listing.  Refining a query narrows the result: when the
    lower-cased query [q1] occurs in the lower-cased query [q2], every
    video found for [q2] is found for [q1], in the same order.  This holds
    for any lower-casing function that maps the empty string to itself. *)
Theorem search_refines (toLowerCase : jsstring -> jsstring)
    (videos : list video) :
  toLowerCase [] = [] ->
  search toLowerCase [] videos = videos
  /\ (forall q : jsstring, search toLowerCase q videos `sublist_of` videos)
  /\ (forall q1 q2 : jsstring,
        includes (toLowerCase q2) (toLowerCase q1) = true ->
        search toLowerCase q2 videos `sublist_of` search toLowerCase q1 videos).
Proof.
  intros Hempty. split; [| split].
  - unfold search. rewrite Hempty. apply filter_all.
    intros v. unfold matches_query. now rewrite includes_empty.
  - intros q. apply filter_sublist.
  - intros q1 q2 H. unfold search. apply filter_sublist_impl.
    intros v. unfold matches_query. rewrite !orb_true_iff.
    intros [Hv | Hv]; [left | right]; eapply includes_trans; eassumption.
Qed.

Lemma search_refines_witness :
  toLowerCase_ascii [] = []
  /\ includes (toLowerCase_ascii (lit "Cat V")) (toLowerCase_ascii (lit "AT"))
     = true
  /\ search toLowerCase_ascii (lit "Cat V") sample_videos
     `sublist_of` search toLowerCase_ascii (lit "AT") sample_videos.
Proof.
  assert (H1 : toLowerCase_ascii [] = []) by reflexivity.
  assert (H2 : includes (toLowerCase_ascii (lit "Cat V"))
                        (toLowerCase_ascii (lit "AT")) = true) by reflexivity.
  split; [exact H1 |]. split; [exact H2 |].
  exact (proj2 (proj2 (search_refines toLowerCase_ascii sample_videos H1))
           (lit "AT") (lit "Cat V") H2).
Defined.

(** ** The selected video *)

Lemma field_or_truthy (a b : option jsstring) :
  truthy (field_value (field_or a b)) = truthy (field_value a) || truthy (field_value b).
Proof.
  unfold field_or. destruct (truthy (field_value a)) eqn:E; [now rewrite E |].
  reflexivity.
Qed.

(** X10. [main] calls [playVideo] and [downloadVideo] only with a URL
    that is a non-empty string, the video's own [videoUrl] when that is
    one and its [dashUrl] otherwise; a live video is never downloaded;
    the audio URL passed is the video's non-empty [audioUrl] or null; a
    video with neither URL gets the error message whatever the user
    would have chosen; and the download merges with ffmpeg exactly when
    the video has a non-empty [audioUrl] other than the URL downloaded and
    the auto-merge setting is on. *)
Theorem selection_calls_have_url (v : video) (a : videoAction) :
  (forall url : option jsstring,
     handle_selection v a = CallPlayVideo url ->
     a = ActionPlay
     /\ truthy (field_value url) = true
     /\ url = field_or (videoUrl v) (dashUrl v))
  /\ (forall (vu au : option jsstring) (t : jsstring),
        handle_selection v a = CallDownloadVideo vu au t ->
        a = ActionDownload
        /\ isLive v = false
        /\ truthy (field_value vu) = true
        /\ vu = field_or (videoUrl v) (dashUrl v)
        /\ (au = None \/ (au = audioUrl v /\ truthy (field_value au) = true))
        /\ t = title v)
  /\ (truthy (field_value (videoUrl v)) = false ->
      truthy (field_value (dashUrl v)) = false ->
      handle_selection v a = NoVideoUrl)
  /\ (truthy (field_value (videoUrl v)) = true ->
      field_or (videoUrl v) (dashUrl v) = videoUrl v)
  /\ (forall (config : Settings) (vu au : option jsstring) (t : jsstring),
        handle_selection v a = CallDownloadVideo vu au t ->
        merges_audio config vu au = true
        <-> truthy (field_value (audioUrl v)) = true
            /\ audioUrl v <> vu
            /\ autoMergeAudio config = true).
Proof.
  unfold handle_selection. cbv zeta.
  pose proof (field_or_truthy (videoUrl v) (dashUrl v)) as Ht.
  split; [| split; [| split; [| split]]].
  - intros url H.
    destruct (truthy (field_value (field_or (videoUrl v) (dashUrl v)))) eqn:E;
      simpl in H; [| discriminate].
    destruct a; try discriminate; [| destruct (isLive v); discriminate].
    injection H as <-. repeat split; auto.
  - intros vu au t H.
    destruct (truthy (field_value (field_or (videoUrl v) (dashUrl v)))) eqn:E;
      simpl in H; [| discriminate].
    destruct a; try discriminate.
    destruct (isLive v); [discriminate |]. injection H as <- <- <-.
    repeat split; auto.
    unfold field_or.
    destruct (truthy (field_value (audioUrl v))) eqn:Ea; auto.
  - intros H1 H2. rewrite H1, H2 in Ht. now rewrite Ht.
  - intros H1. unfold field_or. now rewrite H1.
  - intros config vu au t H.
    destruct (truthy (field_value (field_or (videoUrl v) (dashUrl v)))) eqn:E;
      simpl in H; [| discriminate].
    destruct a; try discriminate.
    destruct (isLive v); [discriminate |]. injection H as <- <- <-.
    unfold merges_audio.
    destruct (truthy (field_value (audioUrl v))) eqn:Ea.
    + assert (Hau : field_or (audioUrl v) None = audioUrl v)
        by (unfold field_or; now rewrite Ea).
      rewrite Hau, Ea, !andb_true_iff, negb_true_iff, bool_decide_eq_false.
      tauto.
    + assert (Hau : field_or (audioUrl v) None = None)
        by (unfold field_or; now rewrite Ea).
      rewrite Hau. simpl.
      split; [discriminate | intros [? _]; discriminate].
Qed.

Lemma selection_calls_have_url_witness :
  handle_selection
    {| title := lit "Dog"; username := None; videoUrl := Some [];
       dashUrl := Some (lit "https://v/2.mpd");
       audioUrl := Some (lit "https://v/2.m4a"); isLive := false |}
    ActionDownload
  = CallDownloadVideo (Some (lit "https://v/2.mpd"))
                      (Some (lit "https://v/2.m4a")) (lit "Dog")
  /\ truthy (field_value (Some (lit "https://v/2.mpd"))) = true.
Proof.
  assert (H : handle_selection
    {| title := lit "Dog"; username := None; videoUrl := Some [];
       dashUrl := Some (lit "https://v/2.mpd");
       audioUrl := Some (lit "https://v/2.m4a"); isLive := false |}
    ActionDownload
  = CallDownloadVideo (Some (lit "https://v/2.mpd"))
                      (Some (lit "https://v/2.m4a")) (lit "Dog"))
    by reflexivity.
  split; [exact H |].
  exact (proj1 (proj2 (proj2 (proj1 (proj2 (selection_calls_have_url _ _))
                                _ _ _ H)))).
Defined.

(** ** The file name of a download *)

Lemma is_alnum_ascii (c : char) : (128 <= c)%N -> is_alnum c = false.
Proof.
  intros H. unfold is_alnum.
  rewrite (proj2 (N.leb_gt c 122)), (proj2 (N.leb_gt c 90)),
    (proj2 (N.leb_gt c 57)) by lia.
  now rewrite !andb_false_r.
Qed.

Lemma sanitize_char_ok_all (c : char) : sanitize_char_ok c = true.
Proof.
  destruct (N.lt_ge_cases c 128) as [Hlt | Hge].
  - assert (H : forallb (fun n => sanitize_char_ok (N.of_nat n)) (seq 0 128)
                = true) by (vm_compute; reflexivity).
    rewrite <- (N2Nat.id c).
    exact (forallb_seq_lt _ 128 H (N.to_nat c) ltac:(lia)).
  - unfold sanitize_char_ok. rewrite (is_alnum_ascii c Hge). reflexivity.
Qed.

Lemma sanitize_char (c : char) :
  let d := lower_ascii (if is_alnum c then c else underscore) in
  is_filename_char d = true
  /\ ((if is_alnum c then c else underscore) < 128)%N
  /\ lower_ascii (if is_alnum d then d else underscore) = d
  /\ d <> 46%N /\ d <> 47%N /\ d <> 92%N.
Proof.
  cbv zeta. pose proof (sanitize_char_ok_all c) as H.
  unfold sanitize_char_ok in H. cbv zeta in H.
  rewrite !andb_true_iff, !negb_true_iff, !N.eqb_neq, N.eqb_eq, N.ltb_lt in H.
  tauto.
Qed.

(** X11. The file name of a download is the title with every code unit
    outside the ASCII letters and digits replaced by an underscore, in
    lower case, followed by ".mp4": it has four code units more than the
    title, consists of lower-case letters, digits and underscores before
    the extension, and so holds no path separator and one dot only,
    whatever the title.  The replacement leaves code units below 128
    only, and sanitising a sanitised title changes nothing, so two titles
    that differ in case or punctuation share a file name. *)
Theorem filename_is_safe (title : jsstring) :
  Forall (fun c => (c < 128)%N) (replace_non_alnum title)
  /\ forallb is_filename_char (sanitizedTitle title) = true
  /\ length (sanitizedTitle title) = length title
  /\ filename title = sanitizedTitle title ++ [46; 109; 112; 52]%N
  /\ ~ In 47%N (filename title)
  /\ ~ In 92%N (filename title)
  /\ count_occ N.eq_dec (filename title) 46%N = 1
  /\ sanitizedTitle (sanitizedTitle title) = sanitizedTitle title.
Proof.
  unfold filename, sanitizedTitle, toLowerCase_ascii, replace_non_alnum.
  change (lit ".mp4") with [46; 109; 112; 52]%N.
  rewrite !map_map.
  split; [| split; [| split; [| split; [reflexivity |]]]].
  - apply Forall_map, Forall_forall. intros c _.
    apply (sanitize_char c).
  - apply forallb_forall. intros d Hd. apply in_map_iff in Hd as (c & <- & _).
    apply (sanitize_char c).
  - now rewrite length_map.
  - assert (Hno : forall x : char,
              x = 46%N \/ x = 47%N \/ x = 92%N ->
              ~ In x (map (fun c => lower_ascii
                             (if is_alnum c then c else underscore)) title)).
    { intros x Hx Hin. apply in_map_iff in Hin as (c & E & _).
      pose proof (sanitize_char c) as (_ & _ & _ & H1 & H2 & H3).
      cbv zeta in *. intuition congruence. }
    split; [| split; [| split]].
    + intros Hin. apply in_app_or in Hin as [Hin | Hin].
      * exact (Hno 47%N ltac:(tauto) Hin).
      * simpl in Hin. intuition discriminate.
    + intros Hin. apply in_app_or in Hin as [Hin | Hin].
      * exact (Hno 92%N ltac:(tauto) Hin).
      * simpl in Hin. intuition discriminate.
    + rewrite count_occ_app.
      pose proof (proj1 (count_occ_not_In N.eq_dec _ _)
                    (Hno 46%N ltac:(tauto))) as Hc.
      unfold char in *. rewrite Hc. reflexivity.
    + apply map_ext. intros c. apply (sanitize_char c).
Qed.

(** ** The progress of a merged download *)

(** Comparison of integers below 2^53 as doubles. *)
Lemma compare_of_Z (a b : Z) :
  (0 <= a < 2 ^ 53)%Z -> (0 <= b < 2 ^ 53)%Z ->
  SFcompare (of_Z a) (of_Z b) = Some (a ?= b)%Z.
Proof.
  intros Ha Hb.
  destruct a as [| p | p]; [| | lia]; destruct b as [| q | q]; try lia.
  - reflexivity.
  - destruct (of_Z_pos q ltac:(lia)) as (m & _ & ->). reflexivity.
  - destruct (of_Z_pos p ltac:(lia)) as (m & _ & ->). reflexivity.
  - destruct (of_Z_pos p ltac:(lia)) as (mp & Hmp & ->).
    destruct (of_Z_pos q ltac:(lia)) as (mq & Hmq & ->).
    pose proof (digits_bounds p) as [Hp1 Hp2].
    pose proof (digits_bounds q) as [Hq1 Hq2].
    pose proof (digits_le_53 p ltac:(lia)) as Hdp.
    pose proof (digits_le_53 q ltac:(lia)) as Hdq.
    set (dp := Zpos (digits2_pos p)) in *.
    set (dq := Zpos (digits2_pos q)) in *.
    cbn [SFcompare]. f_equal.
    destruct (Z.compare_spec (dp - 53) (dq - 53)) as [E | E | E].
    + assert (dp = dq) by lia.
      change (Pos.compare_cont Eq mp mq) with (Zpos mp ?= Zpos mq)%Z.
      rewrite Hmp, Hmq. replace dq with dp by assumption.
      assert (Hk : (0 < 2 ^ (53 - dp))%Z) by (apply Z.pow_pos_nonneg; lia).
      destruct (Z.compare_spec (Zpos p) (Zpos q)) as [E' | E' | E'];
        [apply Z.compare_eq_iff | apply Z.compare_lt_iff
         | apply Z.compare_gt_iff]; nia.
    + symmetry. apply Z.compare_lt_iff.
      assert (2 ^ dp <= 2 ^ (dq - 1))%Z by (apply Z.pow_le_mono_r; lia).
      lia.
    + symmetry. apply Z.compare_gt_iff.
      assert (2 ^ dq <= 2 ^ (dp - 1))%Z by (apply Z.pow_le_mono_r; lia).
      lia.
Qed.

Lemma number_gt_of_Z (a b : Z) :
  (0 <= a < 2 ^ 53)%Z -> (0 <= b < 2 ^ 53)%Z ->
  number_gt (of_Z a) (of_Z b) = (b <? a)%Z.
Proof.
  intros Ha Hb. unfold number_gt, SFltb. rewrite compare_of_Z by assumption.
  unfold Z.ltb. now destruct (b ?= a)%Z.
Qed.

(** The captures of the pattern are runs of digits. *)
Lemma span_digits_digits (s : jsstring) :
  forallb is_digit (fst (span_digits s)) = true.
Proof.
  induction s as [| c s IH]; [reflexivity |].
  simpl. destruct (is_digit c) eqn:E; [| reflexivity].
  destruct (span_digits s) as [ds rest]. simpl in *. now rewrite E.
Qed.

Lemma digits1_digits (s ds rest : jsstring) :
  digits1 s = Some (ds, rest) -> forallb is_digit ds = true.
Proof.
  unfold digits1. pose proof (span_digits_digits s) as H.
  destruct (span_digits s) as [[| d ds'] r]; [discriminate |].
  intros E. injection E as <- <-. exact H.
Qed.

Lemma match_time_here_digits (s h m sec : jsstring) :
  match_time_here s = Some (h, m, sec) ->
  forallb is_digit h = true /\ forallb is_digit m = true
  /\ forallb is_digit sec = true.
Proof.
  unfold match_time_here.
  destruct (strip_prefix _ s) as [s1 |]; [| discriminate].
  destruct (digits1 s1) as [[h' s2] |] eqn:E1; [| discriminate].
  destruct (strip_prefix _ s2) as [s3 |]; [| discriminate].
  destruct (digits1 s3) as [[m' s4] |] eqn:E2; [| discriminate].
  destruct (strip_prefix _ s4) as [s5 |]; [| discriminate].
  destruct (digits1 s5) as [[sec' s6] |] eqn:E3; [| discriminate].
  intros E. injection E as <- <- <-.
  split; [exact (digits1_digits _ _ _ E1) |].
  split; [exact (digits1_digits _ _ _ E2) | exact (digits1_digits _ _ _ E3)].
Qed.

Lemma match_time_digits (s h m sec : jsstring) :
  match_time s = Some (h, m, sec) ->
  forallb is_digit h = true /\ forallb is_digit m = true
  /\ forallb is_digit sec = true.
Proof.
  induction s as [| c s IH]; cbn [match_time].
  - destruct (match_time_here []) as [[[h' m'] sec'] |] eqn:E;
      [| discriminate].
    intros H. injection H as <- <- <-.
    exact (match_time_here_digits _ _ _ _ E).
  - destruct (match_time_here (c :: s)) as [[[h' m'] sec'] |] eqn:E;
      [| exact IH].
    intros H. injection H as <- <- <-.
    exact (match_time_here_digits _ _ _ _ E).
Qed.

Lemma foldl_digits_nonneg (l : jsstring) : forall acc : Z,
  forallb is_digit l = true -> (0 <= acc)%Z ->
  (0 <= foldl (fun acc c => 10 * acc + (Z.of_N c - 48)) acc l)%Z.
Proof.
  induction l as [| c l IH]; intros acc Hd Hacc; [exact Hacc |].
  simpl in *. apply andb_true_iff in Hd as [Hc Hl].
  apply IH; [exact Hl |].
  unfold is_digit in Hc. apply andb_true_iff in Hc as [Hc _].
  apply N.leb_le in Hc. lia.
Qed.

Lemma digits_value_nonneg (ds : jsstring) :
  forallb is_digit ds = true -> (0 <= digits_value ds)%Z.
Proof. intros H. now apply foldl_digits_nonneg. Qed.

(** The handler on exact integers: with fields below 10^9 every double
    it computes is an integer below 2^53. *)
Lemma onStderr_exact (lp : Z) (r : list number) (output : jsstring) :
  (0 <= lp < 3661000000000)%Z ->
  fields_small output = true ->
  onStderr {| lastProgress := of_Z lp; reported := r |} output
  = match match_time output with
    | Some (h, m, sec) =>
        let total := (digits_value h * 3600 + digits_value m * 60
                      + digits_value sec)%Z in
        if (lp + 5 <? total)%Z
        then {| lastProgress := of_Z total; reported := r ++ [of_Z total] |}
        else {| lastProgress := of_Z lp; reported := r |}
    | None => {| lastProgress := of_Z lp; reported := r |}
    end
  /\ match match_time output with
     | Some (h, m, sec) =>
         (0 <= digits_value h * 3600 + digits_value m * 60 + digits_value sec
          < 3661000000000)%Z
     | None => True
     end.
Proof.
  intros Hlp Hsmall. unfold onStderr, fields_small in *.
  destruct (match_time output) as [[[h m] sec] |] eqn:E; [| auto].
  destruct (match_time_digits _ _ _ _ E) as (Hh & Hm & Hs).
  apply digits_value_nonneg in Hh, Hm, Hs.
  apply andb_true_iff in Hsmall as [Hsmall Hs'].
  apply andb_true_iff in Hsmall as [Hh' Hm'].
  apply Z.ltb_lt in Hh', Hm', Hs'.
  set (vh := digits_value h) in *. set (vm := digits_value m) in *.
  set (vs := digits_value sec) in *.
  cbv zeta. unfold parseInt. fold vh vm vs. cbn [lastProgress reported].
  assert (H53 : (2 ^ 53 = 9007199254740992)%Z) by reflexivity.
  rewrite !mul_of_Z by (rewrite H53; lia).
  rewrite !add_of_Z by (rewrite ?H53; lia).
  rewrite number_gt_of_Z by (rewrite H53; lia).
  split; [| lia].
  destruct (lp + 5 <? vh * 3600 + vm * 60 + vs)%Z; reflexivity.
Qed.

Lemma progress_run (outputs : list jsstring) : forall (lp : Z) (r : list number),
  (0 <= lp < 3661000000000)%Z ->
  forallb fields_small outputs = true ->
  exists news : list Z,
    reported (foldl onStderr {| lastProgress := of_Z lp; reported := r |}
                outputs)
    = r ++ map of_Z news
    /\ lastProgress (foldl onStderr
                       {| lastProgress := of_Z lp; reported := r |} outputs)
       = of_Z (default lp (last news))
    /\ spaced lp news
    /\ Forall (fun t => (0 <= t < 3661000000000)%Z) news.
Proof.
  induction outputs as [| output outputs IH]; intros lp r Hlp Hall.
  - exists []. simpl. rewrite app_nil_r. auto.
  - simpl in Hall. apply andb_true_iff in Hall as [Hsmall Hall].
    destruct (onStderr_exact lp r output Hlp Hsmall) as [E Hb].
    cbn [foldl]. rewrite E. clear E.
    destruct (match_time output) as [[[h m] sec] |];
      [| exact (IH lp r Hlp Hall)].
    cbv zeta in *.
    set (total := (digits_value h * 3600 + digits_value m * 60
                   + digits_value sec)%Z) in *.
    destruct (lp + 5 <? total)%Z eqn:Hgt; [| exact (IH lp r Hlp Hall)].
    apply Z.ltb_lt in Hgt.
    destruct (IH total (r ++ [of_Z total]) Hb Hall)
      as (news & Hr & Hl & Hs & Hf).
    exists (total :: news). rewrite Hr, Hl, <- app_assoc.
    split; [reflexivity |]. split.
    + f_equal. destruct news as [| t news']; [reflexivity |].
      rewrite last_cons_cons.
      destruct (last (t :: news')) eqn:El; [reflexivity |].
      apply last_None in El. discriminate.
    + split; [simpl; auto | constructor; auto].
Qed.

(** X12. While a merged download runs, the progress shown moves forward
    only, in steps of more than five seconds: if the time stamps found in
    the chunks of ffmpeg's diagnostic output have fields below 10^9, the
    values for which the spinner text is set are exact integers, the first
    above 5 and each more than 5 above the one before, and [lastProgress]
    is the last of them (0 if there is none).  A chunk without a time
    stamp, or with one not more than 5 seconds past the last report,
    changes nothing. *)
Theorem progress_reports_spaced (outputs : list jsstring) :
  forallb fields_small outputs = true ->
  exists totals : list Z,
    reported (foldl onStderr progress_init outputs) = map of_Z totals
    /\ lastProgress (foldl onStderr progress_init outputs)
       = of_Z (default 0%Z (last totals))
    /\ spaced 0 totals
    /\ Forall (fun t => (0 <= t < 3661000000000)%Z) totals.
Proof.
  intros H.
  exact (progress_run outputs 0%Z [] ltac:(lia) H).
Qed.

Lemma progress_reports_spaced_witness :
  forallb fields_small
    [lit "frame=  10 fps=0.0 time=00:00:04.50 bitrate=";
     lit "frame= 200 time=00:01:02.00 bitrate=";
     lit "size=    512kB";
     lit "time=00:01:06.90"; lit "time=01:00:00.00"] = true
  /\ exists totals : list Z,
       reported (foldl onStderr progress_init
         [lit "frame=  10 fps=0.0 time=00:00:04.50 bitrate=";
          lit "frame= 200 time=00:01:02.00 bitrate=";
          lit "size=    512kB";
          lit "time=00:01:06.90"; lit "time=01:00:00.00"])
       = map of_Z totals
       /\ spaced 0 totals.
Proof.
  assert (H : forallb fields_small
    [lit "frame=  10 fps=0.0 time=00:00:04.50 bitrate=";
     lit "frame= 200 time=00:01:02.00 bitrate=";
     lit "size=    512kB";
     lit "time=00:01:06.90"; lit "time=01:00:00.00"] = true)
    by (vm_compute; reflexivity).
  split; [exact H |].
  destruct (progress_reports_spaced _ H) as (totals & Hr & _ & Hs & _).
  exists totals. split; [exact Hr | exact Hs].
Defined.
